(** * The document-ingestion pipeline: fetch, download, extract, enrich, persist

    A shallow embedding of the five stages of the pipeline
    ([slack_client.py], [pdf_processor.py], [metadata_extractor.py],
    [db_manager.py], wired together by [main.py]) and the properties its
    specification states about them.

    Part I holds the embedding, one module per Python module.  Part II
    holds the theorems. *)

From stdpp Require Import ssreflect gmap strings list fin_maps.
From Stdlib Require Import ZArith.

#[local] Set Warnings "-rewrite-rw".
#[local] Open Scope Z_scope.

(* ===================================================================== *)
(** * Part I.  The embedding                                              *)
(* ===================================================================== *)

(** ** Python values, exceptions and computations *)

(** The values that travel in the pipeline's dictionaries.  A [dict] with
    string keys is a [gmap string value]; a [pathlib.Path] is kept apart
    from a [str] because the code calls [Path] methods on it. *)
#[warnings="-register-all"]
Inductive value : Type :=
| VNone
| VBool (b : bool)
| VInt (n : Z)
| VStr (s : string)
| VPath (p : string)
| VList (l : list value)
| VDict (d : gmap string value).

Abbreviation dict := (gmap string value).

(** The subclasses of [Exception] the pipeline meets.  ([KeyboardInterrupt]
    and the other [BaseException]-only signals are not modelled.) *)
Inductive exn : Type :=
| KeyError
| TypeError
| AttributeError
| ValueError (msg : string)
| JSONDecodeError
| RateLimitError
| APIConnectionError
| APIStatusError
| SlackApiError
| RequestException
| HTTPError
| OSError
| DatabaseError.

(** [isinstance e openai.APIError]: [RateLimitError] is one of its
    subclasses, which is why its [except] clause comes first. *)
Definition is_RateLimitError (e : exn) : bool :=
  match e with RateLimitError => true | _ => false end.

Definition is_APIError (e : exn) : bool :=
  match e with
  | RateLimitError | APIConnectionError | APIStatusError => true
  | _ => false
  end.

Definition is_JSONDecodeError (e : exn) : bool :=
  match e with JSONDecodeError => true | _ => false end.

Definition is_SlackApiError (e : exn) : bool :=
  match e with SlackApiError => true | _ => false end.

(** The outcome of a call: it returns or it raises. *)
Inductive res (A : Type) : Type :=
| Ret (a : A)
| Raise (e : exn).
Arguments Ret {A} a.
Arguments Raise {A} e.

(** A computation over a mutable world [S]; the world survives a raise. *)
Definition M (S A : Type) : Type := S → res A * S.

Definition ret {S A} (a : A) : M S A := λ s, (Ret a, s).
Definition raise {S A} (e : exn) : M S A := λ s, (Raise e, s).
Definition lift {S A} (r : res A) : M S A := λ s, (r, s).

Definition bind {S A B} (m : M S A) (k : A → M S B) : M S B :=
  λ s, match m s with
       | (Ret a, s') => k a s'
       | (Raise e, s') => (Raise e, s')
       end.

(** [try: m  except Exception as e: h e] *)
Definition try_except {S A} (m : M S A) (h : exn → M S A) : M S A :=
  λ s, match m s with
       | (Ret a, s') => (Ret a, s')
       | (Raise e, s') => h e s'
       end.

Definition gets {S A} (f : S → A) : M S A := λ s, (Ret (f s), s).
Definition modify {S} (f : S → S) : M S unit := λ s, (Ret tt, f s).

Notation "x <- m ;; k" := (bind m (λ x, k))
  (at level 100, m at next level, right associativity).
Notation "m ;; k" := (bind m (λ _, k))
  (at level 100, right associativity).

(** [d[k]] and [d.get(k, default)] on a dictionary. *)
Definition item (d : dict) (k : string) : res value :=
  match d !! k with
  | Some v => Ret v
  | None => Raise KeyError
  end.

Definition get (d : dict) (k : string) (default : value) : value :=
  match d !! k with
  | Some v => v
  | None => default
  end.

(** The same two operations on a value that may or may not be a dict:
    subscripting a non-dict with a string is a [TypeError], and only a
    dict has [.get]. *)
Definition subscript (v : value) (k : string) : res value :=
  match v with
  | VDict d => item d k
  | _ => Raise TypeError
  end.

Definition dot_get (v : value) (k : string) (default : value) : res value :=
  match v with
  | VDict d => Ret (get d k default)
  | _ => Raise AttributeError
  end.

(** Truthiness, as [if not v] tests it. *)
Definition truthy (v : value) : bool :=
  match v with
  | VNone => false
  | VBool b => b
  | VInt n => negb (n =? 0)%Z
  | VStr s => negb (String.eqb s "")
  | VPath _ => true
  | VList l => match l with [] => false | _ => true end
  | VDict d => negb (bool_decide (d = ∅))
  end.

(** [range(n)] *)
Definition range (n : Z) : list Z := Z.of_nat <$> seq 0 (Z.to_nat n).

(** The newline character of the f-strings and of ["\n".join]. *)
Definition nl : string := String (Ascii.ascii_of_nat 10) "".

(** A Python [str] is a sequence of code points; here it is the string of
    the bytes of its UTF-8 encoding.  A code point starts at every byte
    that is not a continuation byte ([10xxxxxx]). *)
Definition continuation_byte (c : Ascii.ascii) : bool :=
  (128 <=? Ascii.nat_of_ascii c)%nat && (Ascii.nat_of_ascii c <? 192)%nat.

(** [len(s)]: the number of code points. *)
Fixpoint py_len (s : string) : nat :=
  match s with
  | EmptyString => 0%nat
  | String c rest =>
      if continuation_byte c then py_len rest else S (py_len rest)
  end.

(** [s[:n]]: the first [n] code points, each with all its bytes. *)
Fixpoint py_take (n : nat) (s : string) : string :=
  match s with
  | EmptyString => EmptyString
  | String c rest =>
      if continuation_byte c then String c (py_take n rest)
      else match n with
           | O => EmptyString
           | S n => String c (py_take n rest)
           end
  end.

(** The text starts at a code point: it is empty or its first byte is not
    a continuation byte, as every encoded [str] does. *)
Definition starts_code_point (s : string) : bool :=
  match s with
  | EmptyString => true
  | String c _ => negb (continuation_byte c)
  end.

(** ** External collaborators

    The libraries and services the pipeline calls are interfaces here:
    the code is verified against any implementation of them. *)

(** The Python runtime on the host: built-ins, [pathlib], [json] and
    [multiprocessing]. *)
Class Runtime := {
  (** [str(v)], which is also what an f-string writes for [{v}] *)
  py_str : value → string;
  py_str_str : ∀ s, py_str (VStr s) = s;
  (** [directory / name] *)
  path_join : string → string → string;
  (** [path.with_suffix(ext)] *)
  with_suffix : string → string → string;
  (** [json.loads] *)
  json_loads : string → res value;
  (** [multiprocessing.cpu_count()] *)
  cpu_count : Z;
  (** what [d[:n]] raises on a dict [d]: [TypeError] where a slice is not
      hashable, [KeyError] from Python 3.12 on, where it is *)
  dict_slice_error : exn;
}.

(** The inference service: the content of the first choice of the [n]-th
    chat completion requested (counting from 0), given the system and the
    user prompt, or the exception the client raises. *)
Class InferenceService := {
  chat_completions_create : nat → string → string → res (option string);
}.

(* --------------------------------------------------------------------- *)
(** ** [metadata_extractor.py]: the Enricher *)

Module metadata_extractor.

(** What the Enricher does to the outside world, in the order it does it:
    a chat completion requested with a user prompt, or a [time.sleep],
    recorded in milliseconds so that the half second between documents is
    a whole number. *)
Inductive event : Type :=
| ApiCall (user_prompt : string)
| Sleep (ms : Z).

Record world : Type := {
  api_calls : nat;       (* completions requested so far *)
  log : list event;      (* oldest first *)
}.

Definition sleeps (l : list event) : list Z :=
  omap (λ e, match e with Sleep ms => Some ms | ApiCall _ => None end) l.

Definition calls (l : list event) : list string :=
  omap (λ e, match e with ApiCall p => Some p | Sleep _ => None end) l.

Definition null_metadata : dict :=
  {[ "title" := VNone; "publication_date" := VNone ]}.

Definition quote : string := String (Ascii.ascii_of_nat 34) "".

Definition system_prompt : string :=
  "You are a document metadata extraction assistant. " +:+ nl +:+
  "Your task is to extract the document title and publication/creation date from the provided text." +:+ nl +:+
  nl +:+
  "Return your response in JSON format with exactly these keys:" +:+ nl +:+
  "- " +:+ quote +:+ "title" +:+ quote +:+
  ": The main title of the document (string, or null if not found)" +:+ nl +:+
  "- " +:+ quote +:+ "publication_date" +:+ quote +:+
  ": The publication or creation date in ISO format YYYY-MM-DD (string, or null if not found)" +:+ nl +:+
  nl +:+
  "If you cannot find either field, return null for that field." +:+ nl +:+
  "Be precise and extract only what is clearly stated in the document.".

(** [text[:3000] if len(text) > 3000 else text] *)
Definition truncated_text (text : string) : string :=
  if (3000 <? py_len text)%nat then py_take 3000 text else text.

(** The f-string of the user prompt around what [{truncated_text}]
    writes. *)
Definition prompt_of (shown : string) : string :=
  "Extract the title and publication date from this document text:" +:+ nl +:+
  nl +:+
  shown +:+ nl +:+
  nl +:+
  "Return JSON with " +:+ quote +:+ "title" +:+ quote +:+ " and " +:+
  quote +:+ "publication_date" +:+ quote +:+ " fields.".

(** The user prompt for a text that is a [str]. *)
Definition user_prompt (text : string) : string :=
  prompt_of (truncated_text text).

Definition sleep (ms : Z) : M world unit :=
  modify (λ w, {| api_calls := api_calls w; log := log w ++ [Sleep ms] |}).

Section with_service.
Context `{rt : Runtime} `{svc : InferenceService}.

(** [self.client.chat.completions.create(...)], read down to
    [response.choices[0].message.content]. *)
Definition create (sys usr : string) : M world (option string) :=
  λ w, (chat_completions_create (api_calls w) sys usr,
        {| api_calls := S (api_calls w); log := log w ++ [ApiCall usr] |}).

(** The body of the [try] of one attempt, with the user prompt [usr]: it
    ends in [return]. *)
Definition attempt_body (usr : string) : M world dict :=
  content <- create system_prompt usr;;
  result <- lift (match content with
                  | Some c => json_loads c
                  | None => Raise TypeError
                  end);;
  title <- lift (dot_get result "title" VNone);;
  publication_date <- lift (dot_get result "publication_date" VNone);;
  ret {[ "title" := title; "publication_date" := publication_date ]}.

(** [for attempt in range(max_retries): try: ... except ...], over the
    attempts still to run; falling out of the loop returns the null pair. *)
Fixpoint attempts_loop (usr : string) (max_retries : Z) (attempts : list Z)
  : M world dict :=
  match attempts with
  | [] => ret null_metadata
  | attempt :: rest =>
      try_except (attempt_body usr) (λ e,
        if is_RateLimitError e then
          if attempt <? max_retries - 1 then
            let wait_time := 2 ^ attempt in
            sleep (1000 * wait_time);;
            attempts_loop usr max_retries rest
          else ret null_metadata
        else if is_APIError e then
          if attempt <? max_retries - 1 then
            sleep 2000;;
            attempts_loop usr max_retries rest
          else ret null_metadata
        else if is_JSONDecodeError e then ret null_metadata
        else ret null_metadata)
  end.

(** [extract_metadata] on a [str], the argument its annotation names. *)
Definition extract_metadata (text : string) (max_retries : Z) : M world dict :=
  attempts_loop (user_prompt text) max_retries (range max_retries).

(** What [{truncated_text}] writes for an argument of any type:
    [text[:3000] if len(text) > 3000 else text], formatted.  [len] raises
    [TypeError] on [None], a number, a boolean and a path; a list is
    sliced like a [str]; a dict cannot be sliced. *)
Definition shown_text (text : value) : res string :=
  match text with
  | VStr s => Ret (truncated_text s)
  | VList l =>
      Ret (py_str (VList (if (3000 <? length l)%nat then take 3000 l else l)))
  | VDict d =>
      if (3000 <? size d)%nat then Raise dict_slice_error
      else Ret (py_str text)
  | _ => Raise TypeError
  end.

(** [extract_metadata] on whatever it is handed: the prompt is built
    before the loop, outside every [try]. *)
Definition extract_metadata_any (text : value) (max_retries : Z)
  : M world dict :=
  shown <- lift (shown_text text);;
  attempts_loop (prompt_of shown) max_retries (range max_retries).

(** [max_retries: int = 3]: the value [extract_metadata] takes when it is
    called with the text alone, as [process_files] calls it. *)
Definition default_max_retries : Z := 3.

(** The loop of [process_files] over [enumerate(files, 1)]: [i] is the
    number of the file at the head, [n] is [len(files)].  [extract_metadata]
    is annotated [text: str]; nothing checks the annotation, and a truthy
    [extracted_text] of another type goes through the same code. *)
Fixpoint process_files_loop (n i : Z) (files processed_files : list dict)
  : M world (list dict) :=
  match files with
  | [] => ret processed_files
  | file_info :: rest =>
      _ <- lift (item file_info "file_name");;
      let text := get file_info "extracted_text" (VStr "") in
      metadata <- (if negb (truthy text) then ret null_metadata
                   else match text with
                        | VStr s => extract_metadata s default_max_retries
                        | _ => extract_metadata_any text default_max_retries
                        end);;
      let processed_files := processed_files ++ [metadata ∪ file_info] in
      (if i <? n then sleep 500 else ret tt);;
      process_files_loop n (i + 1) rest processed_files
  end.

Definition process_files (files : list dict) : M world (list dict) :=
  process_files_loop (Z.of_nat (length files)) 1 files [].

(** The log of an [extract_metadata] that is rate limited on each of its
    [max_retries] attempts. *)
Definition backoff_log (text : string) (max_retries : Z) : list event :=
  flat_map (λ attempt,
              ApiCall (user_prompt text) ::
              (if attempt <? max_retries - 1
               then [Sleep (1000 * 2 ^ attempt)] else []))
           (range max_retries).

(** A record as the Extractor hands it over: it carries a [file_name] and
    an [extracted_text] that is a [str] (empty when extraction failed). *)
Definition extracted_document (file_info : dict) : Prop :=
  is_Some (file_info !! "file_name")
  ∧ ∃ s, file_info !! "extracted_text" = Some (VStr s).

(** The content of a response is not the expected two-field structure:
    it does not parse as JSON, or it parses to something that is not an
    object. *)
Definition not_an_object (content : string) : Prop :=
  json_loads content = Raise JSONDecodeError
  ∨ ∃ v, json_loads content = Ret v ∧ ∀ d, v ≠ VDict d.

(** The service answers a document's prompt with such a response, whenever
    it is asked. *)
Definition malformed_response (text : string) : Prop :=
  ∀ n, ∃ c,
    chat_completions_create n system_prompt (user_prompt text) = Ret (Some c)
    ∧ not_an_object c.

(** The service answers a document's prompt with a JSON object whose two
    fields are [title] and [publication_date], whenever it is asked. *)
Definition well_formed_response (text : string) (title publication_date : value)
  : Prop :=
  ∀ n, ∃ c d,
    chat_completions_create n system_prompt (user_prompt text) = Ret (Some c)
    ∧ json_loads c = Ret (VDict d)
    ∧ get d "title" VNone = title
    ∧ get d "publication_date" VNone = publication_date.

(** How an output record comes from its input record: the input merged
    under the pair [md], which is the null pair when there is no text and
    the result of [extract_metadata] otherwise. *)
Definition produced_from (file_info o : dict) : Prop :=
  ∃ md, o = md ∪ file_info ∧
    ((truthy (get file_info "extracted_text" (VStr "")) = false
      ∧ md = null_metadata)
     ∨ (∃ s w0 w1,
          get file_info "extracted_text" (VStr "") = VStr s
          ∧ s ≠ ""
          ∧ extract_metadata s default_max_retries w0 = (Ret md, w1))
     ∨ (∃ w0 w1,
          (∀ s, get file_info "extracted_text" (VStr "") ≠ VStr s)
          ∧ extract_metadata_any (get file_info "extracted_text" (VStr ""))
              default_max_retries w0 = (Ret md, w1))).

(** The output record carries the null pair. *)
Definition null_pair (o : dict) : Prop :=
  o !! "title" = Some VNone ∧ o !! "publication_date" = Some VNone.

(** *** Vocabulary of the further properties *)

(** The sleep after a failed attempt that is retried: [2 ** attempt]
    seconds after a [RateLimitError], two seconds after another
    [APIError]. *)
Definition retry_delay (e : exn) (attempt : Z) : Z :=
  if is_RateLimitError e then 1000 * 2 ^ attempt else 2000.

(** The log of the attempts numbered from [attempt] on that fail with
    [errors], in turn, each followed by its sleep. *)
Fixpoint retry_log (text : string) (attempt : Z) (errors : list exn)
  : list event :=
  match errors with
  | [] => []
  | e :: errors =>
      ApiCall (user_prompt text) :: Sleep (retry_delay e attempt)
        :: retry_log text (attempt + 1) errors
  end.

(** The prompt the record is submitted with, if it is submitted: the
    record has a truthy [extracted_text] that [len] and slicing accept. *)
Definition prompt_for (file_info : dict) : option string :=
  let text := get file_info "extracted_text" (VStr "") in
  if truthy text then
    match shown_text text with
    | Ret shown => Some (prompt_of shown)
    | Raise _ => None
    end
  else None.

(** The events [l] are those of one record: at most three requests, each
    with the prompt of the record, and none when it has no text. *)
Definition own_requests (file_info : dict) (l : list event) : Prop :=
  (length (calls l) ≤ Z.to_nat default_max_retries)%nat
  ∧ Forall (λ p, prompt_for file_info = Some p) (calls l)
  ∧ (truthy (get file_info "extracted_text" (VStr "")) = false →
     calls l = []).

(** The effects of a run of the loop: requests for this document's
    prompt, and sleeps of a second or more. *)
Definition loop_effects (usr : string) (budget : nat) (w w' : world)
    (md : dict) : Prop :=
  ∃ new,
    dom md = {[ "title"; "publication_date" ]}
    ∧ log w' = log w ++ new
    ∧ api_calls w' = (api_calls w + length (calls new))%nat
    ∧ (length (calls new) ≤ budget)%nat
    ∧ Forall (λ p, p = usr) (calls new)
    ∧ Forall (λ ms, 1000 ≤ ms) (sleeps new).

(** The courtesy delays among the sleeps of a log: those of half a
    second. *)
Definition courtesy_delays (l : list event) : list Z :=
  filter (λ ms, ms = 500) (sleeps l).

End with_service.
End metadata_extractor.


(* --------------------------------------------------------------------- *)
(** ** [config.py] *)

Module config.

(** The class [Config], read from the environment when the module is
    loaded. *)
Record Config : Type := {
  SLACK_BOT_TOKEN : string;
  SLACK_CHANNEL : string;
  OPENAI_API_KEY : string;
  PDF_STORAGE_PATH : string;
  MAX_WORKERS : Z;
}.

End config.

(* --------------------------------------------------------------------- *)
(** ** [pdf_processor.py]: the Extractor *)

(** The files on disk: path to content. *)
Abbreviation disk := (gmap string string).

(** PyMuPDF and the file system under the workers.  [fitz_page_texts p] is
    the text of each page of the PDF at [p], in order, or the exception
    that opening or reading it raises; the PDFs are those present when the
    stage starts.  [can_open p] tells whether [open(p, 'w')] succeeds. *)
Class Host := {
  fitz_page_texts : string → res (list string);
  can_mkdir : string → bool;
  can_open : string → bool;
}.

Module pdf_processor.
Import config.

Section with_host.
Context `{rt : Runtime} `{host : Host}.

Definition extract_text_from_pdf (pdf_path : string) : string :=
  match fitz_page_texts pdf_path with
  | Ret text_content =>
      let full_text := String.concat nl text_content in
      full_text
  | Raise _ => ""
  end.

(** [with open(path, 'w') as f: f.write(text)] *)
Definition write_text (path text : string) : M disk unit :=
  λ d, if can_open path then (Ret tt, <[path := text]> d)
       else (Raise OSError, d).

(** The dictionary [process_single_pdf] returns for a file whose
    [local_path] is [pdf_path]. *)
Definition processed (file_info : dict) (pdf_path : string) : dict :=
  let extracted_text := extract_text_from_pdf pdf_path in
  let text_file_path := with_suffix pdf_path ".txt" in
  <["text_length" := VInt (Z.of_nat (py_len extracted_text))]>
    (<["text_file_path" := VPath text_file_path]>
       (<["extracted_text" := VStr extracted_text]> file_info)).

(** One unit of work of a pool worker.  A [local_path] that is not a
    [Path] has neither [.name] (caught inside [extract_text_from_pdf]) nor
    [.with_suffix] (not caught). *)
Definition process_single_pdf (file_info : dict) : M disk dict :=
  local_path <- lift (item file_info "local_path");;
  match local_path with
  | VPath pdf_path =>
      let extracted_text := extract_text_from_pdf pdf_path in
      let text_file_path := with_suffix pdf_path ".txt" in
      try_except (write_text text_file_path extracted_text) (λ _, ret tt);;
      ret (processed file_info pdf_path)
  | _ => raise AttributeError
  end.

(** [multiprocessing.Pool.map(f, xs)].  The pool runs one task per element
    and stores each result in the slot of its task; [schedule] is the order
    in which the tasks complete, which the pool does not control.  The call
    returns the slots, in task order, once every one is filled ([None]
    while a task is outstanding), and raises what a task raised. *)
Fixpoint run_tasks {A B S} (f : A → M S B) (xs : list A)
    (schedule : list nat) (slots : list (option B)) : M S (list (option B)) :=
  match schedule with
  | [] => ret slots
  | i :: later =>
      match xs !! i with
      | Some x =>
          y <- f x;;
          run_tasks f xs later (<[i := Some y]> slots)
      | None => run_tasks f xs later slots
      end
  end.

Definition pool_map {A B S} (f : A → M S B) (xs : list A)
    (schedule : list nat) : S → option (res (list B) * S) :=
  λ s, match run_tasks f xs schedule (replicate (length xs) None) s with
       | (Ret slots, s') =>
           results ← mapM (λ slot, slot) slots; Some (Ret results, s')
       | (Raise e, s') => Some (Raise e, s')
       end.

(** The slots after the tasks of [schedule] have completed, when task [i]
    yields [g (xs[i])]. *)
Definition fill {A B} (g : A → B) (xs : list A)
    (slots : list (option B)) (schedule : list nat) : list (option B) :=
  foldl (λ slots i, match xs !! i with
                    | Some x => <[i := Some (g x)]> slots
                    | None => slots
                    end) slots schedule.

Record PDFProcessor : Type := { max_workers : Z }.

(** [PDFProcessor.__init__(self, max_workers=None)] *)
Definition PDFProcessor_init (cfg : Config) (max_workers : option Z)
  : PDFProcessor :=
  let max_workers :=
    match max_workers with
    | None => Z.min (MAX_WORKERS cfg) cpu_count
    | Some n => n
    end in
  {| max_workers := max_workers |}.

(** [process_pdfs]; [Pool(processes=n)] raises a [ValueError] when
    [n < 1]. *)
Definition process_pdfs (self : PDFProcessor) (files : list dict)
    (schedule : list nat) : disk → option (res (list dict) * disk) :=
  λ d, match files with
       | [] => Some (Ret [], d)
       | _ =>
           if max_workers self <? 1
           then Some (Raise (ValueError "Number of processes must be at least 1"), d)
           else pool_map process_single_pdf files schedule d
       end.

(** A record as the Downloader hands it over: its [local_path] is a
    [Path]. *)
Definition downloaded_file (file_info : dict) : Prop :=
  ∃ p, file_info !! "local_path" = Some (VPath p).

(** The record a worker returns, as a function of the input record. *)
Definition worker_result (file_info : dict) : dict :=
  match file_info !! "local_path" with
  | Some (VPath p) => processed file_info p
  | _ => file_info
  end.

(** The sidecar of a PDF: the path its extracted text is saved under. *)
Definition sidecar (pdf_path : string) : string :=
  with_suffix pdf_path ".txt".

End with_host.
End pdf_processor.

(* --------------------------------------------------------------------- *)
(** ** [main.py]: how the pipeline builds its components *)

Module main.
Import config pdf_processor.

Section with_runtime.
Context `{rt : Runtime}.

(** [pdf_processor = PDFProcessor(Config.MAX_WORKERS)] *)
Definition pdf_processor (cfg : Config) : PDFProcessor :=
  PDFProcessor_init cfg (Some (MAX_WORKERS cfg)).

End with_runtime.
End main.

(* --------------------------------------------------------------------- *)
(** ** [slack_client.py]: the Source Fetcher and the Downloader *)

(** A raise-or-return step that touches no state. *)
Definition and_then {A B} (r : res A) (k : A → res B) : res B :=
  match r with
  | Ret a => k a
  | Raise e => Raise e
  end.

Notation "x <~ r ;; k" := (and_then r (λ x, k))
  (at level 100, r at next level, right associativity).

(** [v == s] for a [str] [s]: only a [str] equals a [str]. *)
Definition py_eq_str (v : value) (s : string) : bool :=
  match v with
  | VStr s' => String.eqb s' s
  | _ => false
  end.

(** The elements a [for] loop draws from a value: the items of a list, the
    characters of a string, the keys of a dict (in an order the model does
    not track); anything else is not iterable. *)
Definition py_iter (v : value) : res (list value) :=
  match v with
  | VList l => Ret l
  | VStr s => Ret ((λ c, VStr (String c "")) <$> String.list_ascii_of_string s)
  | VDict d => Ret (VStr <$> (map_to_list d).*1)
  | _ => Raise TypeError
  end.

(** How the loop [for chunk in response.iter_content(...): f.write(chunk)]
    ends: with the last chunk of the body; with the connection dropping,
    when [iter_content] raises; or with the file refusing a write, when
    [f.write], or the flush that closes the file, raises [OSError] (a
    full disk). *)
Inductive transfer_end : Type :=
| Completed
| ConnectionLost
| WriteRefused.

(** What [requests.get(url, headers=..., stream=True)] answers, and what
    becomes of its body: [status_ok] is false when [raise_for_status]
    raises; [body_chunks] are the chunks that reach the file, and
    [transfer_ends] tells how the transfer ends after the last of them. *)
Record http_response : Type := {
  status_ok : bool;
  body_chunks : list string;
  transfer_ends : transfer_end;
}.

(** The connection drops after the last of the chunks. *)
Definition stream_breaks (response : http_response) : bool :=
  match transfer_ends response with
  | ConnectionLost => true
  | _ => false
  end.

(** The file refuses a write after the last of the chunks. *)
Definition write_fails (response : http_response) : bool :=
  match transfer_ends response with
  | WriteRefused => true
  | _ => false
  end.

(** The network: the answer to the [n]-th GET issued (counting from 0),
    for a URL and a bearer token, or the exception [requests] raises. *)
Class Network := {
  requests_get : nat → value → string → res http_response;
}.

(** The Slack Web API, as [slack_sdk.WebClient] exposes it:
    [conversations_list()] and
    [conversations_history(channel, limit, cursor)]. *)
Class SlackWebApi := {
  conversations_list : res dict;
  conversations_history : value → Z → value → res dict;
}.

Module slack_client.

Record SlackClient : Type := { token : string }.

(** The Downloader's world: the files on disk and the URLs requested so
    far, oldest first. *)
Record world : Type := {
  on_disk : disk;
  requests : list value;
}.

Section with_slack.
Context `{rt : Runtime} `{host : Host} `{net : Network} `{api : SlackWebApi}.

(** The loop of [get_channel_id] over [response['channels']]. *)
Fixpoint find_channel (channels : list value) (channel_name : string)
  : res value :=
  match channels with
  | [] =>
      Raise (ValueError ("Channel '" +:+ channel_name +:+ "' not found"))
  | channel :: rest =>
      name <~ subscript channel "name";;
      if py_eq_str name channel_name then subscript channel "id"
      else find_channel rest channel_name
  end.

(** [get_channel_id]: its [except SlackApiError] logs and raises again, so
    every exception leaves the function as it is. *)
Definition get_channel_id (channel_name : string) : res value :=
  response <~ conversations_list;;
  channels <~ item response "channels";;
  channels <~ py_iter channels;;
  find_channel channels channel_name.

(** [[f for f in message['files'] if f.get('mimetype') == 'application/pdf']] *)
Fixpoint pdf_only (files : list value) : res (list value) :=
  match files with
  | [] => Ret []
  | f :: rest =>
      mimetype <~ dot_get f "mimetype" VNone;;
      pdf_files <~ pdf_only rest;;
      Ret (if py_eq_str mimetype "application/pdf"
           then f :: pdf_files else pdf_files)
  end.

(** The [for message in response['messages']] of one page.  The SDK hands
    over each message as a dict; the membership test ['files' in message]
    on another kind of value is modelled as a [TypeError]. *)
Fixpoint keep_pdf_messages (messages : list value)
    (messages_with_pdfs : list dict) : res (list dict) :=
  match messages with
  | [] => Ret messages_with_pdfs
  | VDict message :: rest =>
      match message !! "files" with
      | Some files =>
          files <~ py_iter files;;
          pdf_files <~ pdf_only files;;
          if truthy (VList pdf_files)
          then keep_pdf_messages rest
                 (messages_with_pdfs
                    ++ [<["pdf_files" := VList pdf_files]> message])
          else keep_pdf_messages rest messages_with_pdfs
      | None => keep_pdf_messages rest messages_with_pdfs
      end
  | _ :: _ => Raise TypeError
  end.

(** The [while True] of [fetch_messages]: one page per iteration.  [None]
    when [fuel] pages did not reach the last one. *)
Fixpoint fetch_pages (fuel : nat) (channel_id : value) (limit : Z)
    (cursor : value) (messages_with_pdfs : list dict)
  : option (res (list dict)) :=
  match fuel with
  | O => None
  | S fuel =>
      match
        response <~ conversations_history channel_id limit cursor;;
        messages <~ item response "messages";;
        messages <~ py_iter messages;;
        messages_with_pdfs <~ keep_pdf_messages messages messages_with_pdfs;;
        Ret (response, messages_with_pdfs)
      with
      | Raise e => Some (Raise e)
      | Ret (response, messages_with_pdfs) =>
          if negb (truthy (get response "has_more" (VBool false)))
          then Some (Ret messages_with_pdfs)
          else
            match dot_get (get response "response_metadata" (VDict ∅))
                          "next_cursor" VNone with
            | Raise e => Some (Raise e)
            | Ret cursor =>
                if negb (truthy cursor) then Some (Ret messages_with_pdfs)
                else fetch_pages fuel channel_id limit cursor
                       messages_with_pdfs
            end
      end
  end.

Definition fetch_messages (fuel : nat) (channel : string) (limit : Z)
  : option (res (list dict)) :=
  match
    (if negb (String.prefix "C" channel) then get_channel_id channel
     else Ret (VStr channel))
  with
  | Raise e => Some (Raise e)
  | Ret channel_id => fetch_pages fuel channel_id limit VNone []
  end.

(** [requests.get(url_private, headers=headers, stream=True)] *)
Definition http_get (url : value) (token : string) : M world http_response :=
  λ w, (requests_get (length (requests w)) url token,
        {| on_disk := on_disk w; requests := requests w ++ [url] |}).

(** [with open(file_path, 'wb') as f: for chunk in ...: f.write(chunk)]:
    the file exists from the moment it is opened, and keeps what was
    written when the stream breaks or a write fails. *)
Definition save (file_path : string) (response : http_response)
  : M world unit :=
  λ w, if can_open file_path then
         let w' := {| on_disk := <[file_path := String.concat "" (body_chunks response)]>
                                   (on_disk w);
                      requests := requests w |} in
         match transfer_ends response with
         | Completed => (Ret tt, w')
         | ConnectionLost => (Raise RequestException, w')
         | WriteRefused => (Raise OSError, w')
         end
       else (Raise OSError, w).

(** [f"{file_id}_{file_name}"] *)
Definition safe_filename (file_id file_name : value) : string :=
  py_str file_id +:+ "_" +:+ py_str file_name.

Definition download_pdf (self : SlackClient) (file_info : value)
    (download_path : string) : M world string :=
  file_id <- lift (subscript file_info "id");;
  file_name <- lift (dot_get file_info "name"
                       (VStr (py_str file_id +:+ ".pdf")));;
  url_private <- lift (subscript file_info "url_private");;
  let file_path := path_join download_path (safe_filename file_id file_name) in
  file_exists <- gets (λ w, bool_decide (is_Some (on_disk w !! file_path)));;
  if file_exists : bool then ret file_path
  else
    try_except
      (response <- http_get url_private (token self);;
       (if status_ok response then ret tt else raise HTTPError);;
       (if can_mkdir download_path then ret tt else raise OSError);;
       save file_path response;;
       ret file_path)
      (λ e, raise e).

(** The dictionary appended for a downloaded attachment. *)
Definition downloaded_record (message_ts message_text file_info : value)
    (local_path : string) : res dict :=
  file_id <~ subscript file_info "id";;
  file_name <~ dot_get file_info "name" (VStr "unknown.pdf");;
  slack_url <~ dot_get file_info "permalink" (VStr "");;
  file_size <~ dot_get file_info "size" (VInt 0);;
  Ret ({[ "file_id" := file_id;
          "file_name" := file_name;
          "local_path" := VPath local_path;
          "slack_url" := slack_url;
          "message_ts" := message_ts;
          "message_text" := message_text;
          "file_size" := file_size ]} : dict).

(** The inner loop of [download_all_pdfs], over the attachments of one
    message. *)
Fixpoint download_files (self : SlackClient) (message_ts message_text : value)
    (pdf_files : list value) (download_path : string)
    (downloaded_files : list dict) : M world (list dict) :=
  match pdf_files with
  | [] => ret downloaded_files
  | file_info :: rest =>
      downloaded_files <-
        try_except
          (local_path <- download_pdf self file_info download_path;;
           record <- lift (downloaded_record message_ts message_text
                             file_info local_path);;
           ret (downloaded_files ++ [record]))
          (λ _, ret downloaded_files);;
      download_files self message_ts message_text rest download_path
        downloaded_files
  end.

(** The outer loop, over the messages. *)
Fixpoint download_messages (self : SlackClient) (messages : list dict)
    (download_path : string) (downloaded_files : list dict)
  : M world (list dict) :=
  match messages with
  | [] => ret downloaded_files
  | message :: rest =>
      let message_ts := get message "ts" (VStr "") in
      let message_text := get message "text" (VStr "") in
      pdf_files <- lift (py_iter (get message "pdf_files" (VList [])));;
      downloaded_files <-
        download_files self message_ts message_text pdf_files download_path
          downloaded_files;;
      download_messages self rest download_path downloaded_files
  end.

Definition download_all_pdfs (self : SlackClient) (messages : list dict)
    (download_path : string) : M world (list dict) :=
  download_messages self messages download_path [].

(** *** Vocabulary of the properties *)


(** The channel is called [channel_name]. *)
Definition has_name (channel_name : string) (channel : value) : bool :=
  match channel with
  | VDict d =>
      match d !! "name" with
      | Some name => py_eq_str name channel_name
      | None => false
      end
  | _ => false
  end.

(** The exception that stands for [ChannelNotFound]. *)
Definition channel_not_found (channel_name : string) : exn :=
  ValueError ("Channel '" +:+ channel_name +:+ "' not found").

(** A message as [fetch_messages] returns it: [pdf_files], when present,
    is a list. *)
Definition fetched_message (message : dict) : Prop :=
  message !! "pdf_files" = None
  ∨ ∃ l, message !! "pdf_files" = Some (VList l).

Definition pdf_files_of (message : dict) : list value :=
  match message !! "pdf_files" with
  | Some (VList l) => l
  | _ => []
  end.

(** The attachments of the messages, flattened in order, each with the
    timestamp and the text of its message. *)
Definition attachments (messages : list dict)
  : list (value * value * value) :=
  message ← messages;
  (λ file_info, (get message "ts" (VStr ""), get message "text" (VStr ""),
                 file_info)) <$> pdf_files_of message.

(** [attempted self download_path atts results w w']: starting in [w],
    [download_pdf] is called once for each attachment of [atts], in order,
    each call in the world the one before left; the result for an
    attachment is its record when its call returned and [None] when it
    raised; [w'] is the world after the last call. *)
Inductive attempted (self : SlackClient) (download_path : string)
  : list (value * value * value) → list (option dict) → world → world → Prop :=
| attempted_nil w :
    attempted self download_path [] [] w w
| attempted_downloaded ts text file_info atts local_path record results w w1 w2 :
    download_pdf self file_info download_path w = (Ret local_path, w1) →
    downloaded_record ts text file_info local_path = Ret record →
    attempted self download_path atts results w1 w2 →
    attempted self download_path ((ts, text, file_info) :: atts)
      (Some record :: results) w w2
| attempted_failed ts text file_info atts e results w w1 w2 :
    download_pdf self file_info download_path w = (Raise e, w1) →
    attempted self download_path atts results w1 w2 →
    attempted self download_path ((ts, text, file_info) :: atts)
      (None :: results) w w2.

(** *** Vocabulary of the further properties *)

(** The attachment is a dict whose [mimetype] is [application/pdf]. *)
Definition is_pdf (file_info : value) : bool :=
  match file_info with
  | VDict d => py_eq_str (get d "mimetype" VNone) "application/pdf"
  | _ => false
  end.

(** A message as the Fetcher keeps it: it has [files], and its
    [pdf_files] is the list of the PDFs among them, which is not empty. *)
Definition pdf_message (message : dict) : Prop :=
  ∃ files l,
    message !! "files" = Some files
    ∧ py_iter files = Ret l
    ∧ message !! "pdf_files" = Some (VList (filter (λ f, is_pdf f = true) l))
    ∧ filter (λ f, is_pdf f = true) l ≠ [].

(** The cursor of the page that follows a response, if it announces one:
    [has_more] is true and the [next_cursor] of [response_metadata] is not
    empty. *)
Definition next_page (response : dict) : res (option value) :=
  if negb (truthy (get response "has_more" (VBool false))) then Ret None
  else
    cursor <~ dot_get (get response "response_metadata" (VDict ∅))
                "next_cursor" VNone;;
    Ret (if negb (truthy cursor) then None else Some cursor).

(** [paged channel_id limit cursor pages ending]: asked from [cursor] on,
    the API serves the pages [pages] (the messages of each), each but the
    last announcing the next; then the history ends ([ending] is [None])
    or the request for one more page raises ([ending] is the
    exception). *)
Inductive paged (channel_id : value) (limit : Z)
  : value → list (list value) → option exn → Prop :=
| paged_fails cursor e :
    conversations_history channel_id limit cursor = Raise e →
    paged channel_id limit cursor [] (Some e)
| paged_last cursor response messages l :
    conversations_history channel_id limit cursor = Ret response →
    response !! "messages" = Some messages →
    py_iter messages = Ret l →
    next_page response = Ret None →
    paged channel_id limit cursor [l] None
| paged_more cursor response messages l next pages ending :
    conversations_history channel_id limit cursor = Ret response →
    response !! "messages" = Some messages →
    py_iter messages = Ret l →
    next_page response = Ret (Some next) →
    paged channel_id limit next pages ending →
    paged channel_id limit cursor (l :: pages) ending.

(** The channel id [fetch_messages] works with: the argument itself when
    it starts with [C], the id the channel list gives for it otherwise. *)
Definition channel_id_of (channel : string) : res value :=
  if negb (String.prefix "C" channel) then get_channel_id channel
  else Ret (VStr channel).

(** The PDF messages of each page, page by page. *)
Definition kept_of (pages : list (list value)) (kept : list (list dict))
  : Prop :=
  Forall2 (λ page k, keep_pdf_messages page [] = Ret k) pages kept.

(** The path a descriptor is saved under: [download_path / f"{id}_{name}"],
    the name defaulting to [f"{id}.pdf"]. *)
Definition destination (download_path : string) (info : dict) : string :=
  let file_id := get info "id" VNone in
  let file_name := get info "name" (VStr (py_str file_id +:+ ".pdf")) in
  path_join download_path (safe_filename file_id file_name).

(** A descriptor [download_pdf] can work with: a dict with an [id] and a
    [url_private]. *)
Definition descriptor (file_info : value) : Prop :=
  ∃ d file_id url,
    file_info = VDict d
    ∧ d !! "id" = Some file_id
    ∧ d !! "url_private" = Some url.

(** The [local_path] of the record is a file of the disk. *)
Definition local_path_on (d : gmap string string) (record : dict) : Prop :=
  ∃ p, record !! "local_path" = Some (VPath p) ∧ is_Some (d !! p).

(** The requests [reqs] are those of one attachment: none, or one for its
    [url_private]. *)
Definition own_request (attachment : value * value * value)
    (reqs : list value) : Prop :=
  reqs = []
  ∨ ∃ d url,
      attachment.2 = VDict d
      ∧ d !! "url_private" = Some url
      ∧ reqs = [url].

(** The index in the output of the record of the attempt numbered [i]:
    the number of attempts before it that left a record. *)
Definition position {A} (results : list (option A)) (i : nat) : nat :=
  length (omap id (take i results)).

End with_slack.
End slack_client.

(* --------------------------------------------------------------------- *)
(** ** [db_manager.py]: the Persister *)

(** The PostgreSQL server, as far as the column types go: whether it
    accepts the parameters of an [INSERT] for the columns of [documents]
    (lengths, [DATE] syntax, integer ranges, [NOT NULL]). *)
Class Postgres := {
  accepts : dict → bool;
}.

Module db_manager.

(** A row of the table [documents] of [init_schema].  [file_id] is the
    [VARCHAR] key under the [UNIQUE] constraint; [processed_at] and
    [updated_at] are the two timestamps, both [CURRENT_TIMESTAMP] by
    default. *)
Record row : Type := {
  row_id : Z;
  file_id : string;
  file_name : value;
  title : value;
  publication_date : value;
  extracted_text_path : value;
  text_length : value;
  slack_url : value;
  message_ts : value;
  message_text : value;
  file_size : value;
  processed_at : Z;
  updated_at : Z;
}.

(** The store: whether a connection can be opened, the table [documents]
    once the schema exists, the next value of the [SERIAL] sequence of
    [id], and the time [CURRENT_TIMESTAMP] reads. *)
Record store : Type := {
  up : bool;
  documents : option (list row);
  serial : Z;
  clock : Z;
}.

(** The store as a later transaction finds it, at time [t]. *)
Definition at_time (t : Z) (st : store) : store :=
  {| up := up st; documents := documents st; serial := serial st; clock := t |}.

Definition has_file_id (fid : string) (r : row) : bool :=
  String.eqb (file_id r) fid.

(** The [UNIQUE] constraint on [file_id]. *)
Definition unique_file_id (rows : list row) : Prop :=
  NoDup (file_id <$> rows).

Section with_postgres.
Context `{rt : Runtime} `{pg : Postgres}.

(** [psycopg2.connect] with the connection parameters *)
Definition get_connection : M store unit :=
  λ st, if up st then (Ret tt, st) else (Raise DatabaseError, st).

(** [CREATE TABLE IF NOT EXISTS documents (...)]; every exception is
    logged and raised again. *)
Definition init_schema : M store unit :=
  get_connection;;
  modify (λ st, match documents st with
                | Some _ => st
                | None => {| up := up st; documents := Some [];
                             serial := 1; clock := clock st |}
                end).

(** [SELECT 1 FROM documents WHERE file_id = %s], then [cur.fetchone()]
    compared with [None]. *)
Definition select_exists (fid : value) : M store bool :=
  λ st, match documents st with
        | None => (Raise DatabaseError, st)
        | Some rows =>
            (Ret (existsb (λ r, py_eq_str fid (file_id r)) rows), st)
        end.

Definition document_exists (fid : value) : M store bool :=
  try_except
    (get_connection;;
     select_exists fid)
    (λ _, ret false).

(** The dictionary [doc_data] that [insert_document] passes to the
    statement. *)
Definition doc_data (document : dict) : res dict :=
  fid <~ item document "file_id";;
  name <~ item document "file_name";;
  Ret ({[ "file_id" := fid;
          "file_name" := name;
          "title" := get document "title" VNone;
          "publication_date" := get document "publication_date" VNone;
          "extracted_text_path" :=
            VStr (py_str (get document "text_file_path" (VStr "")));
          "text_length" := get document "text_length" (VInt 0);
          "slack_url" := get document "slack_url" (VStr "");
          "message_ts" := get document "message_ts" (VStr "");
          "message_text" := get document "message_text" (VStr "");
          "file_size" := get document "file_size" (VInt 0) ]} : dict).

(** The row [INSERT INTO documents (...) VALUES (...)] proposes: the ten
    columns from the parameters, [id] from the sequence, both timestamps
    from the clock. *)
Definition proposed_row (fid : string) (data : dict) (st : store) : row :=
  {| row_id := serial st;
     file_id := fid;
     file_name := get data "file_name" VNone;
     title := get data "title" VNone;
     publication_date := get data "publication_date" VNone;
     extracted_text_path := get data "extracted_text_path" VNone;
     text_length := get data "text_length" VNone;
     slack_url := get data "slack_url" VNone;
     message_ts := get data "message_ts" VNone;
     message_text := get data "message_text" VNone;
     file_size := get data "file_size" VNone;
     processed_at := clock st;
     updated_at := clock st |}.

(** [ON CONFLICT (file_id) DO UPDATE SET title = EXCLUDED.title, ...,
    updated_at = CURRENT_TIMESTAMP] on the existing row [r]. *)
Definition do_update (excluded r : row) (now : Z) : row :=
  {| row_id := row_id r;
     file_id := file_id r;
     file_name := file_name r;
     title := title excluded;
     publication_date := publication_date excluded;
     extracted_text_path := extracted_text_path excluded;
     text_length := text_length excluded;
     slack_url := slack_url r;
     message_ts := message_ts r;
     message_text := message_text r;
     file_size := file_size r;
     processed_at := processed_at r;
     updated_at := now |}.

(** [cur.execute(insert_sql, doc_data)] followed by [cur.fetchone()] and
    [conn.commit()]: the [id] the statement returns.  The sequence
    advances whether the row is inserted or updated.  A key that is not a
    [str] is not what the pipeline submits and is modelled as refused. *)
Definition execute_insert (data : dict) : M store Z :=
  λ st,
    match documents st, data !! "file_id" with
    | Some rows, Some (VStr fid) =>
        if accepts data then
          let excluded := proposed_row fid data st in
          match List.find (has_file_id fid) rows with
          | Some existing =>
              (Ret (row_id existing),
               {| up := up st;
                  documents :=
                    Some ((λ r, if has_file_id fid r
                                then do_update excluded r (clock st)
                                else r) <$> rows);
                  serial := serial st + 1;
                  clock := clock st |})
          | None =>
              (Ret (row_id excluded),
               {| up := up st;
                  documents := Some (rows ++ [excluded]);
                  serial := serial st + 1;
                  clock := clock st |})
          end
        else (Raise DatabaseError, st)
    | _, _ => (Raise DatabaseError, st)
    end.

(** [insert_document]: the document's [id], or [None] after any
    exception. *)
Definition insert_document (document : dict) : M store (option Z) :=
  try_except
    (get_connection;;
     data <- lift (doc_data document);;
     doc_id <- execute_insert data;;
     ret (Some doc_id))
    (λ _, ret None).

(** The loop of [bulk_insert_documents]; [if doc_id:] is false for [None]
    and for [0]. *)
Fixpoint bulk_insert_loop (documents : list dict) (success_count : Z)
  : M store Z :=
  match documents with
  | [] => ret success_count
  | document :: rest =>
      doc_id <- insert_document document;;
      let success_count :=
        match doc_id with
        | Some n => if n =? 0 then success_count else success_count + 1
        | None => success_count
        end in
      bulk_insert_loop rest success_count
  end.

Definition bulk_insert_documents (documents : list dict) : M store Z :=
  bulk_insert_loop documents 0.

(** *** Vocabulary of the further properties *)

(** A document the statement of [insert_document] goes through with: it
    has a [file_id], which is a [str], and a [file_name], and the server
    accepts its parameters. *)
Definition storable (document : dict) : Prop :=
  ∃ data fid,
    doc_data document = Ret data
    ∧ document !! "file_id" = Some (VStr fid)
    ∧ accepts data = true.

(** The table exists and honours its two keys: [file_id] is [UNIQUE], and
    [id] is a primary key drawn from the sequence, which starts at 1. *)
Definition well_keyed (st : store) : Prop :=
  ∃ rows,
    documents st = Some rows
    ∧ unique_file_id rows
    ∧ NoDup (row_id <$> rows)
    ∧ Forall (λ r, 0 < row_id r < serial st) rows
    ∧ 0 < serial st.

(** The columns of a row that [ON CONFLICT DO UPDATE] never sets. *)
Definition first_written (r : row)
  : Z * string * value * value * value * value * value * Z :=
  (row_id r, file_id r, file_name r, slack_url r, message_ts r,
   message_text r, file_size r, processed_at r).

(** The keys under which the table holds a row. *)
Definition stored_keys (st : store) : list string :=
  match documents st with
  | Some rows => file_id <$> rows
  | None => []
  end.

End with_postgres.
End db_manager.

(* --------------------------------------------------------------------- *)
(** ** [main.py]: waiting for the database *)

Module startup.
Import db_manager.

(** The world of [wait_for_database]: the connection attempts made so far
    and the pauses taken between them, oldest first. *)
Record waiting : Type := {
  attempts_made : nat;
  pauses : list Z;
}.

Definition default_max_attempts : Z := 30.
Definition default_delay : Z := 2.

Section with_database.
(** The server comes up in its own time: [database n] is the store as the
    connection attempt numbered [n] (from 0) finds it. *)
Context (database : nat → store).

(** [with db_manager.get_connection() as conn: with conn.cursor() as cur:
    cur.execute("SELECT 1")] *)
Definition select_1 : M waiting unit :=
  λ w, ((get_connection (database (attempts_made w))).1,
        {| attempts_made := S (attempts_made w); pauses := pauses w |}).

(** [time.sleep(delay)], which refuses a negative delay. *)
Definition sleep (delay : Z) : M waiting unit :=
  λ w, if delay <? 0
       then (Raise (ValueError "sleep length must be non-negative"), w)
       else (Ret tt, {| attempts_made := attempts_made w;
                        pauses := pauses w ++ [delay] |}).

(** The [for attempt in range(max_attempts)] of [wait_for_database]. *)
Fixpoint wait_loop (max_attempts delay : Z) (attempts : list Z)
  : M waiting bool :=
  match attempts with
  | [] => ret false
  | attempt :: later =>
      λ w, match select_1 w with
           | (Ret _, w) => (Ret true, w)
           | (Raise _, w) =>
               if attempt <? max_attempts - 1
               then (sleep delay;;
                     wait_loop max_attempts delay later) w
               else (Ret false, w)
           end
  end.

Definition wait_for_database (max_attempts delay : Z) : M waiting bool :=
  wait_loop max_attempts delay (range max_attempts).

(** The connection attempts numbered [first] to [first + n - 1] all
    fail. *)
Definition unreachable_during (first n : nat) : Prop :=
  ∀ j, (j < n)%nat → up (database (first + j)) = false.

End with_database.
End startup.

(* --------------------------------------------------------------------- *)
(** ** A concrete run

    One implementation of each collaborator and a handful of records, on
    which the properties of Part II are instantiated. *)

Module scenario.
Import config metadata_extractor pdf_processor slack_client db_manager.

(** [s] without its last dot and what follows it, and whether it had a
    dot. *)
Fixpoint drop_suffix (s : string) : string * bool :=
  match s with
  | EmptyString => (EmptyString, false)
  | String c rest =>
      let (stem, dotted) := drop_suffix rest in
      if dotted then (String c stem, true)
      else if Ascii.eqb c (Ascii.ascii_of_nat 46) then (EmptyString, true)
      else (s, false)
  end.

Definition runtime : Runtime := {|
  py_str := λ v, match v with
                 | VStr s | VPath s => s
                 | VNone => "None"
                 | _ => ""
                 end;
  py_str_str := λ s, eq_refl;
  path_join := λ directory name, directory +:+ "/" +:+ name;
  with_suffix := λ path ext, (drop_suffix path).1 +:+ ext;
  json_loads := λ content,
    if String.eqb content "<html>Bad Gateway</html>" then Raise JSONDecodeError
    else Ret (VDict {[ "title" := VStr content;
                       "publication_date" := VStr "2024-01-01" ]});
  cpu_count := 4;
  dict_slice_error := TypeError;
|}.

(** A service that is rate limited whatever it is asked. *)
Definition always_rate_limited : InferenceService := {|
  chat_completions_create := λ _ _ _, Raise RateLimitError;
|}.

(** A service that answers the prompt of one document with a page that is
    not JSON, and every other prompt with a title. *)
Definition one_malformed : InferenceService := {|
  chat_completions_create := λ _ _ usr,
    if String.eqb usr (user_prompt "scanned pages, no text layer")
    then Ret (Some "<html>Bad Gateway</html>")
    else Ret (Some "Annual Review");
|}.

Definition all_writable : Host := {|
  fitz_page_texts := λ path,
    if String.eqb path "pdfs/F1_report.pdf"
    then Ret ["Report 2024"; "Title: Annual Review"]
    else Raise OSError;
  can_mkdir := λ _, true;
  can_open := λ _, true;
|}.

(** A network on which one file cannot be fetched. *)
Definition one_unreachable : Network := {|
  requests_get := λ _ url _,
    if py_eq_str url "https://files.example/F2"
    then Raise RequestException
    else Ret {| status_ok := true;
                body_chunks := ["%PDF-1.7 "; "..."];
                transfer_ends := Completed |};
|}.

Definition two_channels : SlackWebApi := {|
  conversations_list :=
    Ret {[ "channels" :=
             VList [ VDict {[ "id" := VStr "C01"; "name" := VStr "general" ]};
                     VDict {[ "id" := VStr "C02"; "name" := VStr "research" ]} ] ]};
  conversations_history := λ _ _ _,
    Ret {[ "messages" := VList []; "has_more" := VBool false ]};
|}.

(** The same two channels, on an endpoint that knows their ids only. *)
Definition listed_only : SlackWebApi := {|
  conversations_list :=
    Ret {[ "channels" :=
             VList [ VDict {[ "id" := VStr "C01"; "name" := VStr "general" ]};
                     VDict {[ "id" := VStr "C02"; "name" := VStr "research" ]} ] ]};
  conversations_history := λ channel_id _ _,
    if py_eq_str channel_id "C01" || py_eq_str channel_id "C02"
    then Ret {[ "messages" := VList []; "has_more" := VBool false ]}
    else Raise SlackApiError;
|}.

Definition permissive : Postgres := {| accepts := λ _, true |}.

Definition enricher_start : metadata_extractor.world :=
  {| api_calls := 0; log := [] |}.

Definition extracted (name text : string) : dict :=
  {[ "file_id" := VStr name; "file_name" := VStr (name +:+ ".pdf");
     "extracted_text" := VStr text ]}.

Definition five_documents : list dict :=
  [ extracted "F1" "Report 2024, Title: Annual Review";
    extracted "F2" "Minutes of the board";
    extracted "F3" "scanned pages, no text layer";
    extracted "F4" "Budget 2025";
    extracted "F5" "Press release" ].

Definition downloaded (name : string) : dict :=
  {[ "file_id" := VStr name;
     "file_name" := VStr (name +:+ ".pdf");
     "local_path" := VPath ("pdfs/" +:+ name +:+ "_report.pdf") ]}.

Definition three_files : list dict :=
  [ downloaded "F1"; downloaded "F2"; downloaded "F3" ].

Definition attachment (file_id : string) : value :=
  VDict {[ "id" := VStr file_id;
           "name" := VStr "report.pdf";
           "mimetype" := VStr "application/pdf";
           "url_private" := VStr ("https://files.example/" +:+ file_id) ]}.

Definition two_messages : list dict :=
  [ {[ "ts" := VStr "1700000000.000100"; "text" := VStr "two reports";
       "pdf_files" := VList [attachment "F1"; attachment "F2"] ]};
    {[ "ts" := VStr "1700000000.000200"; "text" := VStr "one more";
       "pdf_files" := VList [attachment "F3"] ]} ].

Definition slack : SlackClient := {| token := "xoxb-token" |}.

Definition empty_disk : slack_client.world :=
  {| on_disk := ∅; requests := [] |}.

(** The Downloader's world after [F1] has been fetched. *)
Definition one_file : slack_client.world :=
  {| on_disk := {[ "pdfs/F1_report.pdf" := "%PDF-1.7 ..." ]};
     requests := [VStr "https://files.example/F1"] |}.

Definition enriched_document : dict :=
  {[ "file_id" := VStr "F1";
     "file_name" := VStr "report.pdf";
     "title" := VStr "Annual Review";
     "publication_date" := VStr "2024-01-01";
     "text_file_path" := VPath "pdfs/F1_report.txt";
     "text_length" := VInt 32 ]}.

Definition empty_store : store :=
  {| up := true; documents := Some []; serial := 1; clock := 100 |}.

Definition eight_workers : Config :=
  {| SLACK_BOT_TOKEN := "xoxb-token"; SLACK_CHANNEL := "research";
     OPENAI_API_KEY := "sk-key"; PDF_STORAGE_PATH := "pdfs";
     MAX_WORKERS := 8 |}.

(** *** Further fixtures *)

(** A service that is rate limited, then unreachable, then answers. *)
Definition flaky : InferenceService := {|
  chat_completions_create := λ n _ _,
    match n with
    | 0%nat => Raise RateLimitError
    | 1%nat => Raise APIConnectionError
    | _ => Ret (Some "Annual Review")
    end;
|}.

(** A service that cannot be reached. *)
Definition always_disconnected : InferenceService := {|
  chat_completions_create := λ _ _ _, Raise APIConnectionError;
|}.

(** Three records of the Extractor, the second without text. *)
Definition three_documents : list dict :=
  [ extracted "F1" "Report 2024"; extracted "F2" ""; extracted "F3" "Budget 2025" ].

(** A record that lost its [file_name]. *)
Definition nameless : dict :=
  {[ "file_id" := VStr "F9"; "extracted_text" := VStr "Minutes" ]}.

(** A record without [local_path]. *)
Definition pathless : dict :=
  {[ "file_id" := VStr "F9"; "file_name" := VStr "F9.pdf" ]}.

(** The descriptor of a PDF attachment, as a dict. *)
Definition report (file_id : string) : dict :=
  {[ "id" := VStr file_id;
     "name" := VStr "report.pdf";
     "mimetype" := VStr "application/pdf";
     "url_private" := VStr ("https://files.example/" +:+ file_id) ]}.

Definition picture : value :=
  VDict {[ "id" := VStr "P1"; "name" := VStr "chart.png";
           "mimetype" := VStr "image/png";
           "url_private" := VStr "https://files.example/P1" ]}.

(** Messages of a channel: one with a PDF and a picture, one without
    files, one with a picture only, one with a PDF. *)
Definition with_report : dict :=
  {[ "ts" := VStr "1700000000.000100"; "text" := VStr "the report";
     "files" := VList [VDict (report "F1"); picture] ]}.

Definition chatter : dict :=
  {[ "ts" := VStr "1700000000.000200"; "text" := VStr "thanks" ]}.

Definition with_picture : dict :=
  {[ "ts" := VStr "1700000000.000300"; "text" := VStr "the chart";
     "files" := VList [picture] ]}.

Definition with_minutes : dict :=
  {[ "ts" := VStr "1700000000.000400"; "text" := VStr "the minutes";
     "files" := VList [VDict (report "F3")] ]}.

Definition first_page : list value :=
  [VDict with_report; VDict chatter].

Definition second_page : list value :=
  [VDict with_picture; VDict with_minutes].

(** What the Fetcher keeps of the two pages. *)
Definition first_kept : list dict :=
  [ <["pdf_files" := VList [VDict (report "F1")]]> with_report ].

Definition second_kept : list dict :=
  [ <["pdf_files" := VList [VDict (report "F3")]]> with_minutes ].

Definition first_response : dict :=
  {[ "messages" := VList first_page; "has_more" := VBool true;
     "response_metadata" := VDict {[ "next_cursor" := VStr "page-2" ]} ]}.

Definition second_response : dict :=
  {[ "messages" := VList second_page; "has_more" := VBool false;
     "response_metadata" := VDict {[ "next_cursor" := VStr "" ]} ]}.

(** A channel whose history takes two pages. *)
Definition two_pages : SlackWebApi := {|
  conversations_list :=
    Ret {[ "channels" :=
             VList [ VDict {[ "id" := VStr "C02"; "name" := VStr "research" ]} ] ]};
  conversations_history := λ _ _ cursor,
    match cursor with
    | VNone => Ret first_response
    | _ => Ret second_response
    end;
|}.

(** The same channel when the request for the second page fails. *)
Definition second_page_fails : SlackWebApi := {|
  conversations_list :=
    Ret {[ "channels" :=
             VList [ VDict {[ "id" := VStr "C02"; "name" := VStr "research" ]} ] ]};
  conversations_history := λ _ _ cursor,
    match cursor with
    | VNone => Ret first_response
    | _ => Raise SlackApiError
    end;
|}.

(** A network that answers every request in full. *)
Definition reliable : Network := {|
  requests_get := λ _ _ _,
    Ret {| status_ok := true;
           body_chunks := ["%PDF-1.7 "; "..."];
           transfer_ends := Completed |};
|}.

(** A network whose connections drop after the first chunk. *)
Definition dropping : Network := {|
  requests_get := λ _ _ _,
    Ret {| status_ok := true;
           body_chunks := ["%PDF-1.7 "];
           transfer_ends := ConnectionLost |};
|}.

(** A table that holds [F1], stored at time 50 under id 1. *)
Definition stored_report : row :=
  {| row_id := 1; file_id := "F1"; file_name := VStr "report.pdf";
     title := VNone; publication_date := VNone;
     extracted_text_path := VStr ""; text_length := VInt 0;
     slack_url := VStr ""; message_ts := VStr "1700000000.000100";
     message_text := VStr "the report"; file_size := VInt 2048;
     processed_at := 50; updated_at := 50 |}.

Definition one_row : store :=
  {| up := true; documents := Some [stored_report]; serial := 2;
     clock := 100 |}.

Definition enriched_minutes : dict :=
  {[ "file_id" := VStr "F3";
     "file_name" := VStr "minutes.pdf";
     "title" := VStr "Minutes";
     "publication_date" := VNone ]}.

(** A server that comes up for the fourth connection attempt. *)
Definition up_at_fourth (n : nat) : store :=
  {| up := (3 <=? n)%nat; documents := None; serial := 1; clock := 0 |}.

(** A server that never comes up. *)
Definition never_up (n : nat) : store :=
  {| up := false; documents := None; serial := 1; clock := 0 |}.

Definition not_waited : startup.waiting :=
  {| startup.attempts_made := 0; startup.pauses := [] |}.

(** Two messages that share one file. *)
Definition shared_twice : list dict :=
  [ {[ "ts" := VStr "1700000000.000100"; "text" := VStr "the report";
       "pdf_files" := VList [attachment "F1"] ]};
    {[ "ts" := VStr "1700000000.000500"; "text" := VStr "the report again";
       "pdf_files" := VList [attachment "F1"] ]} ].

(** The record of the report [file_id] attached to the message of [ts]. *)
Definition report_record (file_id ts text : string) : dict :=
  {[ "file_id" := VStr file_id;
     "file_name" := VStr "report.pdf";
     "local_path" := VPath ("pdfs/" +:+ file_id +:+ "_report.pdf");
     "slack_url" := VStr "";
     "message_ts" := VStr ts;
     "message_text" := VStr text;
     "file_size" := VInt 0 ]}.

(** A network on which the disk fills up while the body is written. *)
Definition disk_full : Network := {|
  requests_get := λ _ _ _,
    Ret {| status_ok := true;
           body_chunks := ["%PDF-1.7 "];
           transfer_ends := WriteRefused |};
|}.

(** A record whose text is a list of pages, and one whose text is a
    number. *)
Definition paged_text : dict :=
  {[ "file_id" := VStr "F7"; "file_name" := VStr "F7.pdf";
     "extracted_text" := VList [VStr "page one"; VStr "page two"] ]}.

Definition numeric_text : dict :=
  {[ "file_id" := VStr "F8"; "file_name" := VStr "F8.pdf";
     "extracted_text" := VInt 2024 ]}.

(** The two bytes of an accented letter, and a text of three characters
    in four bytes. *)
Definition e_acute : string :=
  String (Ascii.ascii_of_nat 195) (String (Ascii.ascii_of_nat 169) "").

Definition cafe : string := "caf" +:+ e_acute.

End scenario.
(* ===================================================================== *)
(** * Part II.  The properties                                            *)
(* ===================================================================== *)

(** ** Generic facts *)

Lemma range_nonneg (n : nat) : range (Z.of_nat n) = Z.of_nat <$> seq 0 n.
Proof. unfold range. by rewrite Nat2Z.id. Qed.

Lemma range_pos (n : Z) :
  0 < n → range n = 0 :: (Z.of_nat <$> seq 1 (Z.to_nat n - 1)).
Proof.
  intros Hn. unfold range.
  destruct (Z.to_nat n) as [|k] eqn:E; [lia|].
  by rewrite /= Nat.sub_0_r.
Qed.

(** ** The Enricher *)

Section enricher.
Import metadata_extractor.
Context `{rt : Runtime} `{svc : InferenceService}.

Lemma world_eta (w : world) :
  {| api_calls := api_calls w; log := log w |} = w.
Proof. by destruct w. Qed.

(** One rate-limited attempt: the call is made and its exception raised. *)
Lemma attempt_body_raises text e w :
  chat_completions_create (api_calls w) system_prompt (user_prompt text)
    = Raise e →
  attempt_body (user_prompt text) w
    = (Raise e, {| api_calls := S (api_calls w);
                   log := log w ++ [ApiCall (user_prompt text)] |}).
Proof. intros Hc. rewrite /attempt_body /bind /create Hc //. Qed.

Lemma attempts_loop_rate_limited text (N k m : nat) w :
  (∀ n, chat_completions_create n system_prompt (user_prompt text)
        = Raise RateLimitError) →
  (k + m = N)%nat →
  attempts_loop (user_prompt text) (Z.of_nat N) (Z.of_nat <$> seq k m) w
  = (Ret null_metadata,
     {| api_calls := api_calls w + m;
        log := log w ++
          flat_map (λ attempt,
                      ApiCall (user_prompt text) ::
                      (if attempt <? Z.of_nat N - 1
                       then [Sleep (1000 * 2 ^ attempt)] else []))
                   (Z.of_nat <$> seq k m) |}).
Proof.
  intros Hrl. revert k w.
  induction m as [|m IH]; intros k w Hkm.
  - rewrite /= /ret Nat.add_0_r app_nil_r world_eta //.
  - rewrite [seq k (S m)]/= fmap_cons.
    rewrite [attempts_loop _ _ (_ :: _)]/= /try_except.
    rewrite (attempt_body_raises _ RateLimitError) //=.
    destruct (Z.of_nat k <? Z.of_nat N - 1) eqn:Hlt.
    + rewrite /bind /sleep /modify /=.
      rewrite IH; [|lia]. simpl. do 2 f_equal; [lia|].
      rewrite -!app_assoc //.
    + apply Z.ltb_ge in Hlt.
      assert (m = 0%nat) as -> by lia.
      rewrite /ret /=. do 2 f_equal. lia.
Qed.

Lemma sleeps_call p l : sleeps (ApiCall p :: l) = sleeps l.
Proof. done. Qed.

Lemma sleeps_sleep ms l : sleeps (Sleep ms :: l) = ms :: sleeps l.
Proof. done. Qed.

Lemma calls_call p l : calls (ApiCall p :: l) = p :: calls l.
Proof. done. Qed.

Lemma calls_sleep ms l : calls (Sleep ms :: l) = calls l.
Proof. done. Qed.

Lemma sleeps_backoff_log text (N k m : nat) :
  (k + m = N)%nat →
  sleeps (flat_map (λ attempt,
                      ApiCall (user_prompt text) ::
                      (if attempt <? Z.of_nat N - 1
                       then [Sleep (1000 * 2 ^ attempt)] else []))
                   (Z.of_nat <$> seq k m))
  = (λ attempt, 1000 * 2 ^ attempt) <$> (Z.of_nat <$> seq k (m - 1)).
Proof.
  revert k. induction m as [|m IH]; intros k Hkm; [done|].
  rewrite [seq k (S m)]/= fmap_cons [flat_map _ _]/= sleeps_call.
  destruct (Z.of_nat k <? Z.of_nat N - 1) eqn:Hlt.
  - rewrite [_ ++ _]/= sleeps_sleep IH; [|lia].
    destruct m as [|m]; [lia|]. by rewrite /= Nat.sub_0_r.
  - apply Z.ltb_ge in Hlt. assert (m = 0%nat) as -> by lia. done.
Qed.

Lemma calls_backoff_log text (max_retries : Z) :
  calls (backoff_log text max_retries)
  = replicate (Z.to_nat max_retries) (user_prompt text).
Proof.
  rewrite /backoff_log /range.
  generalize 0%nat. induction (Z.to_nat max_retries) as [|m IH]; intros k; [done|].
  rewrite [seq k (S m)]/= fmap_cons [flat_map _ _]/= calls_call.
  rewrite [replicate _ _]/=. f_equal.
  destruct (_ <? _); rewrite [_ ++ _]/= ?calls_sleep IH //.
Qed.

(** C1. Backoff termination: when every attempt for a document is rate
    limited, [extract_metadata] returns the null pair (it does not raise)
    after exactly [max_retries] completion requests, and the sleeps between
    them are 1 s, 2 s, 4 s, ..., each the double of the one before: one
    sleep of [2 ^ attempt] seconds after each attempt but the last. *)
Theorem extract_metadata_backoff_terminates text max_retries w :
  0 ≤ max_retries →
  (∀ n, chat_completions_create n system_prompt (user_prompt text)
        = Raise RateLimitError) →
  ∃ w',
    extract_metadata text max_retries w = (Ret null_metadata, w')
    ∧ log w' = log w ++ backoff_log text max_retries
    ∧ api_calls w' = (api_calls w + Z.to_nat max_retries)%nat
    ∧ length (calls (backoff_log text max_retries)) = Z.to_nat max_retries
    ∧ sleeps (backoff_log text max_retries)
      = (λ attempt, 1000 * 2 ^ attempt) <$> range (max_retries - 1)
    ∧ (∀ i d d', sleeps (backoff_log text max_retries) !! i = Some d →
                 sleeps (backoff_log text max_retries) !! S i = Some d' →
                 d' = 2 * d).
Proof.
  intros Hn Hrl.
  assert (∃ N, max_retries = Z.of_nat N) as [N HN]
    by (exists (Z.to_nat max_retries); lia).
  assert (Hs : sleeps (backoff_log text max_retries)
               = (λ attempt, 1000 * 2 ^ attempt) <$> range (max_retries - 1)).
  { rewrite /backoff_log HN range_nonneg (sleeps_backoff_log _ N 0 N) //.
    rewrite /range. by replace (Z.to_nat (Z.of_nat N - 1)) with (N - 1)%nat by lia. }
  eexists. repeat split.
  - rewrite /extract_metadata {1 2}HN range_nonneg.
    rewrite (attempts_loop_rate_limited _ N 0 N) //.
  - rewrite /= /backoff_log HN range_nonneg //.
  - simpl. lia.
  - rewrite calls_backoff_log length_replicate //.
  - done.
  - intros i d d'. rewrite Hs /range -!list_fmap_compose !list_lookup_fmap.
    intros Hd Hd'.
    destruct (seq 0 _ !! i) as [a|] eqn:Ha; [|done].
    destruct (seq 0 _ !! S i) as [b|] eqn:Hb; [|done].
    apply lookup_seq in Ha as [-> _]. apply lookup_seq in Hb as [-> _].
    simpl in Hd, Hd'. simplify_eq.
    rewrite Nat2Z.inj_succ Z.pow_succ_r; lia.
Qed.

(** *** Every attempt ends in a pair of the two keys *)

Lemma attempt_body_shape usr w md w' :
  attempt_body usr w = (Ret md, w') →
  ∃ t p, md = {[ "title" := t; "publication_date" := p ]}.
Proof.
  rewrite /attempt_body /bind /create /lift /ret.
  destruct (chat_completions_create _ _ _) as [[c|]|]; [|done..].
  destruct (json_loads c) as [result|]; [|done].
  destruct (dot_get result "title" VNone) as [t|]; [|done].
  destruct (dot_get result "publication_date" VNone) as [p|]; [|done].
  intros [= <- _]. eauto.
Qed.

Lemma null_metadata_shape :
  ∃ t p, null_metadata = {[ "title" := t; "publication_date" := p ]}.
Proof. by exists VNone, VNone. Qed.

Lemma attempts_loop_returns usr max_retries attempts w :
  ∃ md w', attempts_loop usr max_retries attempts w = (Ret md, w')
           ∧ ∃ t p, md = {[ "title" := t; "publication_date" := p ]}.
Proof.
  revert w. induction attempts as [|attempt rest IH]; intros w.
  { exists null_metadata, w. split; [done | apply null_metadata_shape]. }
  rewrite [attempts_loop _ _ (_ :: _)]/= /try_except.
  destruct (attempt_body usr w) as [[md|e] w1] eqn:Hb.
  { exists md, w1. split; [done | by eapply attempt_body_shape]. }
  assert (Hnull : ∃ md w', @ret world _ null_metadata w1 = (Ret md, w')
            ∧ ∃ t p, md = {[ "title" := t; "publication_date" := p ]}).
  { exists null_metadata, w1. split; [done | apply null_metadata_shape]. }
  assert (Hnext : ∀ ms, ∃ md w',
            (sleep ms;; attempts_loop usr max_retries rest) w1 = (Ret md, w')
            ∧ ∃ t p, md = {[ "title" := t; "publication_date" := p ]}).
  { intros ms. rewrite /bind /sleep /modify. apply IH. }
  destruct (is_RateLimitError e); [by destruct (_ <? _)|].
  destruct (is_APIError e); [by destruct (_ <? _)|].
  by destruct (is_JSONDecodeError e).
Qed.

Lemma extract_metadata_returns text max_retries w :
  ∃ md w', extract_metadata text max_retries w = (Ret md, w')
           ∧ ∃ t p, md = {[ "title" := t; "publication_date" := p ]}.
Proof. apply attempts_loop_returns. Qed.

(** *** What one attempt yields when the service answers *)

Lemma extract_metadata_malformed text max_retries w c :
  0 < max_retries →
  chat_completions_create (api_calls w) system_prompt (user_prompt text)
    = Ret (Some c) →
  not_an_object c →
  extract_metadata text max_retries w
  = (Ret null_metadata,
     {| api_calls := S (api_calls w);
        log := log w ++ [ApiCall (user_prompt text)] |}).
Proof.
  intros Hn Hc Hj. rewrite /extract_metadata range_pos //.
  rewrite [attempts_loop _ _ (_ :: _)]/= /try_except.
  rewrite /attempt_body /bind /create /lift Hc.
  destruct Hj as [->|(v & -> & Hv)]; [done|].
  destruct v; try done. by destruct (Hv d).
Qed.

Lemma extract_metadata_well_formed text max_retries w c d :
  0 < max_retries →
  chat_completions_create (api_calls w) system_prompt (user_prompt text)
    = Ret (Some c) →
  json_loads c = Ret (VDict d) →
  extract_metadata text max_retries w
  = (Ret {[ "title" := get d "title" VNone;
            "publication_date" := get d "publication_date" VNone ]},
     {| api_calls := S (api_calls w);
        log := log w ++ [ApiCall (user_prompt text)] |}).
Proof.
  intros Hn Hc Hj. rewrite /extract_metadata range_pos //.
  rewrite [attempts_loop _ _ (_ :: _)]/= /try_except.
  rewrite /attempt_body /bind /create /lift Hc Hj //.
Qed.

(** *** The loop of [process_files] *)

Lemma truthy_VStr s : truthy (VStr s) = true ↔ s ≠ "".
Proof.
  rewrite /truthy negb_true_iff. split.
  - intros Hs ->. by rewrite String.eqb_refl in Hs.
  - intros Hs. by apply String.eqb_neq.
Qed.

Lemma process_files_loop_outputs files n i acc w out w' :
  process_files_loop n i files acc w = (Ret out, w') →
  ∃ new, out = acc ++ new ∧ Forall2 produced_from files new.
Proof.
  revert i acc w. induction files as [|f rest IH]; intros i acc w.
  { intros [= <- _]. exists []. by rewrite app_nil_r. }
  rewrite [process_files_loop _ _ (_ :: _) _]/= /bind /lift.
  destruct (item f "file_name") as [name|]; [|done].
  destruct (truthy (get f "extracted_text" (VStr ""))) eqn:Ht; simpl.
  - match goal with
    | |- context [match ?m w with _ => _ end] =>
        destruct (m w) as [[md|] w1] eqn:He; [|done]
    end.
    assert (∃ w3, (if i <? n then sleep 500 else ret tt) w1 = (Ret tt, w3))
      as [w3 ->] by (destruct (i <? n); by eexists).
    intros (new & -> & Hnew)%IH.
    exists ((md ∪ f) :: new). split; [by rewrite -app_assoc|].
    constructor; [|done]. exists md. split; [done|]. right.
    destruct (get f "extracted_text" (VStr "")) as [| | |s| | |] eqn:Hg;
      try (right; exists w, w1; split; [by intros ?|done]).
    left. exists s, w, w1. split_and!; [done| |done].
    by apply truthy_VStr.
  - assert (∃ w3, (if i <? n then sleep 500 else ret tt) w = (Ret tt, w3))
      as [w3 ->] by (destruct (i <? n); by eexists).
    intros (new & -> & Hnew)%IH.
    exists ((null_metadata ∪ f) :: new). split; [by rewrite -app_assoc|].
    constructor; [|done]. exists null_metadata. split; [done|]. by left.
Qed.

Lemma process_files_loop_returns files n i acc w :
  Forall extracted_document files →
  ∃ out w', process_files_loop n i files acc w = (Ret out, w').
Proof.
  intros Hwf. revert i acc w.
  induction Hwf as [|f rest [[name Hname] [s Hs]] _ IH]; intros i acc w.
  { by eexists _, _. }
  rewrite [process_files_loop _ _ (_ :: _) _]/= /bind /lift /item Hname.
  rewrite /get Hs.
  destruct (truthy (VStr s)); simpl.
  - destruct (extract_metadata_returns s default_max_retries w) as (md & w1 & -> & _).
    destruct (i <? n); apply IH.
  - destruct (i <? n); apply IH.
Qed.

Lemma extract_metadata_any_shape text max_retries w md w' :
  extract_metadata_any text max_retries w = (Ret md, w') →
  ∃ t p, md = {[ "title" := t; "publication_date" := p ]}.
Proof.
  rewrite /extract_metadata_any /bind /lift.
  destruct (shown_text text) as [shown|]; [|done].
  destruct (attempts_loop_returns (prompt_of shown) max_retries
              (range max_retries) w) as (md' & w1 & -> & Hshape).
  by intros [= <- _].
Qed.

Lemma produced_from_frame f o :
  produced_from f o →
  is_Some (o !! "title") ∧ is_Some (o !! "publication_date")
  ∧ ∀ k, k ≠ "title" → k ≠ "publication_date" → o !! k = f !! k.
Proof.
  intros (md & -> & Hmd).
  assert (∃ t p, md = {[ "title" := t; "publication_date" := p ]})
    as (t & p & ->).
  { destruct Hmd as [[_ ->]|[(s & w0 & w1 & _ & _ & He)|(w0 & w1 & _ & He)]].
    - apply null_metadata_shape.
    - destruct (extract_metadata_returns s default_max_retries w0) as (md' & w' & He' & Hsh).
      rewrite He in He'. by injection He' as -> _.
    - by eapply extract_metadata_any_shape. }
  split_and!.
  - exists t. apply lookup_union_Some_l. by rewrite lookup_insert_eq.
  - exists p. apply lookup_union_Some_l.
    rewrite lookup_insert_ne // lookup_singleton_eq //.
  - intros k Hk1 Hk2. apply lookup_union_r.
    rewrite lookup_insert_ne // lookup_singleton_ne //.
Qed.

(** C9. The frame of the Enricher: [process_files] returns on every list
    of records the Extractor can hand over, and whenever it returns, the
    output has one record per input, and the record at each index is the
    input record at that index with the keys [title] and
    [publication_date] set: every other key ([file_id], [file_name],
    [local_path], [extracted_text], [text_length], [text_file_path],
    [slack_url], [message_ts], [message_text], [file_size], ...) maps to
    what it mapped to in the input. *)
Theorem process_files_frame files w :
  (Forall extracted_document files →
   ∃ out w', process_files files w = (Ret out, w'))
  ∧ (∀ out w', process_files files w = (Ret out, w') →
     length out = length files
     ∧ ∀ i f o, files !! i = Some f → out !! i = Some o →
         is_Some (o !! "title") ∧ is_Some (o !! "publication_date")
         ∧ ∀ k, k ≠ "title" → k ≠ "publication_date" → o !! k = f !! k).
Proof.
  split; [apply process_files_loop_returns|].
  intros out w' (new & -> & Hnew)%process_files_loop_outputs.
  rewrite app_nil_l. split; [by apply Forall2_length in Hnew|].
  intros i f o Hf Ho. apply produced_from_frame.
  by eapply Forall2_lookup_lr.
Qed.

Lemma produced_from_malformed f o s :
  f !! "extracted_text" = Some (VStr s) → s ≠ "" →
  malformed_response s →
  produced_from f o → o = null_metadata ∪ f.
Proof.
  intros Hf Hs Hbad (md & -> & Hmd). f_equal.
  rewrite /get Hf in Hmd.
  destruct Hmd as [[Ht _]|[(s' & w0 & w1 & [= <-] & _ & He)|(_ & _ & Hno & _)]];
    [|  |by destruct (Hno s)].
  { apply truthy_VStr in Hs. congruence. }
  destruct (Hbad (api_calls w0)) as (c & Hc & Hj).
  rewrite (extract_metadata_malformed _ _ _ c) // in He. congruence.
Qed.

Lemma produced_from_well_formed f o s t p :
  f !! "extracted_text" = Some (VStr s) → s ≠ "" →
  well_formed_response s t p →
  produced_from f o →
  o = {[ "title" := t; "publication_date" := p ]} ∪ f.
Proof.
  intros Hf Hs Hok (md & -> & Hmd). f_equal.
  rewrite /get Hf in Hmd.
  destruct Hmd as [[Ht _]|[(s' & w0 & w1 & [= <-] & _ & He)|(_ & _ & Hno & _)]];
    [|  |by destruct (Hno s)].
  { apply truthy_VStr in Hs. congruence. }
  destruct (Hok (api_calls w0)) as (c & d & Hc & Hj & <- & <-).
  rewrite (extract_metadata_well_formed _ _ _ c d) // in He. congruence.
Qed.

Lemma lookup_pair_title (t p : value) (f : dict) :
  ({[ "title" := t; "publication_date" := p ]} ∪ f) !! "title" = Some t.
Proof. apply lookup_union_Some_l. by rewrite lookup_insert_eq. Qed.

Lemma lookup_pair_publication_date (t p : value) (f : dict) :
  ({[ "title" := t; "publication_date" := p ]} ∪ f) !! "publication_date"
  = Some p.
Proof.
  apply lookup_union_Some_l. rewrite lookup_insert_ne // lookup_singleton_eq //.
Qed.

(** C6. A malformed response is not retried, and it is isolated.  When the
    service answers the document at index [k] with a response that is not
    the expected structure (it does not parse as JSON, or not to an
    object), [extract_metadata] returns the null pair for it after a
    single completion request and no sleep; [process_files] still returns
    one output per input; and when the other documents are answered with a
    well-formed pair that is not the null pair, each of them carries the
    pair of its answer, so that the output at [k] is the only one with the
    null pair (with five documents: five outputs, exactly one null pair). *)
Theorem malformed_response_isolated files w k fk sk :
  Forall extracted_document files →
  files !! k = Some fk →
  fk !! "extracted_text" = Some (VStr sk) →
  sk ≠ "" →
  malformed_response sk →
  (∀ i f, i ≠ k → files !! i = Some f →
     ∃ s t p, f !! "extracted_text" = Some (VStr s) ∧ s ≠ ""
              ∧ well_formed_response s t p
              ∧ ¬ (t = VNone ∧ p = VNone)) →
  (∀ w0 max_retries, 0 < max_retries →
     extract_metadata sk max_retries w0
     = (Ret null_metadata,
        {| api_calls := S (api_calls w0);
           log := log w0 ++ [ApiCall (user_prompt sk)] |}))
  ∧ ∃ out w',
      process_files files w = (Ret out, w')
      ∧ length out = length files
      ∧ (∀ i o, out !! i = Some o → null_pair o ↔ i = k)
      ∧ (∀ i f o s t p,
           i ≠ k → files !! i = Some f → out !! i = Some o →
           f !! "extracted_text" = Some (VStr s) →
           well_formed_response s t p →
           o !! "title" = Some t ∧ o !! "publication_date" = Some p).
Proof.
  intros Hwf Hk Hsk Hne Hbad Hothers. split.
  { intros w0 max_retries Hpos.
    destruct (Hbad (api_calls w0)) as (c & Hc & Hj).
    by apply (extract_metadata_malformed _ _ _ c). }
  destruct (process_files_loop_returns files (Z.of_nat (length files)) 1 [] w Hwf)
    as (out & w' & Hrun).
  exists out, w'. split; [done|].
  apply process_files_loop_outputs in Hrun as (new & -> & Hnew).
  rewrite app_nil_l. split; [by apply Forall2_length in Hnew|].
  split.
  - intros i o Ho.
    destruct (Forall2_lookup_r _ _ _ _ _ Hnew Ho) as (f & Hf & Hprod).
    destruct (decide (i = k)) as [->|Hik].
    + rewrite Hk in Hf. injection Hf as <-.
      rewrite (produced_from_malformed _ _ _ Hsk Hne Hbad Hprod).
      split; [done|]. intros _.
      split; [apply lookup_pair_title | apply lookup_pair_publication_date].
    + destruct (Hothers i f Hik Hf) as (s & t & p & Hs & Hsne & Hok & Hnn).
      rewrite (produced_from_well_formed _ _ _ _ _ Hs Hsne Hok Hprod).
      split; [|done]. intros [Ht Hp].
      rewrite lookup_pair_title in Ht.
      rewrite lookup_pair_publication_date in Hp.
      destruct Hnn. split; congruence.
  - intros i f o s t p Hik Hf Ho Hs Hok.
    destruct (Hothers i f Hik Hf) as (s' & t' & p' & Hs' & Hsne & _ & _).
    rewrite Hs in Hs'. injection Hs' as <-.
    pose proof (Forall2_lookup_lr _ _ _ _ _ _ Hnew Hf Ho) as Hprod.
    rewrite (produced_from_well_formed _ _ _ _ _ Hs Hsne Hok Hprod).
    split; [apply lookup_pair_title | apply lookup_pair_publication_date].
Qed.

End enricher.

(** ** The Extractor *)

Section pool.
Import pdf_processor.
Context {A B S : Type} (f : A → M S B) (g : A → B) (xs : list A).

#[local] Abbreviation fill := (fill g xs).

Lemma run_tasks_fill schedule slots s :
  (∀ x s, x ∈ xs → ∃ s', f x s = (Ret (g x), s')) →
  ∃ s', run_tasks f xs schedule slots s = (Ret (fill slots schedule), s').
Proof.
  intros Hf. revert slots s.
  induction schedule as [|i later IH]; intros slots s; [by eexists|].
  rewrite /= /fill /=. destruct (xs !! i) as [x|] eqn:Hx; [|apply IH].
  destruct (Hf x s) as [s' Hs']; [by eapply list_elem_of_lookup_2|].
  rewrite /bind Hs'. apply IH.
Qed.

Lemma length_fill schedule slots :
  length (fill slots schedule) = length slots.
Proof.
  revert slots. induction schedule as [|i later IH]; intros slots; [done|].
  rewrite /fill /= -/(fill _ later) IH.
  destruct (xs !! i); by rewrite ?length_insert.
Qed.

Lemma lookup_fill schedule slots i x :
  xs !! i = Some x →
  (i < length slots)%nat →
  slots !! i = Some (Some (g x)) ∨ i ∈ schedule →
  fill slots schedule !! i = Some (Some (g x)).
Proof.
  intros Hx. revert slots.
  induction schedule as [|j later IH]; intros slots Hlen Hi.
  { destruct Hi as [Hi|Hi]; [done | by apply elem_of_nil in Hi]. }
  rewrite /fill /= -/(fill _ later).
  destruct (decide (j = i)) as [->|Hji].
  - rewrite Hx. apply IH; [by rewrite length_insert|].
    left. by apply list_lookup_insert_eq.
  - assert (slots !! i = Some (Some (g x)) ∨ i ∈ later) as Hi'.
    { destruct Hi as [Hi|Hi]; [by left|].
      apply elem_of_cons in Hi as [Hi|Hi]; [congruence | by right]. }
    destruct (xs !! j); [|by apply IH].
    apply IH; [by rewrite length_insert|].
    destruct Hi' as [Hi'|Hi']; [|by right].
    left. by rewrite list_lookup_insert_ne.
Qed.

Lemma fill_complete schedule :
  schedule ≡ₚ seq 0 (length xs) →
  fill (replicate (length xs) None) schedule = Some <$> (g <$> xs).
Proof.
  intros Hperm. apply list_eq. intros i.
  destruct (xs !! i) as [x|] eqn:Hx.
  - rewrite !list_lookup_fmap Hx /=.
    pose proof (lookup_lt_Some _ _ _ Hx) as Hlt.
    apply lookup_fill; [done | by rewrite length_replicate |].
    right. rewrite Hperm. apply elem_of_seq. lia.
  - rewrite !list_lookup_fmap Hx /=.
    apply lookup_ge_None. rewrite length_fill length_replicate.
    by apply lookup_ge_None.
Qed.

Lemma mapM_filled (l : list B) : mapM (λ slot, slot) (Some <$> l) = Some l.
Proof. apply mapM_Some. induction l; by constructor. Qed.

(** Whatever the order in which the tasks complete, [pool_map] returns the
    results in task order. *)
Lemma pool_map_ordered schedule s :
  (∀ x s, x ∈ xs → ∃ s', f x s = (Ret (g x), s')) →
  schedule ≡ₚ seq 0 (length xs) →
  ∃ s', pool_map f xs schedule s = Some (Ret (g <$> xs), s').
Proof.
  intros Hf Hperm. rewrite /pool_map.
  destruct (run_tasks_fill schedule (replicate (length xs) None) s Hf)
    as [s' ->].
  exists s'. by rewrite fill_complete // mapM_filled.
Qed.

End pool.

Section extractor.
Import config pdf_processor.
Context `{rt : Runtime} `{host : Host}.

Lemma process_single_pdf_returns file_info d :
  downloaded_file file_info →
  ∃ d', process_single_pdf file_info d = (Ret (worker_result file_info), d').
Proof.
  intros [p Hp]. rewrite /process_single_pdf /worker_result /bind /lift /item Hp.
  rewrite /try_except /write_text. destruct (can_open _); by eexists.
Qed.

Lemma processed_frame file_info p k :
  k ≠ "extracted_text" → k ≠ "text_file_path" → k ≠ "text_length" →
  processed file_info p !! k = file_info !! k.
Proof. intros. rewrite /processed !lookup_insert_ne //. Qed.

Lemma processed_extracted_text file_info p :
  processed file_info p !! "extracted_text"
  = Some (VStr (extract_text_from_pdf p)).
Proof. rewrite /processed. do 2 (rewrite lookup_insert_ne //). by rewrite lookup_insert_eq. Qed.

(** C2. Order preservation: for [N] downloaded files and whatever order
    the workers complete in, [process_pdfs] returns a list of [N] records,
    and the record at index [i] is the one a worker builds from the input
    at index [i]: the extracted text of that input's PDF, and each of
    the input's own fields unchanged. *)
Theorem process_pdfs_preserves_order (self : PDFProcessor) files schedule d :
  1 ≤ max_workers self →
  Forall downloaded_file files →
  schedule ≡ₚ seq 0 (length files) →
  ∃ out d',
    process_pdfs self files schedule d = Some (Ret out, d')
    ∧ length out = length files
    ∧ ∀ i file_info, files !! i = Some file_info →
        ∃ p, file_info !! "local_path" = Some (VPath p)
             ∧ out !! i = Some (processed file_info p)
             ∧ processed file_info p !! "extracted_text"
               = Some (VStr (extract_text_from_pdf p))
             ∧ ∀ k, k ≠ "extracted_text" → k ≠ "text_file_path" →
                    k ≠ "text_length" →
                    processed file_info p !! k = file_info !! k.
Proof.
  intros Hworkers Hfiles Hperm.
  assert (∃ d', process_pdfs self files schedule d
                = Some (Ret (worker_result <$> files), d')) as [d' Hrun].
  { rewrite /process_pdfs. destruct files as [|f0 rest] eqn:E; [by eexists|].
    rewrite -E in Hperm Hfiles |- *.
    destruct (max_workers self <? 1) eqn:Hlt; [apply Z.ltb_lt in Hlt; lia|].
    apply pool_map_ordered; [|done].
    intros x s Hx. apply process_single_pdf_returns.
    by eapply Forall_forall in Hfiles. }
  exists (worker_result <$> files), d'.
  split; [done|]. split; [by rewrite length_fmap|].
  intros i file_info Hi.
  pose proof (Forall_lookup_1 _ _ _ _ Hfiles Hi) as [p Hp].
  exists p. split; [done|]. split.
  - by rewrite list_lookup_fmap Hi /= /worker_result Hp.
  - split; [apply processed_extracted_text|]. intros k. apply processed_frame.
Qed.

End extractor.

(** ** The Source Fetcher *)

Section fetcher.
Import slack_client scenario.

(** C8 at [fetch_messages('Compliance')], with the channels [general] and
    [research] listed.  No listed channel has the name, and
    [get_channel_id] would raise the channel-not-found [ValueError] for
    it; but the name starts with [C], so [fetch_messages] takes it for an
    id and never looks it up: what comes back is what the history endpoint
    answers for that id, an empty list where the endpoint answers for
    every id, and the [SlackApiError] of the endpoint where it knows the
    listed channels only. *)
Theorem fetch_messages_takes_C_name_for_id :
  Forall (λ channel, has_name "Compliance" channel = false)
    [ VDict {[ "id" := VStr "C01"; "name" := VStr "general" ]};
      VDict {[ "id" := VStr "C02"; "name" := VStr "research" ]} ]
  ∧ conversations_list (SlackWebApi := two_channels)
    = Ret {[ "channels" :=
               VList [ VDict {[ "id" := VStr "C01"; "name" := VStr "general" ]};
                       VDict {[ "id" := VStr "C02"; "name" := VStr "research" ]} ] ]}
  ∧ get_channel_id (api := two_channels) "Compliance"
    = Raise (channel_not_found "Compliance")
  ∧ fetch_messages (api := two_channels) 10 "Compliance" 100 = Some (Ret [])
  ∧ get_channel_id (api := listed_only) "Compliance"
    = Raise (channel_not_found "Compliance")
  ∧ fetch_messages (api := listed_only) 10 "Compliance" 100
    = Some (Raise SlackApiError).
Proof.
  split; [by repeat constructor|]. split; [reflexivity|].
  split; [by vm_compute|]. split; [by vm_compute|].
  split; by vm_compute.
Qed.

End fetcher.

(** ** The Downloader *)

Section downloader.
Import slack_client.
Context `{rt : Runtime} `{host : Host} `{net : Network} `{api : SlackWebApi}.

(** The path [download_pdf] derives for a descriptor. *)
Lemma download_pdf_unfold self (info : dict) download_path file_id url w :
  info !! "id" = Some file_id →
  info !! "url_private" = Some url →
  let file_name := get info "name" (VStr (py_str file_id +:+ ".pdf")) in
  let file_path :=
    path_join download_path (safe_filename file_id file_name) in
  download_pdf self (VDict info) download_path w
  = if bool_decide (is_Some (on_disk w !! file_path))
    then (Ret file_path, w)
    else try_except
           (response <- http_get url (token self);;
            (if status_ok response then ret tt else raise HTTPError);;
            (if can_mkdir download_path then ret tt else raise OSError);;
            save file_path response;;
            ret file_path)
           (λ e, raise e) w.
Proof.
  intros Hid Hurl. rewrite /download_pdf /bind /lift /= /item Hid Hurl /gets.
  by case_bool_decide.
Qed.

Lemma download_pdf_fresh self download_path url file_path w p w1 :
  on_disk w !! file_path = None →
  try_except
    (response <- http_get url (token self);;
     (if status_ok response then ret tt else raise HTTPError);;
     (if can_mkdir download_path then ret tt else raise OSError);;
     save file_path response;;
     ret file_path)
    (λ e, raise e) w = (Ret p, w1) →
  p = file_path
  ∧ requests w1 = requests w ++ [url]
  ∧ ∃ content, on_disk w1 = <[file_path := content]> (on_disk w).
Proof.
  intros Hnew. rewrite /try_except /bind /http_get /raise /ret /save.
  destruct (requests_get _ _ _) as [response|]; [|done].
  destruct (status_ok response); [|done].
  destruct (can_mkdir download_path); [|done].
  destruct (can_open file_path); [|done].
  destruct (transfer_ends response); [|done|done].
  intros [= <- <-]. simpl. eauto.
Qed.

(** C3. Downloading is idempotent.  For a descriptor with an [id] and a
    [url_private], the file is looked for under the name [{id}_{name}] in
    the destination directory.  When it is already there, [download_pdf]
    returns its path and leaves the world as it is, so that no request is
    issued; hence, after a call that returned, a second call with the same
    descriptor and destination returns the same path, issues no request
    and writes nothing: the two calls leave the one file of that name on
    disk, beside the files that were there before. *)
Theorem download_pdf_idempotent self (info : dict) download_path file_id url w :
  info !! "id" = Some file_id →
  info !! "url_private" = Some url →
  let file_name := get info "name" (VStr (py_str file_id +:+ ".pdf")) in
  let file_path :=
    path_join download_path (safe_filename file_id file_name) in
  (∀ i n, file_id = VStr i → file_name = VStr n →
          file_path = path_join download_path (i +:+ "_" +:+ n))
  ∧ (is_Some (on_disk w !! file_path) →
     download_pdf self (VDict info) download_path w = (Ret file_path, w))
  ∧ (∀ p w1,
       download_pdf self (VDict info) download_path w = (Ret p, w1) →
       p = file_path
       ∧ is_Some (on_disk w1 !! file_path)
       ∧ dom (on_disk w1) = {[ file_path ]} ∪ dom (on_disk w)
       ∧ (on_disk w = ∅ → size (on_disk w1) = 1%nat)
       ∧ ∃ w2,
           download_pdf self (VDict info) download_path w1 = (Ret p, w2)
           ∧ requests w2 = requests w1
           ∧ on_disk w2 = on_disk w1).
Proof.
  intros Hid Hurl file_name file_path.
  pose proof (download_pdf_unfold self info download_path file_id url) as Hun.
  pose proof (Hun w Hid Hurl) as Hw. cbv zeta in Hw.
  fold file_name file_path in Hw.
  split.
  { intros i n Hi Hn. by rewrite /file_path /safe_filename Hi Hn !py_str_str. }
  split.
  { intros Hex. rewrite Hw. by rewrite bool_decide_eq_true_2. }
  intros p w1. rewrite Hw.
  assert (Hagain : ∀ w', is_Some (on_disk w' !! file_path) →
            download_pdf self (VDict info) download_path w'
            = (Ret file_path, w')).
  { intros w' Hex. pose proof (Hun w' Hid Hurl) as Hw'. cbv zeta in Hw'.
    fold file_name file_path in Hw'. by rewrite Hw' bool_decide_eq_true_2. }
  case_bool_decide as Hex.
  - intros [= <- <-]. split_and!; [done|done| | |].
    + symmetry. apply subseteq_union_1_L, singleton_subseteq_l.
      by apply elem_of_dom.
    + intros Hempty. rewrite Hempty lookup_empty in Hex. by destruct Hex.
    + exists w. by rewrite Hagain.
  - apply eq_None_not_Some in Hex.
    intros (-> & Hreq & content & Hdisk)%download_pdf_fresh; [|done].
    assert (is_Some (on_disk w1 !! file_path)) as Hex1.
    { rewrite Hdisk lookup_insert_eq. by eexists. }
    split_and!; [done|done| | |].
    + by rewrite Hdisk dom_insert_L.
    + intros Hempty. by rewrite Hdisk Hempty insert_empty map_size_singleton.
    + exists w1. by rewrite Hagain.
Qed.

(** *** Per-attachment isolation *)

Lemma download_pdf_has_id self file_info download_path w p w1 :
  download_pdf self file_info download_path w = (Ret p, w1) →
  ∃ d file_id, file_info = VDict d ∧ d !! "id" = Some file_id.
Proof.
  rewrite /download_pdf /bind /lift.
  destruct file_info as [| | | | | |d]; simpl; try done.
  rewrite /item. destruct (d !! "id") as [file_id|] eqn:Hid; [|done].
  intros _. by exists d, file_id.
Qed.

Lemma downloaded_record_returns self file_info download_path w p w1 ts text :
  download_pdf self file_info download_path w = (Ret p, w1) →
  ∃ record, downloaded_record ts text file_info p = Ret record.
Proof.
  intros (d & file_id & -> & Hid)%download_pdf_has_id.
  rewrite /downloaded_record /= /item Hid /=. by eexists.
Qed.

Lemma attempted_app self download_path atts1 atts2 rs1 rs2 w w1 w2 :
  attempted self download_path atts1 rs1 w w1 →
  attempted self download_path atts2 rs2 w1 w2 →
  attempted self download_path (atts1 ++ atts2) (rs1 ++ rs2) w w2.
Proof.
  induction 1; intros Hrest; simpl; [done| |].
  - eapply attempted_downloaded; eauto.
  - eapply attempted_failed; eauto.
Qed.

Lemma attempted_length self download_path atts rs w w' :
  attempted self download_path atts rs w w' → length rs = length atts.
Proof. induction 1; simpl; by f_equal. Qed.

Lemma download_files_attempted self ts text pdf_files download_path acc w :
  ∃ results w',
    download_files self ts text pdf_files download_path acc w
    = (Ret (acc ++ omap id results), w')
    ∧ attempted self download_path
        ((λ file_info, (ts, text, file_info)) <$> pdf_files) results w w'.
Proof.
  revert acc w. induction pdf_files as [|file_info rest IH]; intros acc w.
  { exists [], w. rewrite /= app_nil_r. split; [done | constructor]. }
  rewrite [download_files _ _ _ (_ :: _) _ _]/= /bind /try_except.
  destruct (download_pdf self file_info download_path w) as [[p|e] w1] eqn:Hd.
  - destruct (downloaded_record_returns _ _ _ _ _ _ ts text Hd) as [record Hr].
    rewrite /lift Hr /ret.
    destruct (IH (acc ++ [record]) w1) as (results & w' & -> & Hatt).
    exists (Some record :: results), w'. split.
    + by rewrite /= -app_assoc.
    + rewrite fmap_cons. by eapply attempted_downloaded.
  - rewrite /ret.
    destruct (IH acc w1) as (results & w' & -> & Hatt).
    exists (None :: results), w'. split; [done|].
    rewrite fmap_cons. by eapply attempted_failed.
Qed.

Lemma download_messages_attempted self messages download_path acc w :
  Forall fetched_message messages →
  ∃ results w',
    download_messages self messages download_path acc w
    = (Ret (acc ++ omap id results), w')
    ∧ attempted self download_path (attachments messages) results w w'.
Proof.
  intros Hmsgs. revert acc w.
  induction Hmsgs as [|message rest Hmsg _ IH]; intros acc w.
  { exists [], w. rewrite /= app_nil_r. split; [done | constructor]. }
  rewrite [download_messages _ (_ :: _) _ _]/= /bind /lift.
  assert (py_iter (get message "pdf_files" (VList []))
          = Ret (pdf_files_of message)) as ->.
  { rewrite /get /pdf_files_of. by destruct Hmsg as [->|[l ->]]. }
  destruct (download_files_attempted self (get message "ts" (VStr ""))
              (get message "text" (VStr "")) (pdf_files_of message)
              download_path acc w) as (rs1 & w1 & -> & Hatt1).
  destruct (IH (acc ++ omap id rs1) w1) as (rs2 & w2 & -> & Hatt2).
  exists (rs1 ++ rs2), w2. split.
  - by rewrite omap_app app_assoc.
  - rewrite /attachments /=. by eapply attempted_app.
Qed.

Lemma download_pdf_destination self (info : dict) download_path file_id url w :
  info !! "id" = Some file_id →
  info !! "url_private" = Some url →
  download_pdf self (VDict info) download_path w
  = if bool_decide (is_Some (on_disk w !! destination download_path info))
    then (Ret (destination download_path info), w)
    else try_except
           (response <- http_get url (token self);;
            (if status_ok response then ret tt else raise HTTPError);;
            (if can_mkdir download_path then ret tt else raise OSError);;
            save (destination download_path info) response;;
            ret (destination download_path info))
           (λ e, raise e) w.
Proof.
  intros Hid Hurl.
  rewrite (download_pdf_unfold self info download_path file_id url) //.
  assert (destination download_path info
          = path_join download_path
              (safe_filename file_id
                 (get info "name" (VStr (py_str file_id +:+ ".pdf"))))) as ->;
    [|done].
  rewrite /destination. by replace (get info "id" VNone) with file_id
    by (by rewrite /get Hid).
Qed.

(** The outcomes of a request for a file that is not on disk. *)
Lemma download_fresh_outcomes self download_path url file_path w r w1 :
  try_except
    (response <- http_get url (token self);;
     (if status_ok response then ret tt else raise HTTPError);;
     (if can_mkdir download_path then ret tt else raise OSError);;
     save file_path response;;
     ret file_path)
    (λ e, raise e) w = (r, w1) →
  requests w1 = requests w ++ [url]
  ∧ match r with
    | Ret p =>
        p = file_path
        ∧ ∃ content, on_disk w1 = <[file_path := content]> (on_disk w)
    | Raise e =>
        on_disk w1 = on_disk w
        ∨ ∃ response,
            requests_get (length (requests w)) url (token self) = Ret response
            ∧ (stream_breaks response = true ∧ e = RequestException
               ∨ write_fails response = true ∧ e = OSError)
            ∧ on_disk w1
              = <[file_path := String.concat "" (body_chunks response)]>
                  (on_disk w)
    end.
Proof.
  rewrite /try_except /bind /http_get /raise /ret /save.
  destruct (requests_get _ _ _) as [response|] eqn:Hget;
    [|intros [= <- <-]; auto].
  destruct (status_ok response); [|intros [= <- <-]; auto].
  destruct (can_mkdir download_path); [|intros [= <- <-]; auto].
  destruct (can_open file_path); [|intros [= <- <-]; auto].
  rewrite /stream_breaks /write_fails.
  destruct (transfer_ends response) eqn:Hends; intros [= <- <-]; simpl.
  - split; [done|]. split; [done|]. by eexists.
  - split; [done|]. right. exists response. rewrite Hends. auto.
  - split; [done|]. right. exists response. rewrite Hends. auto.
Qed.

End downloader.

(** ** The Downloader: one record for each download that returns *)

Section downloader_records.
Import slack_client.
Context `{rt : Runtime} `{host : Host} `{net : Network} `{api : SlackWebApi}.

Lemma download_pdf_returns_destination self (d : dict) download_path w p w1 :
  download_pdf self (VDict d) download_path w = (Ret p, w1) →
  p = destination download_path d.
Proof.
  intros Hd.
  destruct (download_pdf_has_id _ _ _ _ _ _ Hd) as (d' & file_id & [= <-] & Hid).
  destruct (d !! "url_private") as [url|] eqn:Hurl.
  2:{ move: Hd. by rewrite /download_pdf /bind /lift /= /item Hid Hurl. }
  move: Hd. rewrite (download_pdf_destination _ _ _ _ _ _ Hid Hurl).
  case_bool_decide; [by intros [= <- _]|].
  by intros (_ & -> & _)%download_fresh_outcomes.
Qed.

(** The record of an attempt that returned. *)
Lemma attempted_record self download_path atts results w w' i ts text
    file_info record :
  attempted self download_path atts results w w' →
  atts !! i = Some (ts, text, file_info) →
  results !! i = Some (Some record) →
  ∃ d file_id,
    file_info = VDict d
    ∧ d !! "id" = Some file_id
    ∧ record
      = {[ "file_id" := file_id;
           "file_name" := get d "name" (VStr "unknown.pdf");
           "local_path" := VPath (destination download_path d);
           "slack_url" := get d "permalink" (VStr "");
           "message_ts" := ts;
           "message_text" := text;
           "file_size" := get d "size" (VInt 0) ]}.
Proof.
  intros Hatt. revert i.
  induction Hatt as [w|ts0 text0 fi0 atts p record0 results w w1 w2 Hd Hr _ IH
                    |ts0 text0 fi0 atts e results w w1 w2 Hd _ IH];
    intros i Hi Hres; [done| |].
  - destruct i as [|i]; [|by eapply IH].
    injection Hi as -> -> ->. injection Hres as ->.
    destruct (download_pdf_has_id _ _ _ _ _ _ Hd) as (d & file_id & -> & Hid).
    apply download_pdf_returns_destination in Hd as ->.
    exists d, file_id. split; [done|]. split; [done|].
    move: Hr. rewrite /downloaded_record /= /item Hid /=. by intros [= <-].
  - destruct i as [|i]; [done|]. by eapply IH.
Qed.

Lemma position_cons_None {A} (l : list (option A)) i :
  position (None :: l) (S i) = position l i.
Proof. done. Qed.

Lemma position_cons_Some {A} (a : A) (l : list (option A)) i :
  position (Some a :: l) (S i) = S (position l i).
Proof. done. Qed.

Lemma omap_id_position {A} (l : list (option A)) i a :
  l !! i = Some (Some a) → omap id l !! position l i = Some a.
Proof.
  revert i. induction l as [|[b|] l IH]; intros i Hi; [done| |].
  - destruct i as [|i]; [by injection Hi as ->|].
    rewrite position_cons_Some. by apply IH.
  - destruct i as [|i]; [done|].
    rewrite position_cons_None. by apply IH.
Qed.

Lemma omap_id_lookup_inv {A} (l : list (option A)) j a :
  omap id l !! j = Some a →
  ∃ i, l !! i = Some (Some a) ∧ position l i = j.
Proof.
  revert j. induction l as [|[b|] l IH]; intros j; [done| |]; csimpl.
  - destruct j as [|j].
    + intros [= ->]. by exists 0%nat.
    + intros (i & Hi & <-)%IH. exists (S i). by rewrite position_cons_Some.
  - intros (i & Hi & <-)%IH. exists (S i). by rewrite position_cons_None.
Qed.

Lemma position_lt {A} (l : list (option A)) i i' a :
  l !! i = Some (Some a) → (i < i')%nat → (position l i < position l i')%nat.
Proof.
  revert i i'. induction l as [|[b|] l IH]; intros i i' Hi Hlt; [done| |].
  - destruct i' as [|i']; [lia|]. rewrite position_cons_Some.
    destruct i as [|i]; [rewrite /position /=; lia|].
    rewrite position_cons_Some. apply ->Nat.succ_lt_mono. apply IH; [done|lia].
  - destruct i as [|i]; [done|]. destruct i' as [|i']; [lia|].
    rewrite !position_cons_None. apply IH; [done|lia].
Qed.

(** C7, as the code has it.  A download failure is caught inside
    [download_all_pdfs].  On the messages the Fetcher returns,
    [download_all_pdfs] itself returns: it calls [download_pdf] once for
    each attachment, in order, whatever happened to the ones before, and
    its output holds the records of the calls that returned, in that
    order, and nothing else.  The record of an attachment carries the
    [id] and the metadata of its descriptor, the path the file was saved
    under, and the [ts] and [text] of its message; it stands at the
    position of its attempt among those that returned, before the records
    of all later attachments, so that every attachment whose download
    returns has one record of its own.  A file attached twice has two
    records; an attachment whose [id] no other attachment of the messages
    has is the only record of the output with that [file_id]: it appears
    exactly once. *)
Theorem download_all_pdfs_isolates_failures self messages download_path w :
  Forall fetched_message messages →
  ∃ results w',
    download_all_pdfs self messages download_path w
    = (Ret (omap id results), w')
    ∧ attempted self download_path (attachments messages) results w w'
    ∧ length results = length (attachments messages)
    ∧ (∀ j r, omap id results !! j = Some r →
         ∃ i, results !! i = Some (Some r) ∧ position results i = j)
    ∧ (∀ i i' r, results !! i = Some (Some r) → (i < i')%nat →
         (position results i < position results i')%nat)
    ∧ (∀ i ts text file_info record,
         attachments messages !! i = Some (ts, text, file_info) →
         results !! i = Some (Some record) →
         ∃ d file_id,
           file_info = VDict d
           ∧ d !! "id" = Some file_id
           ∧ record
             = {[ "file_id" := file_id;
                  "file_name" := get d "name" (VStr "unknown.pdf");
                  "local_path" := VPath (destination download_path d);
                  "slack_url" := get d "permalink" (VStr "");
                  "message_ts" := ts;
                  "message_text" := text;
                  "file_size" := get d "size" (VInt 0) ]}
           ∧ omap id results !! position results i = Some record
           ∧ ((∀ j ts' text' d',
                 j ≠ i →
                 attachments messages !! j = Some (ts', text', VDict d') →
                 d' !! "id" ≠ Some file_id) →
              ∀ j r, omap id results !! j = Some r →
                     r !! "file_id" = Some file_id →
                     j = position results i)).
Proof.
  intros Hmsgs.
  destruct (download_messages_attempted self messages download_path [] w Hmsgs)
    as (results & w' & Hrun & Hatt).
  pose proof (attempted_length _ _ _ _ _ _ Hatt) as Hlen.
  exists results, w'. split_and!; [done|done|done| | |].
  { intros j r. apply omap_id_lookup_inv. }
  { intros i i' r. apply position_lt. }
  intros i ts text file_info record Hi Hres.
  destruct (attempted_record _ _ _ _ _ _ _ _ _ _ _ Hatt Hi Hres)
    as (d & file_id & -> & Hid & ->).
  exists d, file_id. split_and!; [done|done|done|by apply omap_id_position|].
  intros Honly j r (i' & Hres' & <-)%omap_id_lookup_inv Hfid.
  destruct (decide (i' = i)) as [->|Hne]; [done|].
  destruct (lookup_lt_is_Some_2 (attachments messages) i')
    as [[[ts' text'] file_info'] Hi'].
  { rewrite -Hlen. by eapply lookup_lt_Some. }
  destruct (attempted_record _ _ _ _ _ _ _ _ _ _ _ Hatt Hi' Hres')
    as (d' & file_id' & -> & Hid' & ->).
  rewrite lookup_insert_eq in Hfid. injection Hfid as ->.
  by destruct (Honly i' ts' text' d' Hne Hi').
Qed.

End downloader_records.

(** ** The Persister *)

Section persister.
Import db_manager.
Context `{rt : Runtime} `{pg : Postgres}.

Lemma has_file_id_true fid r : has_file_id fid r = true ↔ file_id r = fid.
Proof. apply String.eqb_eq. Qed.

Lemma has_file_id_false fid r : has_file_id fid r = false ↔ file_id r ≠ fid.
Proof. apply String.eqb_neq. Qed.

Lemma find_file_id_None fid rows :
  List.find (has_file_id fid) rows = None
  ↔ Forall (λ r, file_id r ≠ fid) rows.
Proof.
  induction rows as [|r rows IH]; simpl; [by split; [constructor|]|].
  destruct (has_file_id fid r) eqn:Hr.
  - split; [done|]. intros [Hne _]%Forall_cons.
    by apply has_file_id_true in Hr.
  - rewrite IH Forall_cons. apply has_file_id_false in Hr. tauto.
Qed.

Lemma find_file_id_Some fid rows existing :
  List.find (has_file_id fid) rows = Some existing →
  Exists (λ r, file_id r = fid) rows.
Proof.
  intros [Hin Hfid]%find_some. apply Exists_exists. exists existing.
  split; [by apply list_elem_of_In | by apply has_file_id_true].
Qed.

(** *** What a call that returns an id has done *)

Lemma insert_document_returns document st :
  ∃ doc_id st', insert_document document st = (Ret doc_id, st').
Proof.
  rewrite /insert_document /try_except.
  match goal with
  | |- context [match ?m with _ => _ end] => destruct m as [[doc_id|e] st']
  end; by eexists _, _.
Qed.

Lemma insert_document_success document st doc_id st' :
  insert_document document st = (Ret (Some doc_id), st') →
  ∃ data fid rows,
    up st = true
    ∧ doc_data document = Ret data
    ∧ document !! "file_id" = Some (VStr fid)
    ∧ data !! "file_id" = Some (VStr fid)
    ∧ documents st = Some rows
    ∧ accepts data = true
    ∧ execute_insert data st = (Ret doc_id, st').
Proof.
  rewrite /insert_document /try_except /bind /get_connection /lift.
  destruct (up st) eqn:Hup; [|done].
  destruct (doc_data document) as [data|] eqn:Hdata; [|done].
  destruct (execute_insert data st) as [[id'|] st1] eqn:Hexec; [|done].
  intros [= -> ->]. move: (Hexec). rewrite {1}/execute_insert.
  destruct (documents st) as [rows|] eqn:Hrows; [|done].
  destruct (data !! "file_id") as [[| | |fid| | |]|] eqn:Hfid; try done.
  destruct (accepts data) eqn:Hacc; [|done]. intros _.
  exists data, fid, rows. split_and!; try done.
  move: Hdata Hfid. rewrite /doc_data /item.
  destruct (document !! "file_id") as [v|]; [|done].
  destruct (document !! "file_name") as [name|]; [|done].
  intros [= <-]. rewrite lookup_insert_eq. by intros [= ->].
Qed.

Lemma execute_insert_rows data st fid rows doc_id st' :
  documents st = Some rows →
  data !! "file_id" = Some (VStr fid) →
  execute_insert data st = (Ret doc_id, st') →
  up st' = up st ∧ clock st' = clock st
  ∧ match List.find (has_file_id fid) rows with
    | Some existing =>
        doc_id = row_id existing
        ∧ documents st'
          = Some ((λ r, if has_file_id fid r
                        then do_update (proposed_row fid data st) r (clock st)
                        else r) <$> rows)
    | None =>
        doc_id = serial st
        ∧ documents st' = Some (rows ++ [proposed_row fid data st])
    end.
Proof.
  intros Hrows Hfid. rewrite /execute_insert Hrows Hfid.
  destruct (accepts data); [|done].
  destruct (List.find _ rows); by intros [= <- <-].
Qed.

(** *** The rows under one key *)

Lemma filter_file_id_absent fid (rows : list row) :
  Forall (λ r, file_id r ≠ fid) rows →
  filter (λ r, file_id r = fid) rows = [].
Proof.
  induction 1 as [|r rows Hr _ IH]; [done|].
  by rewrite filter_cons_False.
Qed.

Lemma filter_file_id_unique fid rows :
  unique_file_id rows →
  Exists (λ r, file_id r = fid) rows →
  ∃ r, filter (λ r, file_id r = fid) rows = [r].
Proof.
  rewrite /unique_file_id. induction rows as [|r rows IH]; intros Hnd Hex.
  { by apply Exists_nil in Hex. }
  rewrite fmap_cons in Hnd. apply NoDup_cons in Hnd as [Hnotin Hnd].
  destruct (decide (file_id r = fid)) as [Hr|Hr].
  - exists r. rewrite filter_cons_True // filter_file_id_absent //.
    apply Forall_forall. intros r' Hr' Heq. apply Hnotin.
    rewrite Hr -Heq. by apply list_elem_of_fmap_2.
  - apply Exists_cons in Hex as [Hex|Hex]; [done|].
    destruct (IH Hnd Hex) as [r' Hr']. exists r'.
    by rewrite filter_cons_False.
Qed.

Lemma find_of_filter fid (rows : list row) r :
  filter (λ r, file_id r = fid) rows = [r] →
  List.find (has_file_id fid) rows = Some r.
Proof.
  induction rows as [|r0 rows IH]; [done|]. simpl.
  destruct (has_file_id fid r0) eqn:H0.
  - apply has_file_id_true in H0. rewrite filter_cons_True //. by intros [= ->].
  - apply has_file_id_false in H0. rewrite filter_cons_False //.
Qed.

Lemma filter_file_id_updated fid (upd : row → row) (rows : list row) :
  (∀ r, file_id (upd r) = file_id r) →
  filter (λ r, file_id r = fid)
    ((λ r, if has_file_id fid r then upd r else r) <$> rows)
  = upd <$> filter (λ r, file_id r = fid) rows.
Proof.
  intros Hupd. induction rows as [|r rows IH]; [done|].
  rewrite fmap_cons. destruct (has_file_id fid r) eqn:Hr.
  - apply has_file_id_true in Hr.
    rewrite !filter_cons_True ?Hupd // fmap_cons IH //.
  - apply has_file_id_false in Hr. rewrite !filter_cons_False // IH //.
Qed.

Lemma lookup_updated fid (upd : row → row) (rows : list row) i r :
  rows !! i = Some r →
  ((λ r, if has_file_id fid r then upd r else r) <$> rows) !! i
  = Some (if decide (file_id r = fid) then upd r else r).
Proof.
  intros Hi. rewrite list_lookup_fmap Hi /=. f_equal.
  destruct (has_file_id fid r) eqn:Hr.
  - apply has_file_id_true in Hr. by rewrite decide_True.
  - apply has_file_id_false in Hr. by rewrite decide_False.
Qed.

(** The [UNIQUE] constraint survives an upsert. *)
Lemma execute_insert_unique data st fid rows doc_id st' rows' :
  documents st = Some rows →
  data !! "file_id" = Some (VStr fid) →
  execute_insert data st = (Ret doc_id, st') →
  documents st' = Some rows' →
  unique_file_id rows → unique_file_id rows'.
Proof.
  intros Hrows Hfid Hexec Hrows' Huniq.
  destruct (execute_insert_rows _ _ _ _ _ _ Hrows Hfid Hexec)
    as (_ & _ & Hcase).
  destruct (List.find (has_file_id fid) rows) eqn:Hfind;
    destruct Hcase as [_ Hdocs]; rewrite Hdocs in Hrows';
    injection Hrows' as <-.
  - rewrite /unique_file_id -list_fmap_compose.
    erewrite list_fmap_ext; [exact Huniq|].
    intros _ x _. simpl. by destruct (has_file_id fid x).
  - apply find_file_id_None in Hfind.
    rewrite /unique_file_id fmap_app /=. apply NoDup_app.
    split; [done|]. split; [|apply NoDup_singleton].
    intros x (r0 & Hx & Hr)%list_elem_of_fmap Hfidx%list_elem_of_singleton.
    eapply Forall_forall in Hfind; [|done]. congruence.
Qed.

(** The rows under the key after an upsert that returned. *)
Lemma execute_insert_one_row data st fid rows doc_id st' :
  documents st = Some rows →
  data !! "file_id" = Some (VStr fid) →
  unique_file_id rows →
  execute_insert data st = (Ret doc_id, st') →
  ∃ rows' r,
    documents st' = Some rows'
    ∧ filter (λ r, file_id r = fid) rows' = [r]
    ∧ row_id r = doc_id
    ∧ updated_at r = clock st
    ∧ match filter (λ r, file_id r = fid) rows with
      | [] => r = proposed_row fid data st
      | old :: _ => r = do_update (proposed_row fid data st) old (clock st)
      end.
Proof.
  intros Hrows Hfid Huniq Hexec.
  destruct (execute_insert_rows _ _ _ _ _ _ Hrows Hfid Hexec)
    as (_ & _ & Hcase).
  destruct (List.find (has_file_id fid) rows) as [existing|] eqn:Hfind.
  - destruct Hcase as [-> Hdocs].
    destruct (filter_file_id_unique fid rows Huniq) as [old Hold];
      [by eapply find_file_id_Some|].
    pose proof (find_of_filter _ _ _ Hold) as Hfind'.
    rewrite Hfind in Hfind'. injection Hfind' as ->.
    eexists _, _. split; [done|].
    rewrite filter_file_id_updated // Hold /=. by split_and!.
  - destruct Hcase as [-> Hdocs]. apply find_file_id_None in Hfind.
    eexists _, _. split; [done|].
    rewrite filter_app filter_file_id_absent // filter_cons_True //.
Qed.

(** C4. Persisting is an upsert keyed by [file_id].  When
    [insert_document] returns an id: if no row has the document's
    [file_id], the proposed row is appended, with both timestamps set to
    the time of the call; otherwise the table keeps its length and each
    row under that key is changed in [title], [publication_date],
    [extracted_text_path], [text_length] and [updated_at] only ([id],
    [file_id], [file_name], [slack_url], [message_ts], [message_text],
    [file_size] and [processed_at] stay), every other row staying as it
    is.  And when the same document is upserted a second time, later, in a
    table that honours the [UNIQUE] constraint: after each of the two
    calls there is exactly one row under the key; the second call returns
    the same id; it leaves [processed_at] as the first call left it, and
    [updated_at] moves from the time of the first call to the later time
    of the second. *)
Theorem insert_document_upsert document st doc_id st' :
  insert_document document st = (Ret (Some doc_id), st') →
  ∃ fid data rows rows',
    document !! "file_id" = Some (VStr fid)
    ∧ doc_data document = Ret data
    ∧ documents st = Some rows
    ∧ documents st' = Some rows'
    ∧ (Forall (λ r, file_id r ≠ fid) rows →
       rows' = rows ++ [proposed_row fid data st]
       ∧ doc_id = row_id (proposed_row fid data st)
       ∧ processed_at (proposed_row fid data st) = clock st
       ∧ updated_at (proposed_row fid data st) = clock st)
    ∧ (Exists (λ r, file_id r = fid) rows →
       length rows' = length rows
       ∧ ∀ i r, rows !! i = Some r →
           ∃ r', rows' !! i = Some r'
             ∧ (file_id r ≠ fid → r' = r)
             ∧ (file_id r = fid →
                  title r' = get document "title" VNone
                  ∧ publication_date r' = get document "publication_date" VNone
                  ∧ extracted_text_path r'
                    = VStr (py_str (get document "text_file_path" (VStr "")))
                  ∧ text_length r' = get document "text_length" (VInt 0)
                  ∧ updated_at r' = clock st
                  ∧ row_id r' = row_id r
                  ∧ file_id r' = file_id r
                  ∧ file_name r' = file_name r
                  ∧ slack_url r' = slack_url r
                  ∧ message_ts r' = message_ts r
                  ∧ message_text r' = message_text r
                  ∧ file_size r' = file_size r
                  ∧ processed_at r' = processed_at r))
    ∧ (unique_file_id rows →
       ∀ t2 doc_id2 st'',
         clock st < t2 →
         insert_document document (at_time t2 st') = (Ret (Some doc_id2), st'') →
         ∃ rows'' r1 r2,
           documents st'' = Some rows''
           ∧ filter (λ r, file_id r = fid) rows' = [r1]
           ∧ filter (λ r, file_id r = fid) rows'' = [r2]
           ∧ doc_id2 = doc_id
           ∧ row_id r2 = row_id r1
           ∧ processed_at r2 = processed_at r1
           ∧ updated_at r1 = clock st
           ∧ updated_at r2 = t2
           ∧ updated_at r1 < updated_at r2).
Proof.
  intros (data & fid & rows & Hup & Hdata & Hdoc & Hfid & Hrows & Hacc & Hexec)
    %insert_document_success.
  destruct (execute_insert_rows _ _ _ _ _ _ Hrows Hfid Hexec)
    as (Hup' & Hclock' & Hcase).
  assert (∃ rows', documents st' = Some rows') as [rows' Hrows'].
  { destruct (List.find _ rows); destruct Hcase as [_ ->]; by eexists. }
  exists fid, data, rows, rows'. split_and!; try done.
  - intros Habsent%find_file_id_None. rewrite Habsent in Hcase.
    destruct Hcase as [-> Hdocs]. rewrite Hdocs in Hrows'.
    by injection Hrows' as <-.
  - intros Hpresent.
    destruct (List.find (has_file_id fid) rows) as [existing|] eqn:Hfind.
    2:{ apply find_file_id_None in Hfind. apply Exists_exists in Hpresent
          as (r & Hr & Hrfid). by eapply Forall_forall in Hfind. }
    destruct Hcase as [-> Hdocs]. rewrite Hdocs in Hrows'.
    injection Hrows' as <-. split; [by rewrite length_fmap|].
    intros i r Hi. eexists. split; [by apply lookup_updated|].
    split.
    + intros Hne. by rewrite decide_False.
    + intros Heq. rewrite decide_True //=.
      move: Hdata. rewrite /doc_data /item Hdoc.
      destruct (document !! "file_name") as [name|]; [|done].
      intros [= <-]. rewrite /get. by split_and!.
  - intros Huniq t2 doc_id2 st'' Hlater
      (data2 & fid2 & rows1 & _ & Hdata2 & Hdoc2 & Hfid2 & Hrows1 & _ & Hexec2)
      %insert_document_success.
    rewrite Hdoc in Hdoc2. injection Hdoc2 as <-.
    rewrite /= Hrows' in Hrows1. injection Hrows1 as <-.
    destruct (execute_insert_one_row _ _ _ _ _ _ Hrows Hfid Huniq Hexec)
      as (rows1 & r1 & Hrows1 & Hone1 & Hid1 & Hupd1 & _).
    rewrite Hrows' in Hrows1. injection Hrows1 as <-.
    pose proof (execute_insert_unique _ _ _ _ _ _ _
                  Hrows Hfid Hexec Hrows' Huniq) as Huniq'.
    destruct (execute_insert_one_row data2 (at_time t2 st') fid rows' doc_id2 st''
                Hrows' Hfid2 Huniq' Hexec2)
      as (rows'' & r2 & Hrows'' & Hone2 & Hid2 & Hupd2 & Hr2).
    rewrite Hone1 in Hr2. exists rows'', r1, r2.
    subst r2. simpl in *. split_and!; try done; lia.
Qed.

(** C10. [document_exists] never raises: it returns a boolean in every
    store, and the boolean is [False] whenever the connection or the query
    fails, so that an unreachable store answers as a reachable one answers
    for a document it does not hold. *)
Theorem document_exists_never_raises fid st :
  ∃ b,
    document_exists fid st = (Ret b, st)
    ∧ (up st = false ∨ documents st = None → b = false)
    ∧ (∀ rows, up st = true → documents st = Some rows →
         b = existsb (λ r, py_eq_str fid (file_id r)) rows)
    ∧ (up st = false →
       ∀ st0 rows,
         up st0 = true → documents st0 = Some rows →
         Forall (λ r, py_eq_str fid (file_id r) = false) rows →
         (document_exists fid st).1 = (document_exists fid st0).1).
Proof.
  rewrite /document_exists /try_except /bind /get_connection /select_exists.
  destruct (up st) eqn:Hup; [destruct (documents st) as [rows|] eqn:Hrows|].
  - eexists. split; [done|]. split_and!; [by intros [?|?]| |done].
    by intros ? _ [= <-].
  - exists false. split; [done|]. by split_and!.
  - exists false. split; [done|]. split_and!; [done..|].
    intros _ st0 rows -> -> Hnone. simpl. symmetry.
    induction Hnone as [|r rows Hr _ IH]; [done|]. by rewrite /= Hr.
Qed.

End persister.

(** ** The pool the pipeline builds *)

Section pool_size.
Import config pdf_processor.
Context `{rt : Runtime}.

(** C5, as the code has it.  The pool of the pipeline has the configured
    size: [main] passes [Config.MAX_WORKERS] to the constructor, which
    takes an explicit size as it is.  The size is
    [min(Config.MAX_WORKERS, cpu_count())] when the constructor is given
    none, and the pipeline's size equals that minimum exactly when the
    configured size does not exceed the CPU count. *)
Theorem pipeline_pool_size (cfg : Config) :
  max_workers (main.pdf_processor cfg) = MAX_WORKERS cfg
  ∧ max_workers (PDFProcessor_init cfg None)
    = Z.min (MAX_WORKERS cfg) cpu_count
  ∧ (max_workers (main.pdf_processor cfg) = Z.min (MAX_WORKERS cfg) cpu_count
     ↔ MAX_WORKERS cfg ≤ cpu_count).
Proof.
  rewrite /main.pdf_processor /PDFProcessor_init /=. split_and!; [done..|lia].
Qed.

End pool_size.

(** ** The properties on the concrete run *)

Section instances.
Import config metadata_extractor pdf_processor slack_client db_manager scenario.

(** Closes [lhs = rhs] by evaluating both sides in the virtual machine. *)
Ltac by_evaluation :=
  lazymatch goal with
  | |- @eq ?A _ ?rhs => vm_cast_no_check (@eq_refl A rhs)
  end.

(** C1 on a service that is always rate limited, with the default three
    attempts: three requests, sleeps of one and two seconds, the null
    pair. *)
Lemma extract_metadata_backoff_terminates_witness :
  ∃ w',
    extract_metadata (rt := runtime) (svc := always_rate_limited)
      "Annual Review" default_max_retries enricher_start
    = (Ret null_metadata, w')
    ∧ api_calls w' = 3%nat
    ∧ sleeps (log w') = [1000; 2000].
Proof.
  destruct (extract_metadata_backoff_terminates
              (rt := runtime) (svc := always_rate_limited)
              "Annual Review" default_max_retries enricher_start)
    as (w' & Hrun & Hlog & Hcalls & _); [by compute | done |].
  exists w'. split; [exact Hrun|]. split; [exact Hcalls|].
  rewrite Hlog. reflexivity.
Defined.

(** C6 on five documents, the third of which is answered with a page that
    is not JSON: five outputs, and the null pair at the third only. *)
Lemma malformed_response_isolated_witness :
  ∃ out w',
    process_files (rt := runtime) (svc := one_malformed)
      five_documents enricher_start = (Ret out, w')
    ∧ length out = 5%nat
    ∧ ∀ i o, out !! i = Some o → null_pair o ↔ i = 2%nat.
Proof.
  destruct (malformed_response_isolated
              (rt := runtime) (svc := one_malformed)
              five_documents enricher_start 2
              (extracted "F3" "scanned pages, no text layer")
              "scanned pages, no text layer")
    as [_ (out & w' & Hrun & Hlen & Hnull & _)].
  - repeat constructor; eexists; reflexivity.
  - reflexivity.
  - reflexivity.
  - discriminate.
  - intros n. exists "<html>Bad Gateway</html>".
    split; [reflexivity | left; reflexivity].
  - intros i f Hi Hf.
    destruct i as [|[|[|[|[|i]]]]]; try discriminate Hf; try (by destruct Hi);
      injection Hf as <-;
      (eexists _, (VStr "Annual Review"), (VStr "2024-01-01");
       split; [reflexivity|]; split; [discriminate|];
       split; [intros n; eexists _, _; repeat split; reflexivity|];
       intros [? _]; discriminate).
  - exists out, w'. split; [exact Hrun|]. split; [exact Hlen | exact Hnull].
Defined.

(** C9 on the same five documents: the call returns, and the first output
    keeps the [file_name] of the first input. *)
Lemma process_files_frame_witness :
  ∃ out w' o,
    process_files (rt := runtime) (svc := one_malformed)
      five_documents enricher_start = (Ret out, w')
    ∧ out !! 0%nat = Some o
    ∧ o !! "file_name" = Some (VStr "F1.pdf").
Proof.
  destruct (process_files_frame (rt := runtime) (svc := one_malformed)
              five_documents enricher_start) as [Hreturns Hframe].
  destruct Hreturns as (out & w' & Hrun).
  { repeat constructor; eexists; reflexivity. }
  destruct (Hframe out w' Hrun) as [Hlen Hat].
  destruct out as [|o out]; [discriminate Hlen|].
  exists (o :: out), w', o. split; [exact Hrun|]. split; [reflexivity|].
  destruct (Hat 0%nat (extracted "F1" "Report 2024, Title: Annual Review") o
              eq_refl eq_refl) as (_ & _ & Hkeep).
  rewrite Hkeep; [reflexivity | discriminate | discriminate].
Defined.

(** C2 on three files whose workers finish in the order third, first,
    second. *)
Lemma process_pdfs_preserves_order_witness :
  ∃ out d',
    process_pdfs (rt := runtime) (host := all_writable)
      {| max_workers := 4 |} three_files [2; 0; 1]%nat ∅ = Some (Ret out, d')
    ∧ length out = 3%nat
    ∧ out !! 0%nat
      = Some (processed (rt := runtime) (host := all_writable)
                (downloaded "F1") "pdfs/F1_report.pdf").
Proof.
  destruct (process_pdfs_preserves_order
              (rt := runtime) (host := all_writable)
              {| max_workers := 4 |} three_files [2; 0; 1]%nat ∅)
    as (out & d' & Hrun & Hlen & Hat).
  - simpl. lia.
  - repeat constructor; eexists; reflexivity.
  - simpl. etrans; [apply perm_swap|]. apply perm_skip, perm_swap.
  - exists out, d'. split; [exact Hrun|]. split; [exact Hlen|].
    destruct (Hat 0%nat (downloaded "F1") eq_refl) as (p & Hp & Hout & _).
    injection Hp as <-. exact Hout.
Defined.

(** C3 on an empty disk: the first call fetches the file, the second
    returns the same path in the same world, with the one request of the
    first call and the one file. *)
Lemma download_pdf_idempotent_witness :
  download_pdf (rt := runtime) (host := all_writable) (net := one_unreachable)
    slack (attachment "F1") "pdfs" empty_disk
  = (Ret "pdfs/F1_report.pdf", one_file)
  ∧ download_pdf (rt := runtime) (host := all_writable) (net := one_unreachable)
      slack (attachment "F1") "pdfs" one_file
    = (Ret "pdfs/F1_report.pdf", one_file)
  ∧ requests one_file = [VStr "https://files.example/F1"]
  ∧ size (on_disk one_file) = 1%nat.
Proof.
  assert (Hfirst :
    download_pdf (rt := runtime) (host := all_writable) (net := one_unreachable)
      slack (attachment "F1") "pdfs" empty_disk
    = (Ret "pdfs/F1_report.pdf", one_file)) by by_evaluation.
  destruct (download_pdf_idempotent
              (rt := runtime) (host := all_writable) (net := one_unreachable)
              slack
              {[ "id" := VStr "F1"; "name" := VStr "report.pdf";
                 "mimetype" := VStr "application/pdf";
                 "url_private" := VStr "https://files.example/F1" ]}
              "pdfs" (VStr "F1") (VStr "https://files.example/F1") empty_disk)
    as (_ & _ & Htwice); [by vm_compute | by vm_compute |].
  destruct (Htwice _ _ Hfirst)
    as (_ & _ & _ & Hone & w2 & Hsecond & Hreq & Hdisk).
  split; [exact Hfirst|]. split; [|split; [reflexivity | exact (Hone eq_refl)]].
  unfold attachment. rewrite Hsecond. f_equal.
  destruct w2 as [disk2 requests2]. simpl in Hreq, Hdisk. by subst.
Defined.


(** C4 on an empty table: the document is inserted at time 100 under id 1
    and upserted again at time 200; one row, the same id, inserted at 100,
    updated at 200. *)
Lemma insert_document_upsert_witness :
  ∃ st1 st2 rows r,
    insert_document (rt := runtime) (pg := permissive)
      enriched_document empty_store = (Ret (Some 1), st1)
    ∧ insert_document (rt := runtime) (pg := permissive)
        enriched_document (at_time 200 st1) = (Ret (Some 1), st2)
    ∧ documents st2 = Some rows
    ∧ filter (λ r, file_id r = "F1") rows = [r]
    ∧ processed_at r = 100
    ∧ updated_at r = 200.
Proof.
  destruct (insert_document_upsert (rt := runtime) (pg := permissive)
              enriched_document empty_store 1 _ eq_refl)
    as (fid & data & rows & rows' & Hfid & _ & Hrows & Hrows' & Hins & _ & Htwice).
  injection Hfid as <-. injection Hrows as <-.
  destruct (Htwice (NoDup_nil_2 : unique_file_id []) 200 1 _ ltac:(simpl; lia) eq_refl)
    as (rows'' & r1 & r2 & Hdocs & Hone1 & Hone2 & _ & _ & Hproc & _ & Hupd & _).
  eexists _, _, rows'', r2. split; [reflexivity|]. split; [reflexivity|].
  split; [exact Hdocs|]. split; [exact Hone2|]. split; [|exact Hupd].
  rewrite Hproc.
  destruct (Hins ltac:(constructor)) as (-> & _).
  simpl in Hone1. injection Hone1 as <-. reflexivity.
Defined.

(** C5, as the claim states it, fails on a machine with four CPUs and
    eight configured workers: the pool of the pipeline has eight
    workers, and the minimum of the two is four. *)
Lemma pipeline_pool_size_exceeds_cpu_count :
  max_workers (main.pdf_processor (rt := runtime) eight_workers) = 8
  ∧ Z.min (MAX_WORKERS eight_workers) (cpu_count (Runtime := runtime)) = 4.
Proof. split; reflexivity. Qed.

(** *** The code run on the concrete inputs *)

(** A worker joins the pages with newlines and names the sidecar after
    the PDF. *)
Example process_single_pdf_report :
  (process_single_pdf (rt := runtime) (host := all_writable)
     (downloaded "F1") ∅).1
  = Ret (<["text_length" := VInt 32]>
         (<["text_file_path" := VPath "pdfs/F1_report.txt"]>
          (<["extracted_text" :=
               VStr ("Report 2024" +:+ nl +:+ "Title: Annual Review")]>
           (downloaded "F1")))).
Proof. by_evaluation. Qed.

(** A PDF that cannot be read degrades to the empty text. *)
Example extract_text_from_pdf_unreadable :
  extract_text_from_pdf (host := all_writable) "pdfs/F2_report.pdf" = "".
Proof. reflexivity. Qed.

(** An argument that starts with [C] is taken for an id: the channel list
    is not consulted. *)
Example fetch_messages_by_id :
  fetch_messages (api := two_channels) 10 "C02" 100 = Some (Ret []).
Proof. by_evaluation. Qed.

(** A name of the list is resolved to its id. *)
Example get_channel_id_research :
  get_channel_id (api := two_channels) "research" = Ret (VStr "C02").
Proof. by_evaluation. Qed.

(** A file that cannot be fetched: the request is issued, the exception
    leaves [download_pdf], and nothing is written. *)
Example download_pdf_unreachable :
  download_pdf (rt := runtime) (host := all_writable) (net := one_unreachable)
    slack (attachment "F2") "pdfs" empty_disk
  = (Raise RequestException,
     {| on_disk := ∅; requests := [VStr "https://files.example/F2"] |}).
Proof. by_evaluation. Qed.

(** An empty text is not sent to the service. *)
Example process_files_empty_text :
  process_files (rt := runtime) (svc := one_malformed)
    [extracted "F9" ""] enricher_start
  = (Ret [null_metadata ∪ extracted "F9" ""], enricher_start).
Proof. by_evaluation. Qed.

(** A store that is down: no id, no exception, and the document looks
    absent. *)
Example insert_document_store_down :
  insert_document (rt := runtime) (pg := permissive) enriched_document
    {| up := false; documents := Some []; serial := 1; clock := 100 |}
  = (Ret None,
     {| up := false; documents := Some []; serial := 1; clock := 100 |}).
Proof. reflexivity. Qed.

Lemma two_messages_fetched : Forall fetched_message two_messages.
Proof.
  apply Forall_cons. split; [right; eexists; reflexivity|].
  apply Forall_cons. split; [right; eexists; reflexivity | constructor].
Qed.

(** C7 on two messages with three attachments, the second of which cannot
    be fetched: three attempts, two records. *)
Lemma download_all_pdfs_isolates_failures_witness :
  ∃ results w',
    download_all_pdfs (rt := runtime) (host := all_writable)
      (net := one_unreachable) slack two_messages "pdfs" empty_disk
    = (Ret (omap id results), w')
    ∧ length results = 3%nat
    ∧ omap id results
      = [ report_record "F1" "1700000000.000100" "two reports";
          report_record "F3" "1700000000.000200" "one more" ].
Proof.
  destruct (download_all_pdfs_isolates_failures
              (rt := runtime) (host := all_writable) (net := one_unreachable)
              slack two_messages "pdfs" empty_disk two_messages_fetched)
    as (results & w' & Hrun & _ & Hlen & _).
  exists results, w'. split; [exact Hrun|]. split; [exact Hlen|].
  assert (Hout :
    (download_all_pdfs (rt := runtime) (host := all_writable)
       (net := one_unreachable) slack two_messages "pdfs" empty_disk).1
    = Ret [ report_record "F1" "1700000000.000100" "two reports";
            report_record "F3" "1700000000.000200" "one more" ])
    by by_evaluation.
  rewrite Hrun in Hout. by injection Hout.
Defined.

(** C7, as the claim states it, fails on two messages that share one
    file: the file is downloaded once, by one request, and appears twice
    in the output. *)
Lemma download_all_pdfs_shared_file_appears_twice :
  download_all_pdfs (rt := runtime) (host := all_writable) (net := reliable)
    slack shared_twice "pdfs" empty_disk
  = (Ret [ report_record "F1" "1700000000.000100" "the report";
           report_record "F1" "1700000000.000500" "the report again" ],
     one_file)
  ∧ report_record "F1" "1700000000.000100" "the report" !! "file_id"
    = report_record "F1" "1700000000.000500" "the report again" !! "file_id"
  ∧ requests one_file = [VStr "https://files.example/F1"]
  ∧ size (on_disk one_file) = 1%nat.
Proof. split; [by_evaluation|]. split; [reflexivity|]. split; reflexivity. Qed.

End instances.

(* ===================================================================== *)
(** * Part III.  Further properties of the code                           *)
(* ===================================================================== *)

(** ** The Enricher: retries, bounds and skipped documents *)

Section enricher_retries.
Import metadata_extractor.
Context `{rt : Runtime} `{svc : InferenceService}.

(** A failed attempt that is retried: the call, the sleep, the next
    attempt. *)
Lemma attempts_loop_retried text max_retries attempt rest e w :
  chat_completions_create (api_calls w) system_prompt (user_prompt text)
    = Raise e →
  is_APIError e = true →
  attempt < max_retries - 1 →
  attempts_loop (user_prompt text) max_retries (attempt :: rest) w
  = attempts_loop (user_prompt text) max_retries rest
      {| api_calls := S (api_calls w);
         log := log w ++ [ApiCall (user_prompt text);
                          Sleep (retry_delay e attempt)] |}.
Proof.
  intros Hc He Hlt. apply Z.ltb_lt in Hlt.
  rewrite [attempts_loop _ _ (_ :: _)]/= /try_except.
  rewrite (attempt_body_raises _ e) // /retry_delay Hlt.
  destruct (is_RateLimitError e); [|rewrite He];
    by rewrite /bind /sleep /modify /= -app_assoc.
Qed.

(** The last attempt fails: the null pair, and no sleep. *)
Lemma attempts_loop_exhausted text max_retries attempt rest e w :
  chat_completions_create (api_calls w) system_prompt (user_prompt text)
    = Raise e →
  max_retries - 1 ≤ attempt →
  attempts_loop (user_prompt text) max_retries (attempt :: rest) w
  = (Ret null_metadata,
     {| api_calls := S (api_calls w);
        log := log w ++ [ApiCall (user_prompt text)] |}).
Proof.
  intros Hc Hge. apply Z.ltb_ge in Hge.
  rewrite [attempts_loop _ _ (_ :: _)]/= /try_except.
  rewrite (attempt_body_raises _ e) // Hge.
  destruct (is_RateLimitError e); [done|].
  destruct (is_APIError e); [done|]. by destruct (is_JSONDecodeError e).
Qed.

Lemma attempts_loop_retries text max_retries errors (k : nat) rest w :
  Forall (λ e, is_APIError e = true) errors →
  (∀ j e, errors !! j = Some e →
     chat_completions_create (api_calls w + j) system_prompt (user_prompt text)
     = Raise e) →
  Z.of_nat (k + length errors) ≤ max_retries - 1 →
  attempts_loop (user_prompt text) max_retries
    ((Z.of_nat <$> seq k (length errors)) ++ rest) w
  = attempts_loop (user_prompt text) max_retries rest
      {| api_calls := api_calls w + length errors;
         log := log w ++ retry_log text (Z.of_nat k) errors |}.
Proof.
  intros Herrs. revert k w.
  induction Herrs as [|e errors He _ IH]; intros k w Hsvc Hk.
  { by rewrite /= Nat.add_0_r app_nil_r world_eta. }
  rewrite [length _]/= [seq _ _]/= fmap_cons -app_comm_cons.
  rewrite (attempts_loop_retried _ _ _ _ e) //.
  - rewrite IH.
    + f_equal. rewrite /= -app_assoc /= Nat2Z.inj_succ -Z.add_1_r.
      f_equal. lia.
    + intros j e' Hj. rewrite -(Hsvc (S j) e' Hj) /=. f_equal. lia.
    + simpl in Hk. lia.
  - rewrite -(Hsvc 0%nat e eq_refl). f_equal. lia.
  - simpl in Hk. lia.
Qed.

(** An attempt that is answered with a JSON object ends the loop. *)
Lemma attempts_loop_answered text max_retries attempt rest c d w :
  chat_completions_create (api_calls w) system_prompt (user_prompt text)
    = Ret (Some c) →
  json_loads c = Ret (VDict d) →
  attempts_loop (user_prompt text) max_retries (attempt :: rest) w
  = (Ret {[ "title" := get d "title" VNone;
            "publication_date" := get d "publication_date" VNone ]},
     {| api_calls := S (api_calls w);
        log := log w ++ [ApiCall (user_prompt text)] |}).
Proof.
  intros Hc Hj. rewrite [attempts_loop _ _ (_ :: _)]/= /try_except.
  rewrite /attempt_body /bind /create /lift Hc Hj //.
Qed.

Lemma range_split (k n : nat) :
  (k ≤ n)%nat →
  range (Z.of_nat n)
  = (Z.of_nat <$> seq 0 k) ++ (Z.of_nat <$> seq k (n - k)).
Proof.
  intros Hk. rewrite range_nonneg -fmap_app -(seq_app k (n - k) 0).
  by replace (k + (n - k))%nat with n by lia.
Qed.

Lemma sleeps_app l1 l2 : sleeps (l1 ++ l2) = sleeps l1 ++ sleeps l2.
Proof. apply omap_app. Qed.

Lemma calls_app l1 l2 : calls (l1 ++ l2) = calls l1 ++ calls l2.
Proof. apply omap_app. Qed.

Lemma calls_retry_log text attempt errors :
  calls (retry_log text attempt errors)
  = replicate (length errors) (user_prompt text).
Proof.
  revert attempt. induction errors as [|e errors IH]; intros attempt; [done|].
  cbn [retry_log length replicate]. by rewrite calls_call calls_sleep IH.
Qed.

Lemma sleeps_retry_log text attempt errors :
  sleeps (retry_log text attempt errors)
  = imap (λ j e, retry_delay e (attempt + Z.of_nat j)) errors.
Proof.
  revert attempt. induction errors as [|e errors IH]; intros attempt; [done|].
  cbn [retry_log imap]. rewrite sleeps_call sleeps_sleep IH Z.add_0_r. f_equal.
  apply imap_ext. intros j e' _. simpl. f_equal. lia.
Qed.

Lemma imap_replicate_const {A B} (f : nat → A → B) (a : A) (b : B) n :
  (∀ j, f j a = b) → imap f (replicate n a) = replicate n b.
Proof.
  revert f. induction n as [|n IH]; intros f Hf; [done|].
  rewrite /= Hf. f_equal. apply IH. intros j. apply Hf.
Qed.

(** X1: a transient failure is survived.  When the first [k] attempts fail
    with API errors (rate limits or others), [k] being less than
    [max_retries], and the next request is answered with a JSON object,
    [extract_metadata] returns the [title] and the [publication_date] of
    that object after [k + 1] requests, having slept after each failure:
    [2 ** attempt] seconds after a rate limit, two seconds after another
    API error. *)
Theorem extract_metadata_recovers text max_retries errors c d w :
  Forall (λ e, is_APIError e = true) errors →
  Z.of_nat (length errors) < max_retries →
  (∀ j e, errors !! j = Some e →
     chat_completions_create (api_calls w + j) system_prompt (user_prompt text)
     = Raise e) →
  chat_completions_create (api_calls w + length errors) system_prompt
    (user_prompt text) = Ret (Some c) →
  json_loads c = Ret (VDict d) →
  ∃ w',
    extract_metadata text max_retries w
    = (Ret {[ "title" := get d "title" VNone;
              "publication_date" := get d "publication_date" VNone ]}, w')
    ∧ api_calls w' = (api_calls w + length errors + 1)%nat
    ∧ log w' = log w ++ retry_log text 0 errors ++ [ApiCall (user_prompt text)]
    ∧ sleeps (retry_log text 0 errors ++ [ApiCall (user_prompt text)])
      = imap (λ j e, retry_delay e (Z.of_nat j)) errors.
Proof.
  intros Herrs Hlt Hfail Hc Hj.
  assert (∃ N, max_retries = Z.of_nat N) as [N ->]
    by (exists (Z.to_nat max_retries); lia).
  eexists. split_and!.
  - rewrite /extract_metadata (range_split (length errors) N); [|lia].
    rewrite attempts_loop_retries //; [|lia].
    destruct (N - length errors)%nat as [|m] eqn:Hm; [lia|].
    rewrite [seq _ (S m)]/= fmap_cons.
    by rewrite (attempts_loop_answered _ _ _ _ c d).
  - simpl. lia.
  - by rewrite /= -app_assoc.
  - rewrite sleeps_app sleeps_retry_log /= app_nil_r.
    by apply imap_ext.
Qed.

(** X2: the fixed delay of the other API errors.  When every attempt for a
    document fails with an API error that is not a rate limit,
    [extract_metadata] returns the null pair after exactly [max_retries]
    requests, with a sleep of two seconds after each attempt but the
    last. *)
Theorem extract_metadata_api_error_fixed_delay text max_retries e w :
  0 ≤ max_retries →
  is_APIError e = true →
  is_RateLimitError e = false →
  (∀ n, chat_completions_create n system_prompt (user_prompt text) = Raise e) →
  ∃ w' new,
    extract_metadata text max_retries w = (Ret null_metadata, w')
    ∧ log w' = log w ++ new
    ∧ api_calls w' = (api_calls w + Z.to_nat max_retries)%nat
    ∧ calls new = replicate (Z.to_nat max_retries) (user_prompt text)
    ∧ sleeps new = replicate (Z.to_nat max_retries - 1) 2000.
Proof.
  intros Hn He Hnrl Hsvc.
  assert (∃ N, max_retries = Z.of_nat N) as [N ->]
    by (exists (Z.to_nat max_retries); lia).
  rewrite Nat2Z.id. destruct N as [|N].
  { exists w, []. rewrite /extract_metadata /= /ret app_nil_r Nat.add_0_r.
    by split_and!. }
  exists {| api_calls := S (api_calls w + N);
            log := (log w ++ retry_log text 0 (replicate N e))
                     ++ [ApiCall (user_prompt text)] |},
    (retry_log text 0 (replicate N e) ++ [ApiCall (user_prompt text)]).
  split_and!.
  - rewrite /extract_metadata (range_split N (S N)); [|lia].
    replace (S N - N)%nat with 1%nat by lia.
    pose proof (attempts_loop_retries text (Z.of_nat (S N)) (replicate N e)
                  0 (Z.of_nat <$> seq N 1) w) as Hloop.
    rewrite length_replicate in Hloop. rewrite Hloop.
    + rewrite [seq N 1]/= fmap_cons (attempts_loop_exhausted _ _ _ _ e) //.
      lia.

    + by apply Forall_replicate.
    + intros j e' [-> _]%lookup_replicate. apply Hsvc.
    + lia.
  - by rewrite /= app_assoc.
  - simpl. lia.
  - rewrite calls_app calls_retry_log length_replicate /=.
    by rewrite -replicate_S_end.
  - rewrite sleeps_app sleeps_retry_log /= app_nil_r Nat.sub_0_r.
    apply imap_replicate_const. intros j. by rewrite /retry_delay Hnrl.
Qed.

(** *** What the loop may do, whatever the service does *)

Lemma dom_pair (t p : value) :
  dom ({[ "title" := t; "publication_date" := p ]} : dict)
  = {[ "title"; "publication_date" ]}.
Proof. by rewrite dom_insert_L dom_singleton_L. Qed.

Lemma loop_effects_one_call usr budget w w1 md :
  log w1 = log w ++ [ApiCall usr] →
  api_calls w1 = S (api_calls w) →
  dom md = {[ "title"; "publication_date" ]} →
  loop_effects usr (S budget) w w1 md.
Proof.
  intros Hlog Hcalls Hdom. exists [ApiCall usr].
  rewrite calls_call sleeps_call /=.
  split_and!; try done; try lia. by repeat constructor.
Qed.

Lemma loop_effects_retry usr budget w w1 w' ms md :
  log w1 = log w ++ [ApiCall usr; Sleep ms] →
  api_calls w1 = S (api_calls w) →
  1000 ≤ ms →
  loop_effects usr budget w1 w' md →
  loop_effects usr (S budget) w w' md.
Proof.
  intros Hlog Hcalls Hms (new & Hdom & Hlog' & Hcalls' & Hlen & Hp & Hs).
  exists (ApiCall usr :: Sleep ms :: new).
  rewrite calls_call calls_sleep sleeps_call sleeps_sleep.
  split_and!; try done.
  - by rewrite Hlog' Hlog -app_assoc.
  - rewrite Hcalls' Hcalls /=. lia.
  - simpl. lia.
  - by constructor.
  - by constructor.
Qed.

Lemma two_pow_ge_1 (attempt : Z) : 0 ≤ attempt → 1000 ≤ 1000 * 2 ^ attempt.
Proof. intros Hpos. pose proof (Z.pow_pos_nonneg 2 attempt). lia. Qed.

Lemma attempt_body_world usr w r w1 :
  attempt_body usr w = (r, w1) →
  log w1 = log w ++ [ApiCall usr]
  ∧ api_calls w1 = S (api_calls w).
Proof.
  intros Hbody. apply (f_equal snd) in Hbody. move: Hbody.
  rewrite /attempt_body /bind /create /lift /ret.
  destruct (chat_completions_create _ _ _) as [[c|]|]; simpl;
    [|by intros <-..].
  destruct (json_loads c) as [result|]; simpl; [|by intros <-].
  destruct (dot_get result "title" VNone); simpl; [|by intros <-].
  destruct (dot_get result "publication_date" VNone); simpl; by intros <-.
Qed.

Lemma attempts_loop_effects usr max_retries attempts w :
  Forall (λ attempt, 0 ≤ attempt) attempts →
  ∃ md w',
    attempts_loop usr max_retries attempts w = (Ret md, w')
    ∧ loop_effects usr (length attempts) w w' md.
Proof.
  intros Hpos. revert w.
  induction Hpos as [|attempt rest Hattempt _ IH]; intros w.
  { exists null_metadata, w. split; [done|]. exists [].
    rewrite /= app_nil_r Nat.add_0_r. by split_and!. }
  rewrite [attempts_loop _ _ (_ :: _)]/= /try_except.
  destruct (attempt_body usr w) as [[md|e] w1] eqn:Hbody.
  - exists md, w1. split; [done|].
    pose proof Hbody as (t & p & ->)%attempt_body_shape.
    apply attempt_body_world in Hbody as [Hlog Hcalls].
    by apply loop_effects_one_call; [..|apply dom_pair].
  - pose proof (attempt_body_world _ _ _ _ Hbody) as [Hlog Hcalls].
    assert (Hnull : ∃ md w',
              @ret world _ null_metadata w1 = (Ret md, w')
              ∧ loop_effects usr (S (length rest)) w w' md).
    { exists null_metadata, w1. split; [done|].
      by apply loop_effects_one_call; [..|apply dom_pair]. }
    assert (Hnext : ∀ ms, 1000 ≤ ms → ∃ md w',
              (sleep ms;; attempts_loop usr max_retries rest) w1 = (Ret md, w')
              ∧ loop_effects usr (S (length rest)) w w' md).
    { intros ms Hms. rewrite /bind /sleep /modify.
      destruct (IH {| api_calls := api_calls w1; log := log w1 ++ [Sleep ms] |})
        as (md & w' & -> & Heff).
      exists md, w'. split; [done|].
      eapply (loop_effects_retry _ _ _ _ _ ms); [| |done|exact Heff].
      - by rewrite /= Hlog -app_assoc.
      - done. }
    simpl.
    destruct (is_RateLimitError e).
    { destruct (_ <? _); [|done]. by apply Hnext, two_pow_ge_1. }
    destruct (is_APIError e).
    { destruct (_ <? _); [|done]. by apply Hnext. }
    by destruct (is_JSONDecodeError e).
Qed.

Lemma range_nonnegative (n : Z) : Forall (λ attempt, 0 ≤ attempt) (range n).
Proof.
  rewrite /range. apply Forall_fmap, Forall_forall. intros k _. simpl. lia.
Qed.

Lemma length_range (n : Z) : length (range n) = Z.to_nat n.
Proof. by rewrite /range length_fmap length_seq. Qed.

Lemma extract_metadata_effects text max_retries w :
  ∃ md w',
    extract_metadata text max_retries w = (Ret md, w')
    ∧ loop_effects (user_prompt text) (Z.to_nat max_retries) w w' md.
Proof.
  destruct (attempts_loop_effects (user_prompt text) max_retries
              (range max_retries) w
              (range_nonnegative _)) as (md & w' & Hrun & Heff).
  rewrite length_range in Heff. by exists md, w'.
Qed.

(** X3: [extract_metadata] never raises and stays within its budget.
    Whatever the service answers or raises, the call returns a dictionary
    with exactly the keys [title] and [publication_date]; it requests at
    most [max_retries] completions, all of them with this document's
    prompt, and each of its sleeps lasts a second or more.  With
    [max_retries] zero or less it returns the null pair without a
    request. *)
Theorem extract_metadata_never_raises text max_retries w :
  (∃ md w' new,
     extract_metadata text max_retries w = (Ret md, w')
     ∧ dom md = {[ "title"; "publication_date" ]}
     ∧ log w' = log w ++ new
     ∧ api_calls w' = (api_calls w + length (calls new))%nat
     ∧ (length (calls new) ≤ Z.to_nat max_retries)%nat
     ∧ Forall (λ p, p = user_prompt text) (calls new)
     ∧ Forall (λ ms, 1000 ≤ ms) (sleeps new))
  ∧ (max_retries ≤ 0 →
     extract_metadata text max_retries w = (Ret null_metadata, w)).
Proof.
  split.
  - destruct (attempts_loop_effects (user_prompt text) max_retries
                (range max_retries) w
                (range_nonnegative _))
      as (md & w' & Hrun & new & Hdom & Hlog & Hcalls & Hlen & Hp & Hs).
    rewrite length_range in Hlen. by exists md, w', new.
  - intros Hle. rewrite /extract_metadata /range.
    by replace (Z.to_nat max_retries) with 0%nat by lia.
Qed.

(** *** The requests and the delays of [process_files] *)

Lemma courtesy_delays_app l1 l2 :
  courtesy_delays (l1 ++ l2) = courtesy_delays l1 ++ courtesy_delays l2.
Proof. by rewrite /courtesy_delays sleeps_app filter_app. Qed.

Lemma courtesy_delays_backoff l :
  Forall (λ ms, 1000 ≤ ms) (sleeps l) → courtesy_delays l = [].
Proof.
  rewrite /courtesy_delays. induction 1 as [|ms mss Hms _ IH]; [done|].
  rewrite filter_cons_False //. lia.
Qed.

Lemma extract_metadata_any_str s max_retries :
  extract_metadata_any (VStr s) max_retries = extract_metadata s max_retries.
Proof. reflexivity. Qed.

Lemma extract_metadata_any_effects text max_retries w md w1 :
  extract_metadata_any text max_retries w = (Ret md, w1) →
  ∃ shown,
    shown_text text = Ret shown
    ∧ loop_effects (prompt_of shown) (Z.to_nat max_retries) w w1 md.
Proof.
  rewrite /extract_metadata_any /bind /lift.
  destruct (shown_text text) as [shown|]; [|done].
  destruct (attempts_loop_effects (prompt_of shown) max_retries
              (range max_retries) w (range_nonnegative _))
    as (md' & w' & -> & Heff).
  rewrite length_range in Heff. intros [= <- <-]. by exists shown.
Qed.

(** The effects of the head of the loop: its requests are for its own
    text, at most three, and none of its sleeps is a courtesy delay. *)
Lemma process_files_head_effects (f : dict) w md w1 :
  (if negb (truthy (get f "extracted_text" (VStr ""))) then ret null_metadata
   else match get f "extracted_text" (VStr "") with
        | VStr s => extract_metadata s default_max_retries
        | _ => extract_metadata_any (get f "extracted_text" (VStr ""))
                 default_max_retries
        end) w = (Ret md, w1) →
  ∃ new1,
    log w1 = log w ++ new1
    ∧ api_calls w1 = (api_calls w + length (calls new1))%nat
    ∧ own_requests f new1
    ∧ courtesy_delays new1 = [].
Proof.
  rewrite /own_requests /prompt_for.
  destruct (truthy (get f "extracted_text" (VStr ""))) eqn:Ht; simpl.
  - assert (∀ m : M world dict,
              m = extract_metadata_any (get f "extracted_text" (VStr ""))
                    default_max_retries →
              m w = (Ret md, w1) →
              ∃ new1,
                log w1 = log w ++ new1
                ∧ api_calls w1 = (api_calls w + length (calls new1))%nat
                ∧ ((length (calls new1) ≤ Z.to_nat default_max_retries)%nat
                   ∧ Forall (λ p,
                       match shown_text (get f "extracted_text" (VStr "")) with
                       | Ret shown => Some (prompt_of shown)
                       | Raise _ => None
                       end = Some p) (calls new1)
                   ∧ (true = false → calls new1 = []))
                ∧ courtesy_delays new1 = []) as Hany.
    { intros m -> (shown & Hshown & new1 & _ & Hlog & Hcalls & Hlen & Hp & Hs)
        %extract_metadata_any_effects.
      exists new1. rewrite Hshown.
      split_and!; [done|done|done| |done|by apply courtesy_delays_backoff].
      eapply Forall_impl; [exact Hp|]. by intros p ->. }
    destruct (get f "extracted_text" (VStr "")) as [| | |s| | |] eqn:Hg;
      by apply Hany.
  - intros Heq. apply (f_equal snd) in Heq. simpl in Heq. subst w1.
    exists []. rewrite app_nil_r Nat.add_0_r.
    split_and!; [done|done|simpl; lia|done|done|done].
Qed.

(** The effects of the loop of [process_files] on the files from number
    [i] on, the last of which has number [n]: the events of each file in
    turn. *)
Lemma process_files_loop_effects files n i acc w out w' :
  process_files_loop n i files acc w = (Ret out, w') →
  Z.of_nat (length files) + i = n + 1 →
  ∃ per_file,
    log w' = log w ++ concat per_file
    ∧ api_calls w' = (api_calls w + length (calls (concat per_file)))%nat
    ∧ Forall2 own_requests files per_file
    ∧ courtesy_delays (concat per_file) = replicate (length files - 1) 500.
Proof.
  revert i acc w. induction files as [|f rest IH]; intros i acc w.
  { intros Heq _. apply (f_equal snd) in Heq. simpl in Heq. subst w'.
    exists []. by rewrite /= app_nil_r Nat.add_0_r. }
  rewrite [process_files_loop _ _ (_ :: _) _]/= /bind /lift.
  destruct (item f "file_name") as [name|]; [|done].
  match goal with
  | |- context [match ?m w with _ => _ end] =>
      destruct (m w) as [[md|] w1] eqn:Hmd; [|done]
  end.
  apply process_files_head_effects in Hmd
    as (new1 & Hlog1 & Hcalls1 & Hown1 & Hc1).
  destruct (i <? n) eqn:Hin; intros Hrun Hn; rewrite [length (_ :: _)]/= in Hn.
  - apply Z.ltb_lt in Hin. move: Hrun. rewrite /sleep /modify.
    intros (per_file & Hlog2 & Hcalls2 & Hown2 & Hc2)%IH; [|lia].
    exists ((new1 ++ [Sleep 500]) :: per_file).
    rewrite concat_cons !calls_app !courtesy_delays_app Hc1 Hc2 !length_app.
    split_and!.
    + by rewrite Hlog2 /= Hlog1 -!app_assoc.
    + rewrite Hcalls2 /= Hcalls1 /=. lia.
    + constructor; [|done].
      destruct Hown1 as (Hlen & Hp & Hnone). rewrite /own_requests calls_app.
      change (calls [Sleep 500]) with (@nil string). rewrite app_nil_r.
      by split_and!.
    + destruct rest as [|f2 rest']; [simpl in Hn; lia|].
      by rewrite /= Nat.sub_0_r.
  - apply Z.ltb_ge in Hin. destruct rest as [|f2 rest']; [|simpl in Hn; lia].
    move: Hrun. rewrite /ret /=. intros Heq.
    apply (f_equal snd) in Heq. simpl in Heq. subst w'.
    exists [new1]. rewrite /= !app_nil_r. split_and!; [done|done| |done].
    constructor; [done|constructor].
Qed.

(** X4: a document without text never reaches the service, and no
    document is submitted more than three times.  Whenever
    [process_files] returns, its requests and sleeps are those of the
    input records, one record after the other; for each record there are
    at most three requests, every one of them with the prompt of that
    record, and there is none for a record whose [extracted_text] is
    missing or falsy (the empty text of an unreadable PDF). *)
Theorem process_files_skips_empty_text files w out w' :
  process_files files w = (Ret out, w') →
  ∃ per_file,
    log w' = log w ++ concat per_file
    ∧ api_calls w' = (api_calls w + length (calls (concat per_file)))%nat
    ∧ Forall2 own_requests files per_file.
Proof.
  intros (per_file & Hlog & Hcalls & Hown & _)%process_files_loop_effects;
    [|done].
  by exists per_file.
Qed.

(** X5: the courtesy delay.  Whenever [process_files] returns, it has slept
    half a second once between every two successive documents, and not
    after the last: [len(files) - 1] times in all, none for an empty
    list. *)
Theorem process_files_courtesy_delays files w out w' :
  process_files files w = (Ret out, w') →
  ∃ new,
    log w' = log w ++ new
    ∧ courtesy_delays new = replicate (length files - 1) 500.
Proof.
  intros (per_file & Hlog & _ & _ & Hc)%process_files_loop_effects; [|done].
  by exists (concat per_file).
Qed.

Lemma process_files_loop_key_error files n i acc w k f :
  files !! k = Some f →
  f !! "file_name" = None →
  Forall extracted_document (take k files) →
  ∃ w', process_files_loop n i files acc w = (Raise KeyError, w').
Proof.
  revert files n i acc w. induction k as [|k IH];
    intros [|f0 rest] n i acc w Hk Hname Hbefore; try done.
  - injection Hk as ->.
    rewrite [process_files_loop _ _ (_ :: _) _]/= /bind /lift /item Hname.
    by eexists.
  - rewrite firstn_cons in Hbefore.
    apply Forall_cons in Hbefore as [[[name Hf0] [s Hs]] Hbefore].
    rewrite [process_files_loop _ _ (_ :: _) _]/= /bind /lift /item Hf0.
    rewrite /get Hs.
    assert (∃ md w1,
      (if negb (truthy (VStr s)) then ret null_metadata
       else extract_metadata s default_max_retries) w = (Ret md, w1))
      as (md & w1 & ->).
    { destruct (truthy (VStr s)); simpl; [|by eexists _, _].
      destruct (extract_metadata_returns s default_max_retries w)
        as (md & w1 & -> & _). by eexists _, _. }
    destruct (i <? n); by apply IH.
Qed.

(** X6: a record without [file_name] aborts the batch.  When the records
    before it are well formed, [process_files] raises [KeyError] at the
    first record that has no [file_name] (the key is read for the log
    line, outside any [try]): no output list is returned, not even for the
    records already enriched. *)
Theorem process_files_missing_file_name files w k file_info :
  files !! k = Some file_info →
  file_info !! "file_name" = None →
  Forall extracted_document (take k files) →
  ∃ w', process_files files w = (Raise KeyError, w').
Proof. intros. by eapply process_files_loop_key_error. Qed.

(** *** The text that is sent *)

Lemma append_cons c (s t : string) : String c s +:+ t = String c (s +:+ t).
Proof. reflexivity. Qed.

Lemma append_empty_l (t : string) : "" +:+ t = t.
Proof. reflexivity. Qed.

Lemma py_len_take (n : nat) (s : string) :
  py_len (py_take n s) = (n `min` py_len s)%nat.
Proof.
  revert n. induction s as [|c s IH]; intros n; [by destruct n|].
  rewrite [py_take _ _]/= [py_len (String c s)]/=.
  destruct (continuation_byte c) eqn:Hc.
  - by rewrite /= Hc IH.
  - destruct n as [|n]; [done|]. by rewrite /= Hc IH.
Qed.

Lemma py_take_prefix (n : nat) (s : string) :
  ∃ rest, s = py_take n s +:+ rest.
Proof.
  revert n. induction s as [|c s IH]; intros n; [by exists ""|].
  rewrite [py_take _ _]/=. destruct (continuation_byte c).
  - destruct (IH n) as [rest Hrest]. exists rest.
    by rewrite append_cons -Hrest.
  - destruct n as [|n]; [by exists (String c s)|].
    destruct (IH n) as [rest Hrest]. exists rest.
    by rewrite append_cons -Hrest.
Qed.

Lemma append_empty_r (s : string) : s +:+ "" = s.
Proof. induction s as [|c s IH]; [done|]. by rewrite append_cons IH. Qed.

Lemma py_take_all (n : nat) (s : string) :
  (py_len s ≤ n)%nat → py_take n s = s.
Proof.
  revert n. induction s as [|c s IH]; intros n; [done|].
  rewrite [py_take _ _]/= [py_len _]/=. destruct (continuation_byte c).
  - intros Hn. by rewrite IH.
  - destruct n as [|n]; [lia|]. intros Hn. rewrite IH //. lia.
Qed.

Lemma py_take_app (head rest : string) :
  starts_code_point rest = true →
  py_take (py_len head) (head +:+ rest) = head.
Proof.
  intros Hrest. induction head as [|c head IH].
  - rewrite append_empty_l /=. destruct rest as [|c rest]; [done|].
    simpl in Hrest. apply negb_true_iff in Hrest. by rewrite /= Hrest.
  - rewrite append_cons [py_len _]/= [py_take _ (String _ _)]/=.
    destruct (continuation_byte c); by rewrite IH.
Qed.

Lemma py_len_append (s t : string) :
  py_len (s +:+ t) = (py_len s + py_len t)%nat.
Proof.
  induction s as [|c s IH]; [done|]. rewrite append_cons /=.
  destruct (continuation_byte c); by rewrite IH.
Qed.

(** X7: only the first 3000 characters of a text are sent.  Characters
    are code points, as [len] and slicing count them.  The text put in
    the prompt is the text itself when it has at most 3000 characters,
    and otherwise its first 3000 characters, so that what follows them
    does not change the prompt. *)
Theorem truncated_text_first_3000 (text : string) :
  py_len (truncated_text text) = (3000 `min` py_len text)%nat
  ∧ (∃ rest, text = truncated_text text +:+ rest)
  ∧ ((py_len text ≤ 3000)%nat → truncated_text text = text)
  ∧ (py_len text = 3000%nat →
     ∀ rest, starts_code_point rest = true →
             truncated_text (text +:+ rest) = text
             ∧ user_prompt (text +:+ rest) = user_prompt text).
Proof.
  assert (Hshort : ∀ t, (py_len t ≤ 3000)%nat → truncated_text t = t).
  { intros t Ht. rewrite /truncated_text.
    by destruct (Nat.ltb_spec 3000 (py_len t)); [lia|]. }
  split_and!.
  - rewrite /truncated_text.
    destruct (Nat.ltb_spec 3000 (py_len text)) as [Hlt|Hle].
    + by rewrite py_len_take.
    + lia.
  - rewrite /truncated_text.
    destruct (Nat.ltb_spec 3000 (py_len text)).
    + apply py_take_prefix.
    + exists "". by rewrite append_empty_r.
  - apply Hshort.
  - intros Hlen rest Hrest.
    assert (truncated_text (text +:+ rest) = text) as Htr.
    { rewrite /truncated_text py_len_append.
      destruct (Nat.ltb_spec 3000 (py_len text + py_len rest)) as [Hlt|Hle].
      - rewrite -Hlen. by apply py_take_app.
      - rewrite -{2}(py_take_app text rest Hrest). symmetry.
        apply py_take_all. rewrite py_len_append. lia. }
    split; [done|]. by rewrite /user_prompt Htr Hshort; [|lia].
Qed.

End enricher_retries.

(** ** The Extractor: failing records, sidecars, unreadable PDFs *)

Section pool_effects.
Import pdf_processor.
Context {A B S : Type} (f : A → M S B) (xs : list A).

(** A task that always raises makes the whole map raise, whenever it is
    scheduled. *)
Lemma run_tasks_raises (P : exn → Prop) schedule slots s i x :
  xs !! i = Some x →
  i ∈ schedule →
  (∀ s, ∃ e s', f x s = (Raise e, s')) →
  (∀ x' s e s', f x' s = (Raise e, s') → P e) →
  ∃ e s', run_tasks f xs schedule slots s = (Raise e, s') ∧ P e.
Proof.
  intros Hx Hi Hbad HP. revert slots s.
  induction schedule as [|j later IH]; intros slots s.
  { by apply elem_of_nil in Hi. }
  rewrite [run_tasks _ _ (_ :: _) _]/=.
  destruct (decide (j = i)) as [->|Hji].
  - rewrite Hx /bind. destruct (Hbad s) as (e & s' & Hfx). rewrite Hfx.
    exists e, s'. split; [done|]. by eapply HP.
  - apply elem_of_cons in Hi as [?|Hi]; [congruence|].
    destruct (xs !! j) as [xj|]; [|by apply IH].
    rewrite /bind. destruct (f xj s) as [[y|e] s'] eqn:Hfj; [by apply IH|].
    exists e, s'. split; [done|]. by eapply HP.
Qed.

(** What every task preserves, the map preserves. *)
Lemma run_tasks_preserves (I : S → Prop) schedule slots s r s' :
  (∀ x s r s', x ∈ xs → f x s = (r, s') → I s → I s') →
  run_tasks f xs schedule slots s = (r, s') →
  I s → I s'.
Proof.
  intros Hstep. revert slots s.
  induction schedule as [|j later IH]; intros slots s.
  { by intros [= _ <-]. }
  rewrite [run_tasks _ _ (_ :: _) _]/=.
  destruct (xs !! j) as [xj|] eqn:Hj; [|by apply IH].
  rewrite /bind. destruct (f xj s) as [[y|e] s1] eqn:Hfj.
  - intros Hrun Hs. eapply IH; [exact Hrun|].
    eapply Hstep; [by eapply list_elem_of_lookup_2|exact Hfj|done].
  - intros [= _ <-] Hs.
    eapply Hstep; [by eapply list_elem_of_lookup_2|exact Hfj|done].
Qed.

(** What a scheduled task establishes and every task preserves, holds
    when the map returns. *)
Lemma run_tasks_establishes (Q : S → Prop) schedule slots s slots' s' i x :
  xs !! i = Some x →
  i ∈ schedule →
  (∀ s y s', f x s = (Ret y, s') → Q s') →
  (∀ x s r s', x ∈ xs → f x s = (r, s') → Q s → Q s') →
  run_tasks f xs schedule slots s = (Ret slots', s') →
  Q s'.
Proof.
  intros Hx Hi Hest Hstep. revert slots s.
  induction schedule as [|j later IH]; intros slots s.
  { by apply elem_of_nil in Hi. }
  rewrite [run_tasks _ _ (_ :: _) _]/=.
  destruct (decide (j = i)) as [->|Hji].
  - rewrite Hx /bind. destruct (f x s) as [[y|e] s1] eqn:Hfx; [|done].
    intros Hrun. eapply (run_tasks_preserves Q); [exact Hstep|exact Hrun|].
    by eapply Hest.
  - apply elem_of_cons in Hi as [?|Hi]; [congruence|].
    destruct (xs !! j) as [xj|]; [|by apply IH].
    rewrite /bind. destruct (f xj s) as [[y|e] s1]; [by apply IH|done].
Qed.

End pool_effects.

Section extractor_effects.
Import config pdf_processor metadata_extractor.
Context `{rt : Runtime} `{host : Host}.

Lemma process_single_pdf_raises file_info d :
  ¬ downloaded_file file_info →
  ∃ e d', process_single_pdf file_info d = (Raise e, d').
Proof.
  intros Hbad. rewrite /process_single_pdf /bind /lift /item.
  destruct (file_info !! "local_path") as [v|] eqn:Hv; [|by eexists _, _].
  destruct v; try by eexists _, _. destruct Hbad. by eexists.
Qed.

Lemma process_single_pdf_exceptions file_info d e d' :
  process_single_pdf file_info d = (Raise e, d') →
  e = KeyError ∨ e = AttributeError.
Proof.
  rewrite /process_single_pdf /bind /lift /item.
  destruct (file_info !! "local_path") as [v|]; [|intros [= <- _]; by left].
  destruct v; try (intros [= <- _]; by right).
  rewrite /try_except /write_text. by destruct (can_open _).
Qed.

(** X8: one malformed record fails the whole extraction.  With a valid
    pool, when some input has no [local_path] or one that is not a [Path],
    [process_pdfs] raises in whatever order the workers complete (a
    [KeyError] or an [AttributeError]): the records of the other files
    are lost with it. *)
Theorem process_pdfs_bad_record_aborts (self : PDFProcessor) files schedule d
    i file_info :
  1 ≤ max_workers self →
  files !! i = Some file_info →
  ¬ downloaded_file file_info →
  i ∈ schedule →
  ∃ e d',
    process_pdfs self files schedule d = Some (Raise e, d')
    ∧ (e = KeyError ∨ e = AttributeError).
Proof.
  intros Hworkers Hi Hbad Hsched. rewrite /process_pdfs.
  destruct files as [|f0 rest] eqn:E; [done|]. rewrite -E in Hi |- *.
  destruct (max_workers self <? 1) eqn:Hlt; [apply Z.ltb_lt in Hlt; lia|].
  rewrite /pool_map.
  destruct (run_tasks_raises process_single_pdf files
              (λ e, e = KeyError ∨ e = AttributeError)
              schedule (replicate (length files) None) d i file_info)
    as (e & d' & -> & He); try done.
  - intros s. by apply process_single_pdf_raises.
  - intros x' s e s'. apply process_single_pdf_exceptions.
  - by exists e, d'.
Qed.

Lemma process_single_pdf_disk file_info p d r d' :
  file_info !! "local_path" = Some (VPath p) →
  process_single_pdf file_info d = (r, d') →
  r = Ret (processed file_info p)
  ∧ d' = if can_open (sidecar p)
         then <[sidecar p := extract_text_from_pdf p]> d else d.
Proof.
  intros Hp. rewrite /process_single_pdf /bind /lift /item Hp.
  rewrite /try_except /write_text /sidecar.
  destruct (can_open _); by intros [= <- <-].
Qed.

(** X9: the Extractor writes sidecars and nothing else.  When
    [process_pdfs] returns on downloaded files, every path that is not the
    sidecar of an input holds what it held before, and the sidecar of each
    input that can be opened for writing holds the extracted text of an
    input with that sidecar. *)
Theorem process_pdfs_writes_sidecars_only (self : PDFProcessor) files
    schedule d out d' :
  Forall downloaded_file files →
  schedule ≡ₚ seq 0 (length files) →
  process_pdfs self files schedule d = Some (Ret out, d') →
  (∀ path,
     (∀ file_info p, file_info ∈ files →
        file_info !! "local_path" = Some (VPath p) → sidecar p ≠ path) →
     d' !! path = d !! path)
  ∧ (∀ file_info p,
       file_info ∈ files →
       file_info !! "local_path" = Some (VPath p) →
       can_open (sidecar p) = true →
       ∃ file_info' p',
         file_info' ∈ files
         ∧ file_info' !! "local_path" = Some (VPath p')
         ∧ sidecar p' = sidecar p
         ∧ d' !! sidecar p = Some (extract_text_from_pdf p')).
Proof.
  intros Hfiles Hperm. rewrite /process_pdfs.
  destruct files as [|f0 rest] eqn:E.
  { intros [= _ <-]. split; [done|]. intros ? ? Hin. by apply elem_of_nil in Hin. }
  rewrite -E in Hfiles Hperm |- *. clear E f0 rest.
  destruct (max_workers self <? 1); [done|]. rewrite /pool_map.
  destruct (run_tasks _ _ _ _ d) as [[slots|e] d1] eqn:Hrun; [|done].
  destruct (mapM _ slots) as [results|]; [|done]. intros [= _ <-].
  split.
  - intros path Hpath.
    eapply (run_tasks_preserves process_single_pdf files
              (λ s, s !! path = d !! path)); [|exact Hrun|done].
    intros x s r s' Hx Hfx Hs.
    pose proof (proj1 (Forall_forall _ _) Hfiles x Hx) as [p Hp].
    destruct (process_single_pdf_disk _ _ _ _ _ Hp Hfx) as [_ ->].
    destruct (can_open _); [|done].
    rewrite lookup_insert_ne //. by eapply Hpath.
  - intros file_info p Hin Hp Hopen.
    apply list_elem_of_lookup in Hin as [i Hi].
    eapply (run_tasks_establishes process_single_pdf files
              (λ s, ∃ file_info' p',
                 file_info' ∈ files
                 ∧ file_info' !! "local_path" = Some (VPath p')
                 ∧ sidecar p' = sidecar p
                 ∧ s !! sidecar p = Some (extract_text_from_pdf p')));
      [exact Hi| | | |exact Hrun].
    + rewrite Hperm. apply elem_of_seq. apply lookup_lt_Some in Hi. lia.
    + intros s y s' Hfx.
      destruct (process_single_pdf_disk _ _ _ _ _ Hp Hfx) as [_ ->].
      rewrite Hopen. exists file_info, p.
      split_and!; [by eapply list_elem_of_lookup_2|done|done|].
      by rewrite lookup_insert_eq.
    + intros x s r s' Hx Hfx (f' & p' & Hf' & Hp' & Hside & Hs).
      pose proof (proj1 (Forall_forall _ _) Hfiles x Hx) as [px Hpx].
      destruct (process_single_pdf_disk _ _ _ _ _ Hpx Hfx) as [_ ->].
      destruct (can_open (sidecar px)) eqn:Hopenx; [|by exists f', p'].
      destruct (decide (sidecar px = sidecar p)) as [Heq|Hne].
      * exists x, px. rewrite Heq lookup_insert_eq. by split_and!.
      * exists f', p'. rewrite lookup_insert_ne //.
Qed.

End extractor_effects.

Section extractor_to_enricher.
Import config pdf_processor metadata_extractor.
Context `{rt : Runtime} `{host : Host} `{svc : InferenceService}.

(** X10: an unreadable PDF costs no request.  When PyMuPDF cannot read a
    PDF, the worker's record carries the empty text and the length 0, and
    the Enricher gives that record the null pair without calling the
    service or sleeping. *)
Theorem unreadable_pdf_is_not_enriched file_info p e w :
  file_info !! "local_path" = Some (VPath p) →
  is_Some (file_info !! "file_name") →
  fitz_page_texts p = Raise e →
  processed file_info p !! "extracted_text" = Some (VStr "")
  ∧ processed file_info p !! "text_length" = Some (VInt 0)
  ∧ process_files [processed file_info p] w
    = (Ret [null_metadata ∪ processed file_info p], w).
Proof.
  intros Hp [name Hname] Hfitz.
  assert (extract_text_from_pdf p = "") as Htext
    by by rewrite /extract_text_from_pdf Hfitz.
  assert (Hx : processed file_info p !! "extracted_text" = Some (VStr "")).
  { rewrite /processed Htext. do 2 (rewrite lookup_insert_ne //).
    by rewrite lookup_insert_eq. }
  split_and!; [done| |].
  - by rewrite /processed Htext lookup_insert_eq.
  - assert (Hn : processed file_info p !! "file_name" = Some name)
      by by rewrite processed_frame.
    rewrite /process_files [process_files_loop _ _ _ _]/=.
    by rewrite /bind /lift /item Hn /get Hx.
Qed.

End extractor_to_enricher.

(** ** The Source Fetcher: the filter and the pages *)

Section fetcher_pages.
Import slack_client.
Context `{rt : Runtime} `{host : Host} `{net : Network} `{api : SlackWebApi}.

Lemma pdf_only_filter files pdf_files :
  pdf_only files = Ret pdf_files →
  pdf_files = filter (λ f, is_pdf f = true) files.
Proof.
  revert pdf_files. induction files as [|f rest IH]; intros pdf_files.
  { by intros [= <-]. }
  rewrite [pdf_only (_ :: _)]/=.
  destruct f as [| | | | | |d]; try done. simpl.
  destruct (pdf_only rest) as [pdfs|]; [|done]. simpl.
  rewrite (IH pdfs eq_refl).
  destruct (py_eq_str (get d "mimetype" VNone) "application/pdf") eqn:Hpdf;
    intros [= <-].
  - by rewrite filter_cons_True.
  - rewrite filter_cons_False //=. by rewrite Hpdf.
Qed.

Lemma keep_pdf_messages_kept page acc out :
  Forall pdf_message acc →
  keep_pdf_messages page acc = Ret out →
  Forall pdf_message out.
Proof.
  revert acc. induction page as [|message rest IH]; intros acc Hacc.
  { by intros [= <-]. }
  rewrite [keep_pdf_messages (_ :: _) _]/=.
  destruct message as [| | | | | |m]; try done.
  destruct (m !! "files") as [files|] eqn:Hfiles; [|by apply IH].
  destruct (py_iter files) as [l|] eqn:Hiter; [|done]. simpl.
  destruct (pdf_only l) as [pdfs|] eqn:Hpdfs; [|done]. simpl.
  apply pdf_only_filter in Hpdfs as ->.
  destruct (filter _ l) as [|f0 pdfs] eqn:Hfilter; [by apply IH|].
  apply IH. apply Forall_app. split; [done|]. constructor; [|done].
  exists files, l. rewrite lookup_insert_ne // lookup_insert_eq Hfilter.
  by split_and!.
Qed.

Lemma keep_pdf_messages_acc page acc :
  keep_pdf_messages page acc
  = match keep_pdf_messages page [] with
    | Ret kept => Ret (acc ++ kept)
    | Raise e => Raise e
    end.
Proof.
  revert acc. induction page as [|message rest IH]; intros acc.
  { by rewrite /= app_nil_r. }
  rewrite ![keep_pdf_messages (_ :: _) _]/=.
  destruct message as [| | | | | |m]; try done.
  destruct (m !! "files") as [files|]; [|by apply IH].
  destruct (py_iter files) as [l|]; [|done]. simpl.
  destruct (pdf_only l) as [pdfs|]; [|done]. simpl.
  destruct pdfs as [|f0 pdfs]; [by apply IH|].
  generalize (<["pdf_files" := VList (f0 :: pdfs)]> m). intros m'.
  rewrite (IH (acc ++ [m'])) (IH ([] ++ [m'])).
  destruct (keep_pdf_messages rest []); [|done].
  by rewrite -app_assoc.
Qed.

(** One iteration of the [while True]. *)
Lemma fetch_pages_step fuel channel_id limit cursor acc response messages l :
  conversations_history channel_id limit cursor = Ret response →
  response !! "messages" = Some messages →
  py_iter messages = Ret l →
  fetch_pages (S fuel) channel_id limit cursor acc
  = match keep_pdf_messages l acc with
    | Raise e => Some (Raise e)
    | Ret kept =>
        match next_page response with
        | Raise e => Some (Raise e)
        | Ret None => Some (Ret kept)
        | Ret (Some next) => fetch_pages fuel channel_id limit next kept
        end
    end.
Proof.
  intros Hresp Hmsgs Hiter.
  rewrite [fetch_pages (S _) _ _ _ _]/= Hresp /= /item Hmsgs /= Hiter /=.
  destruct (keep_pdf_messages l acc) as [kept|]; [|done]. simpl.
  rewrite /next_page.
  destruct (negb (truthy (get response "has_more" (VBool false)))); [done|].
  destruct (dot_get _ "next_cursor" VNone) as [next|]; [|done]. simpl.
  by destruct (negb (truthy next)).
Qed.

Lemma fetch_pages_paged channel_id limit cursor pages ending kept fuel acc :
  paged channel_id limit cursor pages ending →
  kept_of pages kept →
  (length pages + match ending with Some _ => 1 | None => 0 end ≤ fuel)%nat →
  fetch_pages fuel channel_id limit cursor acc
  = Some (match ending with
          | None => Ret (acc ++ concat kept)
          | Some e => Raise e
          end).
Proof.
  intros Hpaged. revert kept fuel acc.
  induction Hpaged as [cursor e Hresp
                      |cursor response messages l Hresp Hmsgs Hiter Hnext
                      |cursor response messages l next pages ending
                         Hresp Hmsgs Hiter Hnext _ IH];
    intros kept fuel acc Hkept Hfuel.
  - destruct fuel as [|fuel]; [simpl in Hfuel; lia|].
    by rewrite /= Hresp.
  - destruct fuel as [|fuel]; [simpl in Hfuel; lia|].
    apply Forall2_cons_inv_l in Hkept as (k & kept' & Hk & ->%Forall2_nil_inv_l & ->).
    rewrite (fetch_pages_step _ _ _ _ _ _ _ _ Hresp Hmsgs Hiter).
    by rewrite keep_pdf_messages_acc Hk Hnext /= app_nil_r.
  - destruct fuel as [|fuel]; [simpl in Hfuel; lia|].
    apply Forall2_cons_inv_l in Hkept as (k & kept' & Hk & Hkept' & ->).
    rewrite (fetch_pages_step _ _ _ _ _ _ _ _ Hresp Hmsgs Hiter).
    rewrite keep_pdf_messages_acc Hk Hnext (IH kept') //.
    + destruct ending; [done|]. by rewrite /= app_assoc.
    + simpl in Hfuel. lia.
Qed.

(** X11: the Fetcher follows the cursors.  When the API serves the history
    of the channel as a chain of pages, each but the last announcing the
    next, [fetch_messages] follows the cursor from page to page and
    returns the PDF messages of all the pages, in the order of the
    pages. *)
Theorem fetch_messages_follows_cursors fuel channel limit channel_id pages kept :
  channel_id_of channel = Ret channel_id →
  paged channel_id limit VNone pages None →
  kept_of pages kept →
  (length pages ≤ fuel)%nat →
  fetch_messages fuel channel limit = Some (Ret (concat kept)).
Proof.
  intros Hid Hpaged Hkept Hfuel. move: Hid.
  rewrite /channel_id_of /fetch_messages. intros ->.
  rewrite (fetch_pages_paged _ _ _ pages None kept) //. lia.
Qed.

(** X12: the Fetcher is all or nothing.  When the request for a page raises,
    after any number of pages served, [fetch_messages] raises that
    exception: the PDF messages of the pages already fetched are not
    returned. *)
Theorem fetch_messages_all_or_nothing fuel channel limit channel_id pages
    kept e :
  channel_id_of channel = Ret channel_id →
  paged channel_id limit VNone pages (Some e) →
  kept_of pages kept →
  (length pages < fuel)%nat →
  fetch_messages fuel channel limit = Some (Raise e).
Proof.
  intros Hid Hpaged Hkept Hfuel. move: Hid.
  rewrite /channel_id_of /fetch_messages. intros ->.
  rewrite (fetch_pages_paged _ _ _ pages (Some e) kept) //. lia.
Qed.

Lemma fetch_pages_kept fuel channel_id limit cursor acc msgs :
  Forall pdf_message acc →
  fetch_pages fuel channel_id limit cursor acc = Some (Ret msgs) →
  Forall pdf_message msgs.
Proof.
  revert cursor acc. induction fuel as [|fuel IH]; intros cursor acc Hacc;
    [done|].
  rewrite [fetch_pages (S _) _ _ _ _]/=.
  destruct (conversations_history _ _ _) as [response|]; [|done]. simpl.
  destruct (item response "messages") as [messages|]; [|done]. simpl.
  destruct (py_iter messages) as [l|]; [|done]. simpl.
  destruct (keep_pdf_messages l acc) as [kept|] eqn:Hkept; [|done]. simpl.
  apply keep_pdf_messages_kept in Hkept; [|done].
  destruct (negb (truthy (get response "has_more" (VBool false)))).
  { by intros [= <-]. }
  destruct (dot_get _ "next_cursor" VNone) as [next|]; [|done].
  destruct (negb (truthy next)); [by intros [= <-]|]. by apply IH.
Qed.

Lemma pdf_message_fetched message :
  pdf_message message → fetched_message message.
Proof. intros (files & l & _ & _ & Hpdf & _). right. by eexists. Qed.

(** X13: what the Fetcher returns, the Downloader accepts.  Every message
    [fetch_messages] returns has [files] and carries as [pdf_files] the
    list of those of them whose [mimetype] is [application/pdf], which is
    not empty; and on such a list [download_all_pdfs] returns, whatever
    the network and the disk do. *)
Theorem fetch_messages_returns_pdf_messages fuel channel limit msgs :
  fetch_messages fuel channel limit = Some (Ret msgs) →
  Forall pdf_message msgs
  ∧ ∀ self download_path w,
      ∃ out w', download_all_pdfs self msgs download_path w = (Ret out, w').
Proof.
  rewrite /fetch_messages.
  destruct (if negb _ then _ else _) as [channel_id|]; [|done].
  intros Hmsgs%fetch_pages_kept; [|done]. split; [done|].
  intros self download_path w.
  destruct (download_messages_attempted self msgs download_path [] w)
    as (results & w' & Hrun & _).
  { eapply Forall_impl; [exact Hmsgs|]. apply pdf_message_fetched. }
  by eexists _, _.
Qed.




End fetcher_pages.

(** ** The Downloader: failures, the disk and a second run *)

Section downloader_effects.
Import slack_client.
Context `{rt : Runtime} `{host : Host} `{net : Network} `{api : SlackWebApi}.

Lemma download_pdf_not_descriptor self file_info download_path w :
  ¬ descriptor file_info →
  ∃ e, download_pdf self file_info download_path w = (Raise e, w)
       ∧ (e = KeyError ∨ e = TypeError).
Proof.
  intros Hnot. rewrite /download_pdf /bind /lift.
  destruct file_info as [| | | | | |d]; simpl; eauto.
  rewrite /item. destruct (d !! "id") as [file_id|] eqn:Hid; [|eauto].
  destruct (d !! "url_private") as [url|] eqn:Hurl; [|eauto].
  destruct Hnot. by exists d, file_id, url.
Qed.

Lemma descriptor_dec file_info : descriptor file_info ∨ ¬ descriptor file_info.
Proof.
  destruct file_info as [| | | | | |d];
    try (right; by intros (? & ? & ? & [=] & _)).
  destruct (d !! "id") as [file_id|] eqn:Hid.
  - destruct (d !! "url_private") as [url|] eqn:Hurl.
    + left. by exists d, file_id, url.
    + right. intros (? & ? & ? & [= <-] & _ & Hu). by rewrite Hurl in Hu.
  - right. intros (? & ? & ? & [= <-] & Hi & _). by rewrite Hid in Hi.
Qed.

(** What one call does to the world, whatever the descriptor. *)
Lemma download_pdf_effect self file_info download_path w r w1 :
  download_pdf self file_info download_path w = (r, w1) →
  on_disk w ⊆ on_disk w1
  ∧ (length (requests w1) ≤ S (length (requests w)))%nat
  ∧ ∀ p, r = Ret p → is_Some (on_disk w1 !! p).
Proof.
  destruct (descriptor_dec file_info)
    as [(d & file_id & url & -> & Hid & Hurl)|Hnot].
  2:{ destruct (download_pdf_not_descriptor self _ download_path w Hnot)
        as (e & -> & _).
      intros [= <- <-]. split; [done|]. split; [lia|done]. }
  rewrite (download_pdf_destination _ _ _ _ _ _ Hid Hurl).
  case_bool_decide as Hex.
  { intros [= <- <-]. split; [done|]. split; [lia|]. by intros p [= <-]. }
  apply eq_None_not_Some in Hex.
  intros (Hreq & Hcase)%download_fresh_outcomes.
  rewrite Hreq length_app /=. split; [|split; [lia|]].
  - destruct r as [p|e].
    + destruct Hcase as (_ & content & ->). by apply insert_subseteq.
    + destruct Hcase as [->|(response & _ & _ & ->)]; [done|].
      by apply insert_subseteq.
  - intros p ->. destruct Hcase as (-> & content & ->).
    rewrite lookup_insert_eq. by eexists.
Qed.

(** X14: a descriptor without [id] or [url_private] is refused before
    anything is looked up.  On a value that is not a dict with both keys
    [download_pdf] raises [KeyError] (a dict) or [TypeError] (not a dict)
    and leaves the world as it is: no request is issued and the disk is
    not read, a file of the destination directory notwithstanding. *)
Theorem download_pdf_needs_id_and_url self file_info download_path w :
  ¬ descriptor file_info →
  ∃ e, download_pdf self file_info download_path w = (Raise e, w)
       ∧ match file_info with
         | VDict _ => e = KeyError
         | _ => e = TypeError
         end.
Proof.
  intros Hnot. rewrite /download_pdf /bind /lift.
  destruct file_info as [| | | | | |d]; simpl; eauto.
  rewrite /item. destruct (d !! "id") as [file_id|] eqn:Hid; [|eauto].
  destruct (d !! "url_private") as [url|] eqn:Hurl; [|eauto].
  destruct Hnot. by exists d, file_id, url.
Qed.

(** X15: what a failed download leaves behind.  For a descriptor whose
    file is not on disk, a call of [download_pdf] that raises has issued
    exactly one request, for the [url_private] of the descriptor, and has
    left the disk as it was, with two exceptions: when the body broke off
    while it was being written, the exception is the one of the stream,
    and when the file refused a write, it is an [OSError]; in both the
    file stays on disk with the chunks written so far. *)
Theorem download_pdf_failure_effects self (info : dict) download_path
    file_id url w e w1 :
  info !! "id" = Some file_id →
  info !! "url_private" = Some url →
  on_disk w !! destination download_path info = None →
  download_pdf self (VDict info) download_path w = (Raise e, w1) →
  requests w1 = requests w ++ [url]
  ∧ (on_disk w1 = on_disk w
     ∨ ∃ response,
         requests_get (length (requests w)) url (token self) = Ret response
         ∧ status_ok response = true
         ∧ can_mkdir download_path = true
         ∧ can_open (destination download_path info) = true
         ∧ (stream_breaks response = true ∧ e = RequestException
            ∨ write_fails response = true ∧ e = OSError)
         ∧ on_disk w1
           = <[destination download_path info
               := String.concat "" (body_chunks response)]> (on_disk w)).
Proof.
  intros Hid Hurl Hnew.
  rewrite (download_pdf_destination _ _ _ _ _ _ Hid Hurl).
  rewrite bool_decide_eq_false_2; [|by rewrite Hnew; intros [? [=]]].
  rewrite /try_except /bind /http_get /raise /ret /save.
  destruct (requests_get _ _ _) as [response|] eqn:Hget;
    [|intros [= <- <-]; auto].
  destruct (status_ok response) eqn:Hok; [|intros [= <- <-]; auto].
  destruct (can_mkdir download_path) eqn:Hmkdir; [|intros [= <- <-]; auto].
  destruct (can_open _) eqn:Hopen; [|intros [= <- <-]; auto].
  rewrite /stream_breaks /write_fails.
  destruct (transfer_ends response) eqn:Hends; intros [= <- <-]; simpl;
    (split; [done|]); right; exists response; rewrite Hends;
    split_and!; auto.
Qed.

(** X16: a download that broke off is taken for a complete one.  When the
    request is answered and the file is opened but the body breaks off,
    [download_pdf] raises and leaves the truncated file under the
    destination name; the next call for the same descriptor finds it
    there, returns its path and issues no request, so that the truncated
    file is what the later stages read. *)
Theorem download_pdf_truncated_file_is_kept self (info : dict) download_path
    file_id url w response :
  info !! "id" = Some file_id →
  info !! "url_private" = Some url →
  on_disk w !! destination download_path info = None →
  requests_get (length (requests w)) url (token self) = Ret response →
  status_ok response = true →
  can_mkdir download_path = true →
  can_open (destination download_path info) = true →
  stream_breaks response = true →
  ∃ w1,
    download_pdf self (VDict info) download_path w = (Raise RequestException, w1)
    ∧ on_disk w1 !! destination download_path info
      = Some (String.concat "" (body_chunks response))
    ∧ download_pdf self (VDict info) download_path w1
      = (Ret (destination download_path info), w1).
Proof.
  intros Hid Hurl Hnew Hget Hok Hmkdir Hopen Hbreaks.
  rewrite (download_pdf_destination _ _ _ _ _ _ Hid Hurl).
  rewrite bool_decide_eq_false_2; [|by rewrite Hnew; intros [? [=]]].
  rewrite /try_except /bind /http_get /raise /ret /save.
  rewrite Hget Hok Hmkdir Hopen. move: Hbreaks. rewrite /stream_breaks.
  destruct (transfer_ends response); [done| |done]. intros _.
  eexists. split; [done|]. simpl.
  rewrite lookup_insert_eq. split; [done|].
  rewrite (download_pdf_destination _ _ _ _ _ _ Hid Hurl) /=.
  rewrite bool_decide_eq_true_2 // lookup_insert_eq. by eexists.
Qed.

Lemma local_path_on_mono d d' record :
  d ⊆ d' → local_path_on d record → local_path_on d' record.
Proof.
  intros Hsub (p & Hp & [content Hc]). exists p. split; [done|].
  exists content. by eapply lookup_weaken.
Qed.

Lemma downloaded_record_local_path ts text file_info p record :
  downloaded_record ts text file_info p = Ret record →
  record !! "local_path" = Some (VPath p).
Proof.
  rewrite /downloaded_record.
  destruct (subscript file_info "id") as [file_id|]; [|done].
  destruct file_info as [| | | | | |d]; try done. simpl.
  intros [= <-]. by vm_compute.
Qed.

Lemma download_files_effect self ts text pdf_files download_path acc w r w' :
  download_files self ts text pdf_files download_path acc w = (r, w') →
  on_disk w ⊆ on_disk w'
  ∧ (length (requests w') ≤ length (requests w) + length pdf_files)%nat
  ∧ ∃ out, r = Ret out
      ∧ (Forall (local_path_on (on_disk w)) acc →
         Forall (local_path_on (on_disk w')) out).
Proof.
  revert acc w. induction pdf_files as [|file_info rest IH]; intros acc w.
  { intros [= <- <-]. split; [done|]. split; [lia|]. by exists acc. }
  rewrite [download_files _ _ _ (_ :: _) _ _]/= /bind /try_except.
  destruct (download_pdf self file_info download_path w) as [[p|e] w1] eqn:Hd.
  - destruct (downloaded_record_returns _ _ _ _ _ _ ts text Hd) as [record Hr].
    rewrite /lift Hr /ret.
    apply download_pdf_effect in Hd as (Hsub & Hreq & Hp).
    intros (Hsub' & Hreq' & out & -> & Hout)%IH.
    split; [by etrans|]. split; [simpl; lia|]. exists out. split; [done|].
    intros Hacc. apply Hout, Forall_app. split.
    + eapply Forall_impl; [exact Hacc|]. intros x. by apply local_path_on_mono.
    + constructor; [|done]. exists p. split; [|by apply Hp].
      by eapply downloaded_record_local_path.
  - rewrite /ret. apply download_pdf_effect in Hd as (Hsub & Hreq & _).
    intros (Hsub' & Hreq' & out & -> & Hout)%IH.
    split; [by etrans|]. split; [simpl; lia|]. exists out. split; [done|].
    intros Hacc. apply Hout.
    eapply Forall_impl; [exact Hacc|]. intros x. by apply local_path_on_mono.
Qed.

Lemma length_attachments_cons message messages :
  length (attachments (message :: messages))
  = (length (pdf_files_of message) + length (attachments messages))%nat.
Proof. by rewrite /attachments /= length_app length_fmap. Qed.

Lemma download_messages_effect self messages download_path acc w out w' :
  Forall fetched_message messages →
  download_messages self messages download_path acc w = (Ret out, w') →
  on_disk w ⊆ on_disk w'
  ∧ (length (requests w') ≤ length (requests w) + length (attachments messages))%nat
  ∧ (Forall (local_path_on (on_disk w)) acc →
     Forall (local_path_on (on_disk w')) out).
Proof.
  intros Hmsgs. revert acc w.
  induction Hmsgs as [|message rest Hmsg _ IH]; intros acc w.
  { intros [= <- <-]. split; [done|]. split; [simpl; lia|done]. }
  rewrite [download_messages _ (_ :: _) _ _]/= /bind /lift.
  assert (py_iter (get message "pdf_files" (VList []))
          = Ret (pdf_files_of message)) as ->.
  { rewrite /get /pdf_files_of. by destruct Hmsg as [->|[l ->]]. }
  destruct (download_files _ _ _ _ _ _ w) as [r w1] eqn:Hfiles.
  apply download_files_effect in Hfiles as (Hsub & Hreq & out1 & -> & Hout1).
  intros (Hsub' & Hreq' & Hout)%IH.
  split; [by etrans|]. rewrite length_attachments_cons. split; [lia|].
  intros Hacc. by apply Hout, Hout1.
Qed.

Lemma download_pdf_requests self file_info download_path w r w1 :
  download_pdf self file_info download_path w = (r, w1) →
  ∃ reqs,
    requests w1 = requests w ++ reqs
    ∧ (reqs = []
       ∨ ∃ d url,
           file_info = VDict d
           ∧ d !! "url_private" = Some url
           ∧ reqs = [url]).
Proof.
  destruct (descriptor_dec file_info)
    as [(d & file_id & url & -> & Hid & Hurl)|Hnot].
  2:{ destruct (download_pdf_not_descriptor self _ download_path w Hnot)
        as (e & -> & _).
      intros [= <- <-]. exists []. rewrite app_nil_r. auto. }
  rewrite (download_pdf_destination _ _ _ _ _ _ Hid Hurl).
  case_bool_decide as Hex.
  { intros [= <- <-]. exists []. rewrite app_nil_r. auto. }
  intros (Hreq & _)%download_fresh_outcomes.
  exists [url]. split; [done|]. right. by exists d, url.
Qed.

Lemma attempted_requests self download_path atts results w w' :
  attempted self download_path atts results w w' →
  ∃ per_attachment,
    requests w' = requests w ++ concat per_attachment
    ∧ Forall2 own_request atts per_attachment.
Proof.
  induction 1 as [w|ts text file_info atts p record results w w1 w2 Hd _ _ IH
                 |ts text file_info atts e results w w1 w2 Hd _ IH].
  - exists []. by rewrite /= app_nil_r.
  - destruct (download_pdf_requests _ _ _ _ _ _ Hd) as (reqs & Hreqs & Hown).
    destruct IH as (per & Hper & Hall).
    exists (reqs :: per). split; [by rewrite Hper Hreqs /= app_assoc|].
    by constructor.
  - destruct (download_pdf_requests _ _ _ _ _ _ Hd) as (reqs & Hreqs & Hown).
    destruct IH as (per & Hper & Hall).
    exists (reqs :: per). split; [by rewrite Hper Hreqs /= app_assoc|].
    by constructor.
Qed.

(** X17: what the Downloader hands over is on disk.  After
    [download_all_pdfs], the [local_path] of every record of the output is
    a file of the disk; the files that were on disk before are all still
    there, with their content; and the requests issued are those of the
    attachments in turn, one request at most for each attachment, for its
    [url_private]. *)
Theorem download_all_pdfs_records_on_disk self messages download_path w out w' :
  Forall fetched_message messages →
  download_all_pdfs self messages download_path w = (Ret out, w') →
  Forall (local_path_on (on_disk w')) out
  ∧ on_disk w ⊆ on_disk w'
  ∧ ∃ per_attachment,
      requests w' = requests w ++ concat per_attachment
      ∧ Forall2 own_request (attachments messages) per_attachment.
Proof.
  intros Hmsgs Hrun.
  pose proof (download_messages_effect _ _ _ _ _ _ _ Hmsgs Hrun)
    as (Hsub & _ & Hout).
  split_and!; [by apply Hout|done|].
  destruct (download_messages_attempted self messages download_path [] w Hmsgs)
    as (results & w1 & Hrun1 & Hatt).
  rewrite /download_all_pdfs in Hrun. rewrite Hrun in Hrun1.
  injection Hrun1 as _ <-. by eapply attempted_requests.
Qed.

Lemma download_pdf_stable self file_info download_path w p w1 w2 :
  download_pdf self file_info download_path w = (Ret p, w1) →
  on_disk w1 ⊆ on_disk w2 →
  download_pdf self file_info download_path w2 = (Ret p, w2).
Proof.
  intros Hd Hsub.
  destruct (download_pdf_has_id _ _ _ _ _ _ Hd) as (d & file_id & -> & Hid).
  destruct (d !! "url_private") as [url|] eqn:Hurl.
  2:{ move: Hd. by rewrite /download_pdf /bind /lift /= /item Hid Hurl. }
  assert (p = destination download_path d ∧ is_Some (on_disk w1 !! p))
    as [-> [content Hc]].
  { pose proof (download_pdf_effect _ _ _ _ _ _ Hd) as (_ & _ & Hp).
    split; [|by apply Hp]. move: Hd.
    rewrite (download_pdf_destination _ _ _ _ _ _ Hid Hurl).
    case_bool_decide; [by intros [= <- _]|].
    by intros (_ & -> & _)%download_fresh_outcomes. }
  rewrite (download_pdf_destination _ _ _ _ _ _ Hid Hurl).
  rewrite bool_decide_eq_true_2 //. exists content. by eapply lookup_weaken.
Qed.

Lemma attempted_disk self download_path atts results w w' :
  attempted self download_path atts results w w' →
  on_disk w ⊆ on_disk w'.
Proof.
  induction 1 as [|? ? ? ? ? ? ? ? ? ? Hd _ _ IH|? ? ? ? ? ? ? ? ? Hd _ IH];
    [done| |];
    apply download_pdf_effect in Hd as (Hsub & _); by etrans.
Qed.

Lemma attempted_again self download_path atts results w w' w2 :
  attempted self download_path atts results w w' →
  Forall is_Some results →
  on_disk w' ⊆ on_disk w2 →
  attempted self download_path atts results w2 w2.
Proof.
  induction 1 as [|? ? ? ? ? ? ? ? ? ? Hd Hr Hrest IH|? ? ? ? ? ? ? ? ? Hd _ IH];
    intros Hall Hsub.
  - constructor.
  - apply Forall_cons in Hall as [_ Hall].
    eapply attempted_downloaded; [|done|by apply IH].
    eapply download_pdf_stable; [done|].
    etrans; [|done]. by eapply attempted_disk.
  - apply Forall_cons in Hall as [[? [=]] _].
Qed.

Lemma attempted_deterministic self download_path atts rs1 rs2 w wa wb :
  attempted self download_path atts rs1 w wa →
  attempted self download_path atts rs2 w wb →
  rs1 = rs2 ∧ wa = wb.
Proof.
  intros H1. revert rs2 wb.
  induction H1 as [|? ? ? ? ? ? ? ? ? ? Hd Hr _ IH|? ? ? ? ? ? ? ? ? Hd _ IH];
    intros rs2 wb H2; inversion H2; subst; try done.
  - match goal with
    | H : download_pdf _ _ _ _ = (Ret _, _) |- _ =>
        rewrite Hd in H; injection H as <- <-
    end.
    match goal with
    | H : downloaded_record _ _ _ _ = Ret _ |- _ =>
        rewrite Hr in H; injection H as <-
    end.
    by destruct (IH _ _ ltac:(eassumption)) as [-> ->].
  - match goal with
    | H : download_pdf _ _ _ _ = (Raise _, _) |- _ => by rewrite Hd in H
    end.
  - match goal with
    | H : download_pdf _ _ _ _ = (Ret _, _) |- _ => by rewrite Hd in H
    end.
  - match goal with
    | H : download_pdf _ _ _ _ = (Raise _, _) |- _ =>
        rewrite Hd in H; injection H as <- <-
    end.
    by destruct (IH _ _ ltac:(eassumption)) as [-> ->].
Qed.

Lemma omap_id_full {A} (l : list (option A)) :
  length (omap id l) = length l → Forall is_Some l.
Proof.
  assert (Hle : ∀ l : list (option A), (length (omap id l) ≤ length l)%nat).
  { intros l'. induction l' as [|[a|] l' IH]; csimpl; lia. }
  induction l as [|[a|] l IH]; csimpl; intros Hlen.
  - constructor.
  - constructor; [by eexists|]. apply IH. lia.
  - pose proof (Hle l). lia.
Qed.

(** X18: a second run of the Downloader is free.  When
    [download_all_pdfs] has downloaded every attachment of the messages,
    running it again on the same messages returns the same records and
    leaves the world as it is: every file is found on disk and no request
    is issued. *)
Theorem download_all_pdfs_second_run self messages download_path w out w' :
  Forall fetched_message messages →
  download_all_pdfs self messages download_path w = (Ret out, w') →
  length out = length (attachments messages) →
  download_all_pdfs self messages download_path w' = (Ret out, w').
Proof.
  intros Hmsgs Hrun Hall. rewrite /download_all_pdfs in Hrun |- *.
  destruct (download_messages_attempted self messages download_path [] w Hmsgs)
    as (rs & w1 & Hrun1 & Hatt).
  rewrite Hrun in Hrun1. injection Hrun1 as -> ->.
  destruct (download_messages_attempted self messages download_path [] w1 Hmsgs)
    as (rs2 & w2 & -> & Hatt2).
  assert (Forall is_Some rs) as Hsome.
  { apply omap_id_full. rewrite (attempted_length _ _ _ _ _ _ Hatt).
    by rewrite /= in Hall. }
  pose proof (attempted_again _ _ _ _ _ _ w1 Hatt Hsome (reflexivity _)) as Hagain.
  by destruct (attempted_deterministic _ _ _ _ _ _ _ _ Hagain Hatt2) as [-> ->].
Qed.

End downloader_effects.

(** ** The Persister: failures, keys and counts *)

Section persister_effects.
Import db_manager.
Context `{rt : Runtime} `{pg : Postgres}.

Lemma execute_insert_raises data st e st' :
  execute_insert data st = (Raise e, st') → st' = st.
Proof.
  rewrite /execute_insert.
  destruct (documents st) as [rows|]; [|by intros [= _ <-]].
  destruct (data !! "file_id") as [[| | |fid| | |]|]; try by intros [= _ <-].
  destruct (accepts data); [|by intros [= _ <-]].
  by destruct (List.find _ rows).
Qed.

Lemma execute_insert_serial data st doc_id st' :
  execute_insert data st = (Ret doc_id, st') →
  serial st' = serial st + 1.
Proof.
  rewrite /execute_insert.
  destruct (documents st) as [rows|]; [|done].
  destruct (data !! "file_id") as [[| | |fid| | |]|]; try done.
  destruct (accepts data); [|done].
  by destruct (List.find _ rows); intros [= _ <-].
Qed.

Lemma insert_document_None document st st' :
  insert_document document st = (Ret None, st') → st' = st.
Proof.
  rewrite /insert_document /try_except /bind /get_connection /lift /ret.
  destruct (up st); [|by intros [= <-]].
  destruct (doc_data document) as [data|]; [|by intros [= <-]].
  destruct (execute_insert data st) as [[id'|e] st1] eqn:Hexec; [done|].
  apply execute_insert_raises in Hexec as ->. by intros [= <-].
Qed.

Lemma doc_data_file_id document data :
  doc_data document = Ret data →
  data !! "file_id" = document !! "file_id".
Proof.
  rewrite /doc_data /item.
  destruct (document !! "file_id") as [v|]; [|done].
  destruct (document !! "file_name") as [name|]; [|done].
  intros [= <-]. by rewrite lookup_insert_eq.
Qed.

Lemma insert_document_storable document st :
  up st = true → is_Some (documents st) → storable document →
  ∃ doc_id st', insert_document document st = (Ret (Some doc_id), st').
Proof.
  intros Hup [rows Hrows] (data & fid & Hdata & Hfid & Hacc).
  rewrite /insert_document /try_except /bind /get_connection /lift /ret.
  rewrite Hup Hdata /execute_insert Hrows.
  rewrite (doc_data_file_id _ _ Hdata) Hfid Hacc.
  destruct (List.find _ rows); by eexists _, _.
Qed.

Lemma insert_document_cases document st :
  ∃ doc_id st',
    insert_document document st = (Ret doc_id, st')
    ∧ (is_Some doc_id
       ↔ up st = true ∧ is_Some (documents st) ∧ storable document)
    ∧ (doc_id = None → st' = st).
Proof.
  destruct (insert_document_returns document st) as (doc_id & st' & Hrun).
  exists doc_id, st'. split; [done|]. split; [split|].
  - intros [n ->].
    apply insert_document_success in Hrun
      as (data & fid & rows & Hup & Hdata & Hfid & _ & Hrows & Hacc & _).
    split_and!; [done|by eexists|]. by exists data, fid.
  - intros (Hup & Hrows & Hdoc).
    destruct (insert_document_storable document st Hup Hrows Hdoc)
      as (n & st1 & Hrun1).
    rewrite Hrun in Hrun1. injection Hrun1 as -> _. by eexists.
  - intros ->. by eapply insert_document_None.
Qed.

(** X19: a document that is not stored is dropped in silence.
    [insert_document] returns in every store, for every document.  When
    it returns [None] the store is as it was, and it does so whenever the
    store is unreachable, the table is missing, the document has no
    [file_id] or no [file_name], or the server refuses the parameters.
    It returns an id whenever the store is reachable, the table exists
    and the document is one the statement goes through with. *)
Theorem insert_document_failure_is_silent document st :
  ∃ doc_id st',
    insert_document document st = (Ret doc_id, st')
    ∧ (doc_id = None → st' = st)
    ∧ (up st = false
       ∨ documents st = None
       ∨ document !! "file_id" = None
       ∨ document !! "file_name" = None
       ∨ (∀ data, doc_data document = Ret data → accepts data = false) →
       doc_id = None)
    ∧ (up st = true → is_Some (documents st) → storable document →
       is_Some doc_id).
Proof.
  destruct (insert_document_cases document st)
    as (doc_id & st' & Hrun & [Hsome Hstored] & Hnone).
  exists doc_id, st'. split; [done|]. split; [done|]. split; [|by auto].
  intros Hfails. destruct doc_id as [n|]; [|done].
  destruct (Hsome ltac:(by eexists))
    as (Hup & [rows Hrows] & data & fid & Hdata & Hfid & Hacc).
  destruct Hfails as [Hdown|[Hnotable|[Hnoid|[Hnoname|Hrefused]]]].
  - congruence.
  - congruence.
  - congruence.
  - move: Hdata. by rewrite /doc_data /item Hfid Hnoname.
  - rewrite (Hrefused data Hdata) in Hacc. discriminate Hacc.
Qed.

Lemma existsb_has_key fid (rows : list row) :
  existsb (λ r, py_eq_str (VStr fid) (file_id r)) rows
  = bool_decide (fid ∈ file_id <$> rows).
Proof.
  induction rows as [|r rows IH]; [done|]. rewrite fmap_cons /= IH.
  destruct (String.eqb_spec fid (file_id r)) as [->|Hne]; simpl.
  - rewrite bool_decide_eq_true_2 //. by left.
  - apply bool_decide_ext. rewrite elem_of_cons. split; [auto|].
    by intros [?|?].
Qed.

Lemma document_exists_stored fid st :
  up st = true → is_Some (documents st) →
  document_exists (VStr fid) st
  = (Ret (bool_decide (fid ∈ stored_keys st)), st).
Proof.
  intros Hup [rows Hrows].
  rewrite /document_exists /try_except /bind /get_connection /select_exists.
  by rewrite Hup /stored_keys Hrows existsb_has_key.
Qed.

Lemma execute_insert_keys data st fid rows doc_id st' :
  documents st = Some rows →
  data !! "file_id" = Some (VStr fid) →
  execute_insert data st = (Ret doc_id, st') →
  ∃ rows',
    documents st' = Some rows'
    ∧ (file_id <$> rows'
       = (file_id <$> rows) ++ (if bool_decide (fid ∈ file_id <$> rows)
                               then [] else [fid]))
    ∧ (first_written <$> rows) `prefix_of` (first_written <$> rows')
    ∧ (row_id <$> rows'
       = (row_id <$> rows) ++ (if bool_decide (fid ∈ file_id <$> rows)
                              then [] else [serial st]))
    ∧ (if bool_decide (fid ∈ file_id <$> rows)
       then doc_id ∈ row_id <$> rows else doc_id = serial st).
Proof.
  intros Hrows Hfid Hexec.
  destruct (execute_insert_rows _ _ _ _ _ _ Hrows Hfid Hexec)
    as (_ & _ & Hcase).
  destruct (List.find (has_file_id fid) rows) as [existing|] eqn:Hfind.
  - destruct Hcase as [-> Hdocs]. eexists. split; [done|].
    assert (fid ∈ file_id <$> rows) as Hin.
    { apply find_file_id_Some, Exists_exists in Hfind as (r & Hr & <-).
      by apply list_elem_of_fmap_2. }
    rewrite !bool_decide_eq_true_2 // !app_nil_r -!list_fmap_compose.
    split_and!.
    + apply list_fmap_ext. intros _ r _. simpl. by destruct (has_file_id fid r).
    + erewrite (list_fmap_ext (first_written ∘ _) first_written); [done|].
      intros _ r _. simpl. by destruct (has_file_id fid r).
    + apply list_fmap_ext. intros _ r _. simpl. by destruct (has_file_id fid r).
    + apply find_some in Hfind as [Hin' _].
      apply list_elem_of_fmap_2. by apply list_elem_of_In.
  - destruct Hcase as [-> Hdocs]. eexists. split; [done|].
    assert (fid ∉ file_id <$> rows) as Hnotin.
    { apply find_file_id_None in Hfind.
      intros (r & -> & Hr)%list_elem_of_fmap.
      by eapply Forall_forall in Hfind. }
    rewrite !bool_decide_eq_false_2 // !fmap_app /=.
    split_and!; try done. by apply prefix_app_r.
Qed.

(** X20: a stored document is found.  After a call of [insert_document]
    that returned an id, [document_exists] answers [True] for the
    [file_id] of the document, and for every other [file_id] it answers
    as it did before the call. *)
Theorem insert_document_then_exists document st doc_id st' fid :
  insert_document document st = (Ret (Some doc_id), st') →
  document !! "file_id" = Some (VStr fid) →
  document_exists (VStr fid) st' = (Ret true, st')
  ∧ ∀ other, other ≠ fid →
      (document_exists (VStr other) st').1 = (document_exists (VStr other) st).1.
Proof.
  intros (data & fid' & rows & Hup & Hdata & Hfid' & Hfid & Hrows & Hacc & Hexec)
    %insert_document_success Hdoc.
  rewrite Hdoc in Hfid'. injection Hfid' as <-.
  destruct (execute_insert_rows _ _ _ _ _ _ Hrows Hfid Hexec) as (Hup' & _ & _).
  destruct (execute_insert_keys _ _ _ _ _ _ Hrows Hfid Hexec)
    as (rows' & Hrows' & Hkeys & _).
  assert (up st' = true) as Hup1 by congruence.
  assert (is_Some (documents st')) as Hsome' by by eexists.
  assert (is_Some (documents st)) as Hsome by by eexists.
  split.
  - rewrite document_exists_stored // /stored_keys Hrows' Hkeys.
    rewrite bool_decide_eq_true_2 //. apply elem_of_app.
    case_bool_decide; [by left|right; by left].
  - intros other Hne. rewrite !document_exists_stored //.
    rewrite /stored_keys Hrows Hrows' Hkeys /=. f_equal.
    apply bool_decide_ext.
    rewrite elem_of_app. case_bool_decide as Hin.
    + rewrite elem_of_nil. tauto.
    + rewrite list_elem_of_singleton. tauto.
Qed.

Lemma insert_document_step document st doc_id st' :
  well_keyed st →
  insert_document document st = (Ret doc_id, st') →
  well_keyed st'
  ∧ up st' = up st
  ∧ match doc_id with
    | None => st' = st
    | Some n =>
        0 < n
        ∧ ∃ fid rows rows',
            document !! "file_id" = Some (VStr fid)
            ∧ documents st = Some rows
            ∧ documents st' = Some rows'
            ∧ (file_id <$> rows'
               = (file_id <$> rows) ++ (if bool_decide (fid ∈ file_id <$> rows)
                                       then [] else [fid]))
            ∧ (first_written <$> rows) `prefix_of` (first_written <$> rows')
    end.
Proof.
  intros Hkeyed Hrun. destruct doc_id as [n|].
  2:{ apply insert_document_None in Hrun as ->. done. }
  destruct Hkeyed as (rows & Hrows & Huniq & Hids & Hbound & Hserial).
  apply insert_document_success in Hrun
    as (data & fid & rows0 & Hup & Hdata & Hdoc & Hfid & Hrows0 & Hacc & Hexec).
  rewrite Hrows in Hrows0. injection Hrows0 as <-.
  destruct (execute_insert_rows _ _ _ _ _ _ Hrows Hfid Hexec) as (Hup' & _ & _).
  pose proof (execute_insert_serial _ _ _ _ Hexec) as Hserial'.
  destruct (execute_insert_keys _ _ _ _ _ _ Hrows Hfid Hexec)
    as (rows' & Hrows' & Hkeys & Hfirst & Hrowids & Hid).
  assert (Forall (λ x, 0 < x < serial st) (row_id <$> rows)) as Hbound'.
  { by apply (Forall_fmap row_id (λ x, 0 < x < serial st)). }
  split_and!; [|done| |].
  - exists rows'. split; [done|]. split_and!.
    + by eapply (execute_insert_unique data st fid rows n st' rows').
    + rewrite Hrowids. case_bool_decide; [by rewrite app_nil_r|].
      apply NoDup_app. split; [done|]. split; [|apply NoDup_singleton].
      intros x Hx ->%list_elem_of_singleton.
      eapply Forall_forall in Hbound'; [|done]. lia.
    + apply (Forall_fmap row_id (λ x, 0 < x < serial st')).
      rewrite Hrowids Hserial'. apply Forall_app. split.
      * eapply Forall_impl; [exact Hbound'|]. simpl. lia.
      * case_bool_decide; constructor; [lia|done].
    + lia.
  - case_bool_decide.
    + eapply Forall_forall in Hbound'; [|done]. lia.
    + lia.
  - by exists fid, rows, rows'.
Qed.

Lemma bulk_insert_loop_returns documents count st :
  ∃ n st', bulk_insert_loop documents count st = (Ret n, st')
           ∧ count ≤ n ≤ count + Z.of_nat (length documents)
           ∧ (up st = false ∨ db_manager.documents st = None →
              n = count ∧ st' = st).
Proof.
  revert count st. induction documents as [|document rest IH]; intros count st.
  { exists count, st. split; [done|]. split; [simpl; lia|done]. }
  rewrite [bulk_insert_loop (_ :: _) _]/= /bind.
  destruct (insert_document_cases document st)
    as (doc_id & st1 & Hrun & [Hsome _] & Hnone).
  rewrite Hrun.
  destruct (IH (match doc_id with
                | Some n => if n =? 0 then count else count + 1
                | None => count
                end) st1) as (n & st' & -> & Hn & Hdown).
  exists n, st'. split; [done|]. split.
  - destruct doc_id as [id|]; [destruct (id =? 0)|]; simpl length; lia.
  - intros Hbad. destruct doc_id as [id|].
    + destruct Hsome as (Hup & [rows Hrows] & _); [by eexists|].
      destruct Hbad; congruence.
    + rewrite (Hnone eq_refl) in Hdown |- *. by apply Hdown.
Qed.

(** X21: the count of a bulk insert.  [bulk_insert_documents] returns in
    every store; its result lies between 0 and the number of documents;
    and when the store is unreachable or has no table, the result is 0
    and the store is as it was. *)
Theorem bulk_insert_documents_bounds documents st :
  ∃ n st',
    bulk_insert_documents documents st = (Ret n, st')
    ∧ 0 ≤ n ≤ Z.of_nat (length documents)
    ∧ (up st = false ∨ db_manager.documents st = None → n = 0 ∧ st' = st).
Proof.
  destruct (bulk_insert_loop_returns documents 0 st)
    as (n & st' & Hrun & Hn & Hdown).
  exists n, st'. split; [done|]. split; [lia|done].
Qed.

Lemma bulk_insert_loop_keys documents count st n st' rows :
  well_keyed st →
  db_manager.documents st = Some rows →
  bulk_insert_loop documents count st = (Ret n, st') →
  well_keyed st'
  ∧ up st' = up st
  ∧ ∃ rows',
      db_manager.documents st' = Some rows'
      ∧ (first_written <$> rows) `prefix_of` (first_written <$> rows')
      ∧ (length rows' ≤ length rows + length documents)%nat
      ∧ (∀ fid, fid ∈ file_id <$> rows' →
                fid ∈ file_id <$> rows
                ∨ ∃ document, document ∈ documents
                    ∧ document !! "file_id" = Some (VStr fid)).
Proof.
  revert count st rows.
  induction documents as [|document rest IH]; intros count st rows Hkeyed Hrows.
  { intros [= _ <-]. split; [done|]. split; [done|].
    exists rows. split; [done|]. split; [done|]. split; [lia|auto]. }
  rewrite [bulk_insert_loop (_ :: _) _]/= /bind.
  destruct (insert_document_returns document st) as (doc_id & st1 & Hrun).
  rewrite Hrun.
  destruct (insert_document_step _ _ _ _ Hkeyed Hrun) as (Hkeyed1 & Hup1 & Hcase).
  destruct doc_id as [id|].
  - destruct Hcase as (_ & fid & rows0 & rows1 & Hfid & Hrows0 & Hrows1 & Hkeys & Hfirst).
    rewrite Hrows in Hrows0. injection Hrows0 as <-.
    intros (Hkeyed' & Hup' & rows' & Hrows' & Hfirst' & Hlen & Hfrom)
      %(IH _ _ rows1); [|done|done].
    split; [done|]. split; [congruence|]. exists rows'. split; [done|].
    split; [by etrans|].
    assert (length rows1 ≤ S (length rows))%nat as Hlen1.
    { rewrite -(length_fmap file_id rows1) Hkeys length_app length_fmap.
      case_bool_decide; simpl; lia. }
    split; [simpl; lia|].
    intros f [Hf|(d & Hd & Hdf)]%Hfrom.
    + move: Hf. rewrite Hkeys elem_of_app.
      intros [Hf|Hf]; [by left|]. right. exists document. split; [by left|].
      case_bool_decide; [by apply elem_of_nil in Hf|].
      by apply list_elem_of_singleton in Hf as ->.
    + right. exists d. split; [by right|done].
  - subst st1.
    intros (Hkeyed' & Hup' & rows' & Hrows' & Hfirst' & Hlen & Hfrom)
      %(IH _ _ rows); [|done|done].
    split; [done|]. split; [done|]. exists rows'. split; [done|].
    split; [done|]. split; [simpl; lia|].
    intros f [Hf|(d & Hd & Hdf)]%Hfrom; [by left|].
    right. exists d. split; [by right|done].
Qed.

(** X22: a bulk insert keeps the keys of the table.  In a table that
    honours its keys, after [bulk_insert_documents] the table still
    honours them; the rows that were there are still there, in place, each
    with the [id], [file_id], [file_name], Slack columns, [file_size] and
    [processed_at] it had; at most one row was added per document, and
    every new key is the [file_id] of one of the documents, as a
    string. *)
Theorem bulk_insert_documents_keeps_keys documents st n st' rows :
  well_keyed st →
  db_manager.documents st = Some rows →
  bulk_insert_documents documents st = (Ret n, st') →
  well_keyed st'
  ∧ ∃ rows',
      db_manager.documents st' = Some rows'
      ∧ (first_written <$> rows) `prefix_of` (first_written <$> rows')
      ∧ (length rows' ≤ length rows + length documents)%nat
      ∧ (∀ fid, fid ∈ file_id <$> rows' →
                fid ∈ file_id <$> rows
                ∨ ∃ document v, document ∈ documents
                    ∧ document !! "file_id" = Some v
                    ∧ py_str v = fid).
Proof.
  intros Hkeyed Hrows Hrun.
  destruct (bulk_insert_loop_keys _ _ _ _ _ _ Hkeyed Hrows Hrun)
    as (Hkeyed' & _ & rows' & Hrows' & Hfirst & Hlen & Hfrom).
  split; [done|]. exists rows'. split_and!; [done|done|done|].
  intros fid [Hold|(document & Hin & Hfid)]%Hfrom; [by left|].
  right. exists document, (VStr fid). by rewrite py_str_str.
Qed.

Lemma bulk_insert_loop_all documents count st :
  well_keyed st →
  up st = true →
  Forall storable documents →
  ∃ st',
    bulk_insert_loop documents count st
    = (Ret (count + Z.of_nat (length documents)), st')
    ∧ ∀ fid,
        fid ∈ stored_keys st'
        ↔ fid ∈ stored_keys st
          ∨ ∃ document, document ∈ documents
              ∧ document !! "file_id" = Some (VStr fid).
Proof.
  intros Hkeyed Hup Hdocs. revert count st Hkeyed Hup.
  induction Hdocs as [|document rest Hdoc _ IH]; intros count st Hkeyed Hup.
  { exists st. rewrite /= Z.add_0_r. split; [done|]. intros fid. split; [auto|].
    intros [?|(d & Hd & _)]; [done|]. by apply elem_of_nil in Hd. }
  rewrite [bulk_insert_loop (_ :: _) _]/= /bind.
  destruct (insert_document_storable document st Hup) as (id & st1 & Hrun);
    [by destruct Hkeyed as (rows & -> & _); eexists|done|].
  rewrite Hrun.
  destruct (insert_document_step _ _ _ _ Hkeyed Hrun)
    as (Hkeyed1 & Hup1 & Hpos & fid & rows & rows1 & Hfid & Hrows & Hrows1
        & Hkeys & _).
  destruct (Z.eqb_spec id 0) as [->|_]; [lia|].
  destruct (IH (count + 1) st1 Hkeyed1) as (st' & -> & Hstored); [congruence|].
  exists st'. split; [f_equal; f_equal; rewrite length_cons; lia|].
  intros f. rewrite Hstored /stored_keys Hrows Hrows1 Hkeys elem_of_app.
  split.
  - intros [[Hf|Hf]|(d & Hd & Hdf)]; [by left| |].
    + right. exists document. split; [by left|].
      case_bool_decide; [by apply elem_of_nil in Hf|].
      by apply list_elem_of_singleton in Hf as ->.
    + right. exists d. split; [by right|done].
  - intros [Hf|(d & [->|Hd]%elem_of_cons & Hdf)]; [by left;left| |].
    + left. rewrite Hfid in Hdf. injection Hdf as ->.
      case_bool_decide; [by left|right; by left].
    + right. by exists d.
Qed.

(** X23: a bulk insert of storable documents stores them all.  In a
    reachable store whose table honours its keys, when every document is
    one the statement goes through with, [bulk_insert_documents] returns
    the number of documents, duplicates of a [file_id] included, and
    afterwards the table holds a row under exactly the keys it held
    before and the [file_id]s of the documents. *)
Theorem bulk_insert_documents_stores_all documents st :
  well_keyed st →
  up st = true →
  Forall storable documents →
  ∃ st',
    bulk_insert_documents documents st
    = (Ret (Z.of_nat (length documents)), st')
    ∧ ∀ fid,
        fid ∈ stored_keys st'
        ↔ fid ∈ stored_keys st
          ∨ ∃ document, document ∈ documents
              ∧ document !! "file_id" = Some (VStr fid).
Proof.
  intros Hkeyed Hup Hdocs.
  destruct (bulk_insert_loop_all documents 0 st Hkeyed Hup Hdocs)
    as (st' & Hrun & Hkeys).
  exists st'. by rewrite /bulk_insert_documents Hrun.
Qed.

(** X24: the schema is created once.  In an unreachable store
    [init_schema] raises.  In a reachable store it returns: a store
    without a table gets an empty one, which honours its keys, with the
    sequence at 1; a store that has the table is left as it is, rows
    included, so that a second call changes nothing. *)
Theorem init_schema_creates_once st :
  (up st = false → init_schema st = (Raise DatabaseError, st))
  ∧ (up st = true →
     ∃ st',
       init_schema st = (Ret tt, st')
       ∧ (documents st = None →
          documents st' = Some [] ∧ serial st' = 1 ∧ well_keyed st')
       ∧ (is_Some (documents st) → st' = st)
       ∧ init_schema st' = (Ret tt, st')).
Proof.
  rewrite /init_schema /bind /get_connection /modify. split.
  { by intros ->. }
  intros Hup. rewrite Hup. eexists. split; [done|].
  destruct (documents st) as [rows|] eqn:Hrows.
  - split; [done|]. split; [done|]. by rewrite Hup Hrows.
  - split.
    + intros _. split; [done|]. split; [done|].
      exists []. simpl. split_and!; try done; try constructor.
    + split; [by intros [? [=]]|]. by rewrite /= Hup.
Qed.

End persister_effects.

(** ** Waiting for the database *)

Section waiting_for_database.
Import db_manager startup.
Context (database : nat → store).

Lemma select_1_up w :
  up (database (attempts_made w)) = true →
  select_1 database w
  = (Ret tt, {| attempts_made := S (attempts_made w); pauses := pauses w |}).
Proof. intros Hup. by rewrite /select_1 /get_connection Hup. Qed.

Lemma select_1_down w :
  up (database (attempts_made w)) = false →
  select_1 database w
  = (Raise DatabaseError,
     {| attempts_made := S (attempts_made w); pauses := pauses w |}).
Proof. intros Hup. by rewrite /select_1 /get_connection Hup. Qed.

Lemma wait_loop_cons max_attempts delay i n w :
  wait_loop database max_attempts delay (Z.of_nat <$> seq i (S n)) w
  = match select_1 database w with
    | (Ret _, w) => (Ret true, w)
    | (Raise _, w) =>
        if Z.of_nat i <? max_attempts - 1
        then (sleep delay;;
              wait_loop database max_attempts delay (Z.of_nat <$> seq (S i) n)) w
        else (Ret false, w)
    end.
Proof. done. Qed.

Lemma wait_loop_ready max_attempts delay k n i w :
  0 ≤ delay →
  (i + n)%nat = Z.to_nat max_attempts →
  (k < n)%nat →
  unreachable_during database (attempts_made w) k →
  up (database (attempts_made w + k)) = true →
  wait_loop database max_attempts delay (Z.of_nat <$> seq i n) w
  = (Ret true, {| attempts_made := attempts_made w + k + 1;
                  pauses := pauses w ++ replicate k delay |}).
Proof.
  intros Hdelay. revert n i w.
  induction k as [|k IH]; intros n i w Hn Hk Hdown Hup.
  - destruct n as [|n]; [lia|]. rewrite Nat.add_0_r in Hup.
    rewrite wait_loop_cons select_1_up // app_nil_r. do 3 f_equal. lia.
  - destruct n as [|n]; [lia|].
    rewrite wait_loop_cons.
    rewrite select_1_down; [|by rewrite -(Hdown 0%nat) ?Nat.add_0_r //; lia].
    replace (Z.of_nat i <? max_attempts - 1) with true
      by (symmetry; apply Z.ltb_lt; lia).
    rewrite /bind /sleep. replace (delay <? 0) with false
      by (symmetry; apply Z.ltb_ge; lia).
    rewrite (IH n (S i)) /=; [|lia|lia| |].
    + rewrite -app_assoc /=. do 3 f_equal. lia.
    + intros j Hj. rewrite -(Hdown (S j)); [|lia]. do 2 f_equal. lia.
    + rewrite -Hup. do 2 f_equal. lia.
Qed.

Lemma wait_loop_gives_up max_attempts delay n i w :
  (0 ≤ delay ∨ max_attempts ≤ 1) →
  (i + n)%nat = Z.to_nat max_attempts →
  unreachable_during database (attempts_made w) n →
  wait_loop database max_attempts delay (Z.of_nat <$> seq i n) w
  = (Ret false, {| attempts_made := attempts_made w + n;
                   pauses := pauses w ++ replicate (n - 1) delay |}).
Proof.
  intros Hdelay. revert i w.
  induction n as [|n IH]; intros i w Hn Hdown.
  { rewrite /= app_nil_r Nat.add_0_r /ret. by destruct w. }
  rewrite wait_loop_cons.
  rewrite select_1_down; [|by rewrite -(Hdown 0%nat) ?Nat.add_0_r //; lia].
  destruct (Z.ltb_spec (Z.of_nat i) (max_attempts - 1)) as [Hlt|Hge].
  - rewrite /bind /sleep. replace (delay <? 0) with false
      by (symmetry; apply Z.ltb_ge; lia).
    rewrite (IH (S i)) /=; [|lia|].
    + destruct n as [|n]; [lia|]. rewrite -app_assoc /= Nat.sub_0_r.
      do 3 f_equal. lia.
    + intros j Hj. rewrite -(Hdown (S j)); [|lia]. do 2 f_equal. lia.
  - assert (n = 0%nat) as -> by lia.
    rewrite /= app_nil_r. do 3 f_equal. lia.
Qed.

(** X25: the wait ends with the first attempt that connects.  When the
    attempt numbered [k] is the first that finds the server reachable,
    and [k] is less than [max_attempts], [wait_for_database] returns
    [True] after [k + 1] attempts and [k] pauses of [delay] seconds. *)
Theorem wait_for_database_first_success max_attempts delay k w :
  0 ≤ delay →
  (k < Z.to_nat max_attempts)%nat →
  unreachable_during database (attempts_made w) k →
  up (database (attempts_made w + k)) = true →
  wait_for_database database max_attempts delay w
  = (Ret true, {| attempts_made := attempts_made w + k + 1;
                  pauses := pauses w ++ replicate k delay |}).
Proof.
  intros Hdelay Hk Hdown Hup. rewrite /wait_for_database /range.
  by apply wait_loop_ready.
Qed.

(** X26: the wait gives up after [max_attempts] attempts.  When none of the
    first [max_attempts] attempts finds the server reachable,
    [wait_for_database] returns [False] after exactly [max_attempts]
    attempts and [max_attempts - 1] pauses: there is no pause after the
    last attempt, and no attempt at all when [max_attempts] is not
    positive. *)
Theorem wait_for_database_gives_up max_attempts delay w :
  (0 ≤ delay ∨ max_attempts ≤ 1) →
  unreachable_during database (attempts_made w) (Z.to_nat max_attempts) →
  wait_for_database database max_attempts delay w
  = (Ret false,
     {| attempts_made := attempts_made w + Z.to_nat max_attempts;
        pauses := pauses w
                  ++ replicate (Z.to_nat max_attempts - 1) delay |}).
Proof.
  intros Hdelay Hdown. rewrite /wait_for_database /range.
  by apply wait_loop_gives_up.
Qed.

(** X27: a negative delay escapes the wait.  With a negative [delay] and
    two attempts or more allowed, a first attempt that fails makes
    [wait_for_database] raise the [ValueError] of [time.sleep], after
    that one attempt: the pause is taken inside the handler, where
    nothing catches it. *)
Theorem wait_for_database_negative_delay max_attempts delay w :
  delay < 0 →
  2 ≤ max_attempts →
  up (database (attempts_made w)) = false →
  wait_for_database database max_attempts delay w
  = (Raise (ValueError "sleep length must be non-negative"),
     {| attempts_made := S (attempts_made w); pauses := pauses w |}).
Proof.
  intros Hdelay Hmax Hdown. rewrite /wait_for_database /range.
  destruct (Z.to_nat max_attempts) as [|n] eqn:Hn; [lia|].
  rewrite wait_loop_cons select_1_down //.
  replace (Z.of_nat 0 <? max_attempts - 1) with true
    by (symmetry; apply Z.ltb_lt; lia).
  rewrite /bind /sleep. by replace (delay <? 0) with true
    by (symmetry; apply Z.ltb_lt; lia).
Qed.

End waiting_for_database.

(** ** From the Downloader to the Persister *)

Section stages_compose.
Import metadata_extractor pdf_processor slack_client db_manager.
Context `{rt : Runtime} `{host : Host} `{net : Network} `{api : SlackWebApi}
        `{svc : InferenceService} `{pg : Postgres}.

Lemma downloaded_record_keys ts text file_info p record :
  downloaded_record ts text file_info p = Ret record →
  record !! "local_path" = Some (VPath p)
  ∧ is_Some (record !! "file_id")
  ∧ is_Some (record !! "file_name").
Proof.
  rewrite /downloaded_record.
  destruct (subscript file_info "id") as [file_id|]; [|done].
  destruct file_info as [| | | | | |d]; try done. simpl.
  intros [= <-]. split_and!; [by vm_compute| |]; by eexists; vm_compute.
Qed.

Lemma attempted_records self download_path atts results w w' :
  attempted self download_path atts results w w' →
  Forall (λ record : dict,
            (∃ p, record !! "local_path" = Some (VPath p))
            ∧ is_Some (record !! "file_id")
            ∧ is_Some (record !! "file_name"))
    (omap id results).
Proof.
  induction 1 as [|? ? ? ? ? ? ? ? ? ? _ Hr _ IH|]; csimpl; [done| |done].
  constructor; [|done].
  apply downloaded_record_keys in Hr as (? & ? & ?). split; [by eexists|done].
Qed.

Lemma process_pdfs_worker_results (self : PDFProcessor) files schedule d :
  1 ≤ max_workers self →
  Forall downloaded_file files →
  schedule ≡ₚ seq 0 (length files) →
  ∃ d', process_pdfs self files schedule d
        = Some (Ret (worker_result <$> files), d').
Proof.
  intros Hworkers Hfiles Hperm.
  rewrite /process_pdfs. destruct files as [|f0 rest] eqn:E; [by eexists|].
  rewrite -E in Hperm Hfiles |- *.
  destruct (max_workers self <? 1) eqn:Hlt; [apply Z.ltb_lt in Hlt; lia|].
  apply pool_map_ordered; [|done].
  intros x s Hx. apply process_single_pdf_returns.
  by eapply Forall_forall in Hfiles.
Qed.

Lemma worker_result_extracted file_info :
  downloaded_file file_info →
  is_Some (file_info !! "file_name") →
  extracted_document (worker_result file_info).
Proof.
  intros [p Hp] Hname. rewrite /worker_result Hp. split.
  - by rewrite processed_frame.
  - eexists. apply processed_extracted_text.
Qed.

Lemma worker_result_frame file_info k :
  k ≠ "extracted_text" → k ≠ "text_file_path" → k ≠ "text_length" →
  worker_result file_info !! k = file_info !! k.
Proof.
  intros. rewrite /worker_result.
  destruct (file_info !! "local_path") as [[| | | |p| |]|]; try done.
  by apply processed_frame.
Qed.

Lemma produced_from_keeps file_info o k :
  produced_from file_info o →
  k ≠ "title" → k ≠ "publication_date" →
  o !! k = file_info !! k.
Proof.
  intros (md & -> & Hmd) Htitle Hdate.
  assert (md !! k = None) as Hnone.
  { apply not_elem_of_dom.
    assert (dom md = {[ "title"; "publication_date" ]}) as ->.
    { destruct Hmd as [[_ ->]|[(s & w0 & w1 & _ & _ & Hrun)|(w0 & w1 & _ & Hrun)]];
        [apply dom_pair| |].
      - destruct (extract_metadata_effects s default_max_retries w0)
          as (md' & w' & Hrun' & new & Hdom & _).
        rewrite Hrun in Hrun'. by injection Hrun' as -> _.
      - by apply extract_metadata_any_effects in Hrun as (? & _ & ? & ? & _). }
    rewrite not_elem_of_union !not_elem_of_singleton. by split. }
  by rewrite lookup_union_r.
Qed.

(** X28: the stages fit together.  On what the Downloader returns, with a
    pool of one worker or more, the Extractor returns, in every order of
    completion; on what the Extractor returns the Enricher returns; and on
    what the Enricher returns the Persister returns: from the download on,
    no stage raises.  The records keep their number and order, each keeps
    every field but the five the Extractor and the Enricher set, its
    [file_id] among them, and each has the two keys [insert_document]
    subscripts. *)
Theorem downloaded_records_reach_the_store self messages download_path w
    downloaded w1 (processor : PDFProcessor) schedule ew st :
  Forall fetched_message messages →
  download_all_pdfs self messages download_path w = (Ret downloaded, w1) →
  1 ≤ max_workers processor →
  schedule ≡ₚ seq 0 (length downloaded) →
  ∃ extracted d' enriched ew' n st',
    process_pdfs processor downloaded schedule (on_disk w1)
    = Some (Ret extracted, d')
    ∧ process_files extracted ew = (Ret enriched, ew')
    ∧ bulk_insert_documents enriched st = (Ret n, st')
    ∧ length enriched = length downloaded
    ∧ (∀ k, k ∉ ["extracted_text"; "text_file_path"; "text_length"; "title";
                 "publication_date"] →
            (λ record : dict, record !! k) <$> enriched
            = (λ record : dict, record !! k) <$> downloaded)
    ∧ Forall (λ document, ∃ data, doc_data document = Ret data) enriched.
Proof.
  intros Hmsgs Hdown Hworkers Hperm.
  destruct (download_messages_attempted self messages download_path [] w Hmsgs)
    as (results & w1' & Hrun & Hatt).
  rewrite /download_all_pdfs in Hdown. rewrite Hdown in Hrun.
  injection Hrun as -> <-.
  apply attempted_records in Hatt. simpl in *.
  set (downloaded := omap id results) in *.
  assert (Forall downloaded_file downloaded) as Hfiles.
  { eapply Forall_impl; [exact Hatt|]. by intros r [? _]. }
  destruct (process_pdfs_worker_results processor downloaded schedule
              (on_disk w1) Hworkers Hfiles Hperm) as [d' Hextract].
  assert (Forall extracted_document (worker_result <$> downloaded)) as Hextracted.
  { apply Forall_fmap. eapply Forall_impl; [exact Hatt|].
    intros r (Hp & _ & Hname). by apply worker_result_extracted. }
  destruct (process_files_loop_returns (worker_result <$> downloaded)
              (Z.of_nat (length (worker_result <$> downloaded))) 1 [] ew
              Hextracted) as (enriched & ew' & Henrich).
  destruct (process_files_loop_outputs _ _ _ _ _ _ _ Henrich)
    as (new & -> & Hnew).
  destruct (bulk_insert_loop_returns new 0 st) as (n & st' & Hstore & _).
  exists (worker_result <$> downloaded), d', new, ew', n, st'.
  assert (∀ k, k ∉ ["extracted_text"; "text_file_path"; "text_length"; "title";
                    "publication_date"] →
               (λ record : dict, record !! k) <$> new
               = (λ record : dict, record !! k) <$> downloaded) as Hframe.
  { intros k Hk.
    apply list_eq. intros i. rewrite !list_lookup_fmap.
    destruct (new !! i) as [o|] eqn:Ho.
    - destruct (Forall2_lookup_r _ _ _ _ _ Hnew Ho) as (x & Hx & Hprod).
      rewrite list_lookup_fmap in Hx.
      destruct (downloaded !! i) as [r|]; [|done]. injection Hx as <-.
      simpl. f_equal.
      move: Hk. rewrite !not_elem_of_cons. intros (? & ? & ? & ? & ? & _).
      rewrite (produced_from_keeps _ _ k Hprod) //.
      by apply worker_result_frame.
    - apply Forall2_length in Hnew. rewrite length_fmap in Hnew.
      apply lookup_ge_None in Ho.
      rewrite (proj2 (lookup_ge_None downloaded i)) //. lia. }
  split_and!; [done|done|done| |done|].
  - apply Forall2_length in Hnew. by rewrite length_fmap in Hnew.
  - apply Forall_lookup. intros i o Ho.
    assert ("file_id" ∉ ["extracted_text"; "text_file_path"; "text_length";
                         "title"; "publication_date"]) as Hk1
      by (rewrite !not_elem_of_cons; by split_and!; [..|apply not_elem_of_nil]).
    assert ("file_name" ∉ ["extracted_text"; "text_file_path"; "text_length";
                           "title"; "publication_date"]) as Hk2
      by (rewrite !not_elem_of_cons; by split_and!; [..|apply not_elem_of_nil]).
    pose proof (f_equal (λ l : list (option value), l !! i) (Hframe _ Hk1))
      as Hid.
    pose proof (f_equal (λ l : list (option value), l !! i) (Hframe _ Hk2))
      as Hname.
    rewrite /= !list_lookup_fmap Ho /= in Hid Hname.
    destruct (downloaded !! i) as [r|] eqn:Hr; [|done].
    eapply Forall_lookup_1 in Hatt as (_ & [fid Hfid] & [name Hn]); [|done].
    simpl in Hid, Hname. injection Hid as Hid. injection Hname as Hname.
    rewrite /doc_data /item Hid Hfid Hname Hn /=. by eexists.
Qed.

End stages_compose.

(** ** The further properties on the concrete run *)

Section further_instances.
Import config metadata_extractor pdf_processor slack_client db_manager scenario.

(** Closes [lhs = rhs] by evaluating both sides in the virtual machine. *)
Ltac evaluated :=
  lazymatch goal with
  | |- @eq ?A _ ?rhs => vm_cast_no_check (@eq_refl A rhs)
  end.

(** A service that is rate limited, then unreachable, then answers: three
    requests, sleeps of one and two seconds, the title of the answer. *)
Lemma extract_metadata_recovers_witness :
  ∃ w',
    extract_metadata (rt := runtime) (svc := flaky)
      "Report 2024" default_max_retries enricher_start
    = (Ret {[ "title" := VStr "Annual Review";
              "publication_date" := VStr "2024-01-01" ]}, w')
    ∧ api_calls w' = 3%nat
    ∧ sleeps (log w') = [1000; 2000].
Proof.
  destruct (extract_metadata_recovers (rt := runtime) (svc := flaky)
              "Report 2024" default_max_retries
              [RateLimitError; APIConnectionError] "Annual Review"
              {[ "title" := VStr "Annual Review";
                 "publication_date" := VStr "2024-01-01" ]}
              enricher_start)
    as (w' & Hrun & Hcalls & Hlog & Hsleeps).
  - repeat constructor.
  - reflexivity.
  - intros [|[|j]] e He; try discriminate He; injection He as <-; reflexivity.
  - reflexivity.
  - reflexivity.
  - exists w'. split; [exact Hrun|]. split; [exact Hcalls|].
    rewrite Hlog. exact Hsleeps.
Defined.

(** A service that cannot be reached, with the default three attempts:
    three requests, two sleeps of two seconds, the null pair. *)
Lemma extract_metadata_api_error_fixed_delay_witness :
  ∃ w',
    extract_metadata (rt := runtime) (svc := always_disconnected)
      "Report 2024" default_max_retries enricher_start
    = (Ret null_metadata, w')
    ∧ api_calls w' = 3%nat
    ∧ sleeps (log w') = [2000; 2000].
Proof.
  destruct (extract_metadata_api_error_fixed_delay
              (rt := runtime) (svc := always_disconnected)
              "Report 2024" default_max_retries APIConnectionError
              enricher_start)
    as (w' & new & Hrun & Hlog & Hcalls & _ & Hsleeps).
  - by compute.
  - reflexivity.
  - reflexivity.
  - intros n. reflexivity.
  - exists w'. split; [exact Hrun|]. split; [exact Hcalls|].
    rewrite Hlog. exact Hsleeps.
Defined.

(** Three records, the second without text, on a service that answers at
    once: the requests are those of the records in turn, and the second
    record has none. *)
Lemma process_files_skips_empty_text_witness :
  ∃ out w' l1 l2 l3,
    process_files (rt := runtime) (svc := one_malformed)
      three_documents enricher_start = (Ret out, w')
    ∧ log w' = l1 ++ l2 ++ l3
    ∧ calls l2 = []
    ∧ (length (calls l1) ≤ 3)%nat
    ∧ (length (calls l3) ≤ 3)%nat.
Proof.
  destruct (process_files_loop_returns (rt := runtime) (svc := one_malformed)
              three_documents 3 1 [] enricher_start)
    as (out & w' & Hrun).
  { repeat constructor; eexists; reflexivity. }
  destruct (process_files_skips_empty_text
              (rt := runtime) (svc := one_malformed)
              three_documents enricher_start out w' Hrun)
    as (per_file & Hlog & _ & Hown).
  apply Forall2_cons_inv_l in Hown as (l1 & rest1 & (Hl1 & _) & Hown & ->).
  apply Forall2_cons_inv_l in Hown as (l2 & rest2 & (_ & _ & Hl2) & Hown & ->).
  apply Forall2_cons_inv_l in Hown as (l3 & rest3 & (Hl3 & _) & Hown & ->).
  apply Forall2_nil_inv_l in Hown as ->.
  exists out, w', l1, l2, l3. split; [exact Hrun|].
  split; [by rewrite Hlog /= app_nil_r|].
  split; [exact (Hl2 eq_refl)|]. split; [exact Hl1|exact Hl3].
Defined.

(** The same three records: two courtesy delays. *)
Lemma process_files_courtesy_delays_witness :
  ∃ out w',
    process_files (rt := runtime) (svc := one_malformed)
      three_documents enricher_start = (Ret out, w')
    ∧ courtesy_delays (log w') = [500; 500].
Proof.
  destruct (process_files_loop_returns (rt := runtime) (svc := one_malformed)
              three_documents 3 1 [] enricher_start)
    as (out & w' & Hrun).
  { repeat constructor; eexists; reflexivity. }
  destruct (process_files_courtesy_delays
              (rt := runtime) (svc := one_malformed)
              three_documents enricher_start out w' Hrun)
    as (new & Hlog & Hdelays).
  exists out, w'. split; [exact Hrun|]. rewrite Hlog. exact Hdelays.
Defined.

(** A record without [file_name] after a good one: the whole call
    raises. *)
Lemma process_files_missing_file_name_witness :
  ∃ w',
    process_files (rt := runtime) (svc := one_malformed)
      [extracted "F1" "Report 2024"; nameless] enricher_start
    = (Raise KeyError, w').
Proof.
  apply (process_files_missing_file_name (rt := runtime) (svc := one_malformed)
           [extracted "F1" "Report 2024"; nameless] enricher_start 1 nameless).
  - reflexivity.
  - reflexivity.
  - repeat constructor; eexists; reflexivity.
Defined.

(** A record without [local_path] among the files: the stage raises,
    whichever worker finishes first. *)
Lemma process_pdfs_bad_record_aborts_witness :
  ∃ e d',
    process_pdfs (rt := runtime) (host := all_writable)
      {| max_workers := 4 |} [downloaded "F1"; pathless] [1; 0]%nat ∅
    = Some (Raise e, d')
    ∧ (e = KeyError ∨ e = AttributeError).
Proof.
  apply (process_pdfs_bad_record_aborts (rt := runtime) (host := all_writable)
           {| max_workers := 4 |} [downloaded "F1"; pathless] [1; 0]%nat ∅
           1 pathless).
  - simpl. lia.
  - reflexivity.
  - intros [p Hp]. discriminate Hp.
  - left.
Defined.

(** Three files on an empty disk: afterwards the sidecar of the first is
    there, and a path that is no sidecar is as it was. *)
Lemma process_pdfs_writes_sidecars_only_witness :
  ∃ out d',
    process_pdfs (rt := runtime) (host := all_writable)
      {| max_workers := 4 |} three_files [2; 0; 1]%nat ∅ = Some (Ret out, d')
    ∧ d' !! "pdfs/F1_report.pdf" = None
    ∧ is_Some (d' !! "pdfs/F1_report.txt").
Proof.
  assert (Forall (downloaded_file) three_files) as Hfiles.
  { repeat constructor; eexists; reflexivity. }
  assert ([2; 0; 1]%nat ≡ₚ seq 0 (length three_files)) as Hperm.
  { simpl. etrans; [apply perm_swap|]. apply perm_skip, perm_swap. }
  destruct (process_pdfs_worker_results (rt := runtime) (host := all_writable)
              {| max_workers := 4 |} three_files [2; 0; 1]%nat ∅)
    as [d' Hrun]; [simpl; lia|exact Hfiles|exact Hperm|].
  destruct (process_pdfs_writes_sidecars_only
              (rt := runtime) (host := all_writable)
              {| max_workers := 4 |} three_files [2; 0; 1]%nat ∅ _ d'
              Hfiles Hperm Hrun) as [Hframe Hsidecar].
  eexists _, d'. split; [exact Hrun|]. split.
  - rewrite Hframe; [reflexivity|].
    intros file_info p Hin Hp.
    repeat (apply elem_of_cons in Hin as [->|Hin]);
      [| | |by apply elem_of_nil in Hin];
      injection Hp as <-; discriminate.
  - destruct (Hsidecar (downloaded "F1") "pdfs/F1_report.pdf")
      as (f' & p' & _ & _ & _ & Hd'); [by left|reflexivity|reflexivity|].
    eexists. exact Hd'.
Defined.

(** A PDF that cannot be read: the empty text, and no request to the
    service. *)
Lemma unreadable_pdf_is_not_enriched_witness :
  processed (rt := runtime) (host := all_writable) (downloaded "F2")
    "pdfs/F2_report.pdf" !! "text_length" = Some (VInt 0)
  ∧ (process_files (rt := runtime) (svc := one_malformed)
       [processed (rt := runtime) (host := all_writable) (downloaded "F2")
          "pdfs/F2_report.pdf"] enricher_start).2
    = enricher_start.
Proof.
  destruct (unreadable_pdf_is_not_enriched
              (rt := runtime) (host := all_writable) (svc := one_malformed)
              (downloaded "F2") "pdfs/F2_report.pdf" OSError enricher_start)
    as (_ & Hlen & Hrun).
  - reflexivity.
  - eexists. reflexivity.
  - reflexivity.
  - split; [exact Hlen|]. by rewrite Hrun.
Defined.

(** A history of two pages: the PDF messages of both, in order. *)
Lemma fetch_messages_follows_cursors_witness :
  fetch_messages (api := two_pages) 5 "research" 100
  = Some (Ret (first_kept ++ second_kept)).
Proof.
  apply (fetch_messages_follows_cursors (api := two_pages) 5 "research" 100
           (VStr "C02") [first_page; second_page] [first_kept; second_kept]).
  - reflexivity.
  - eapply (paged_more (api := two_pages) _ _ VNone first_response
              (VList first_page) first_page (VStr "page-2"));
      [reflexivity|reflexivity|reflexivity|reflexivity|].
    eapply (paged_last (api := two_pages) _ _ (VStr "page-2") second_response
              (VList second_page) second_page); reflexivity.
  - repeat constructor.
  - simpl. lia.
Defined.

(** The request for the second page fails: the call raises, and the PDF
    message of the first page is not returned. *)
Lemma fetch_messages_all_or_nothing_witness :
  fetch_messages (api := second_page_fails) 5 "research" 100
  = Some (Raise SlackApiError).
Proof.
  apply (fetch_messages_all_or_nothing (api := second_page_fails) 5 "research"
           100 (VStr "C02") [first_page] [first_kept] SlackApiError).
  - reflexivity.
  - eapply (paged_more (api := second_page_fails) _ _ VNone first_response
              (VList first_page) first_page (VStr "page-2"));
      [reflexivity|reflexivity|reflexivity|reflexivity|].
    by apply (paged_fails (api := second_page_fails)).
  - repeat constructor.
  - simpl. lia.
Defined.

(** The two messages fetched are PDF messages, and the Downloader returns
    on them. *)
Lemma fetch_messages_returns_pdf_messages_witness :
  Forall pdf_message (first_kept ++ second_kept)
  ∧ ∃ out w',
      download_all_pdfs (rt := runtime) (host := all_writable)
        (net := reliable) slack (first_kept ++ second_kept) "pdfs" empty_disk
      = (Ret out, w').
Proof.
  destruct (fetch_messages_returns_pdf_messages (rt := runtime)
              (host := all_writable) (net := reliable) (api := two_pages)
              5 "research" 100 (first_kept ++ second_kept))
    as [Hpdf Hdown].
  - evaluated.
  - split; [exact Hpdf|]. apply Hdown.
Defined.

(** A descriptor without [url_private], its file on disk already: the
    call raises [KeyError] and the world is as it was. *)
Lemma download_pdf_needs_id_and_url_witness :
  download_pdf (rt := runtime) (host := all_writable) (net := reliable)
    slack (VDict {[ "id" := VStr "F1"; "name" := VStr "report.pdf" ]})
    "pdfs" one_file
  = (Raise KeyError, one_file).
Proof.
  destruct (download_pdf_needs_id_and_url (rt := runtime)
              (host := all_writable) (net := reliable) slack
              (VDict {[ "id" := VStr "F1"; "name" := VStr "report.pdf" ]})
              "pdfs" one_file) as (e & Hrun & ->).
  - intros (d & file_id & url & Hd & _ & Hurl). injection Hd as <-.
    discriminate Hurl.
  - exact Hrun.
Defined.

(** A file that cannot be fetched: one request, and the disk as it was. *)
Lemma download_pdf_failure_effects_witness :
  ∃ e w1,
    download_pdf (rt := runtime) (host := all_writable) (net := one_unreachable)
      slack (VDict (report "F2")) "pdfs" empty_disk = (Raise e, w1)
    ∧ requests w1 = [VStr "https://files.example/F2"]
    ∧ on_disk w1 = ∅.
Proof.
  assert (Hrun :
    download_pdf (rt := runtime) (host := all_writable) (net := one_unreachable)
      slack (VDict (report "F2")) "pdfs" empty_disk
    = (Raise RequestException,
       {| on_disk := ∅; requests := [VStr "https://files.example/F2"] |}))
    by evaluated.
  destruct (download_pdf_failure_effects (rt := runtime)
              (host := all_writable) (net := one_unreachable) slack
              (report "F2") "pdfs" (VStr "F2")
              (VStr "https://files.example/F2") empty_disk _ _
              eq_refl eq_refl eq_refl Hrun) as [Hreq _].
  eexists _, _. split; [exact Hrun|]. split; [exact Hreq|reflexivity].
Defined.

(** A connection that drops after the first chunk: the call raises, the
    chunk is on disk under the name of the file, and the next call
    returns that file. *)
Lemma download_pdf_truncated_file_is_kept_witness :
  ∃ w1,
    download_pdf (rt := runtime) (host := all_writable) (net := dropping)
      slack (VDict (report "F1")) "pdfs" empty_disk
    = (Raise RequestException, w1)
    ∧ on_disk w1 !! "pdfs/F1_report.pdf" = Some "%PDF-1.7 "
    ∧ download_pdf (rt := runtime) (host := all_writable) (net := dropping)
        slack (VDict (report "F1")) "pdfs" w1
      = (Ret "pdfs/F1_report.pdf", w1).
Proof.
  exact (download_pdf_truncated_file_is_kept (rt := runtime)
           (host := all_writable) (net := dropping) slack (report "F1") "pdfs"
           (VStr "F1") (VStr "https://files.example/F1") empty_disk
           {| status_ok := true; body_chunks := ["%PDF-1.7 "];
              transfer_ends := ConnectionLost |}
           eq_refl eq_refl eq_refl eq_refl eq_refl eq_refl eq_refl eq_refl).
Defined.

(** Two messages with three attachments, one of which cannot be fetched:
    the records returned point to files of the disk, and the requests are
    those of the three attachments. *)
Lemma download_all_pdfs_records_on_disk_witness :
  ∃ out w' per_attachment,
    download_all_pdfs (rt := runtime) (host := all_writable)
      (net := one_unreachable) slack two_messages "pdfs" empty_disk
    = (Ret out, w')
    ∧ Forall (local_path_on (on_disk w')) out
    ∧ requests w' = concat per_attachment
    ∧ length per_attachment = 3%nat.
Proof.
  destruct (download_messages_attempted (rt := runtime) (host := all_writable)
              (net := one_unreachable) slack two_messages "pdfs" []
              empty_disk two_messages_fetched)
    as (results & w' & Hrun & _).
  destruct (download_all_pdfs_records_on_disk (rt := runtime)
              (host := all_writable) (net := one_unreachable) slack
              two_messages "pdfs" empty_disk _ w' two_messages_fetched Hrun)
    as (Hout & _ & per_attachment & Hreq & Hown).
  eexists _, w', per_attachment. split; [exact Hrun|]. split; [exact Hout|].
  split; [exact Hreq|]. symmetry. exact (Forall2_length _ _ _ Hown).
Defined.

(** On a network that answers every request, a second run over the same
    two messages returns the same three records and leaves the world as
    the first run left it. *)
Lemma download_all_pdfs_second_run_witness :
  ∃ out w',
    download_all_pdfs (rt := runtime) (host := all_writable)
      (net := reliable) slack two_messages "pdfs" empty_disk
    = (Ret out, w')
    ∧ length out = 3%nat
    ∧ download_all_pdfs (rt := runtime) (host := all_writable)
        (net := reliable) slack two_messages "pdfs" w'
      = (Ret out, w').
Proof.
  destruct (download_messages_attempted (rt := runtime) (host := all_writable)
              (net := reliable) slack two_messages "pdfs" []
              empty_disk two_messages_fetched)
    as (results & w' & Hrun & _).
  assert (Hlen :
    match (download_all_pdfs (rt := runtime) (host := all_writable)
             (net := reliable) slack two_messages "pdfs" empty_disk).1 with
    | Ret out => length out
    | Raise _ => 0%nat
    end = 3%nat) by evaluated.
  change (download_messages slack two_messages "pdfs" [] empty_disk)
    with (download_all_pdfs (rt := runtime) (host := all_writable)
            (net := reliable) slack two_messages "pdfs" empty_disk) in Hrun.
  rewrite Hrun in Hlen. simpl in Hlen, Hrun.
  eexists _, w'. split; [exact Hrun|]. split; [exact Hlen|].
  exact (download_all_pdfs_second_run (rt := runtime) (host := all_writable)
           (net := reliable) slack two_messages "pdfs" empty_disk _ w'
           two_messages_fetched Hrun Hlen).
Defined.

(** A document stored in the empty table is found, and another [file_id]
    is not. *)
Lemma insert_document_then_exists_witness :
  ∃ st',
    insert_document (rt := runtime) (pg := permissive)
      enriched_document empty_store = (Ret (Some 1), st')
    ∧ document_exists (VStr "F1") st' = (Ret true, st')
    ∧ (document_exists (VStr "F3") st').1 = Ret false.
Proof.
  destruct (insert_document_then_exists (rt := runtime) (pg := permissive)
              enriched_document empty_store 1 _ "F1" eq_refl eq_refl)
    as [Hfound Hother].
  eexists. split; [reflexivity|]. split; [exact Hfound|].
  rewrite (Hother "F3"); [reflexivity|discriminate].
Defined.

Lemma one_row_well_keyed : well_keyed one_row.
Proof.
  exists [stored_report]. split; [reflexivity|]. split.
  { apply NoDup_singleton. }
  split; [apply NoDup_singleton|]. split; [|reflexivity].
  constructor; [|constructor]. split; reflexivity.
Qed.

Lemma both_storable :
  Forall (storable (rt := runtime) (pg := permissive))
    [enriched_document; enriched_minutes; enriched_document].
Proof. repeat constructor; eexists _, _; repeat split; reflexivity. Qed.

(** Three documents, two of them under the key the table holds: the row
    that was there keeps its id and its [processed_at], and the table
    still honours its keys. *)
Lemma bulk_insert_documents_keeps_keys_witness :
  ∃ n st' rows',
    bulk_insert_documents (rt := runtime) (pg := permissive)
      [enriched_document; enriched_minutes; enriched_document] one_row
    = (Ret n, st')
    ∧ well_keyed st'
    ∧ documents st' = Some rows'
    ∧ [first_written stored_report] `prefix_of` (first_written <$> rows').
Proof.
  destruct (bulk_insert_loop_returns (rt := runtime) (pg := permissive)
              [enriched_document; enriched_minutes; enriched_document] 0
              one_row) as (n & st' & Hrun & _).
  destruct (bulk_insert_documents_keeps_keys (rt := runtime) (pg := permissive)
              [enriched_document; enriched_minutes; enriched_document]
              one_row n st' [stored_report] one_row_well_keyed eq_refl Hrun)
    as (Hkeyed & rows' & Hrows' & Hfirst & _).
  exists n, st', rows'. split; [exact Hrun|]. split; [exact Hkeyed|].
  split; [exact Hrows'|exact Hfirst].
Defined.

(** The same three documents: the count is three, and the table holds
    [F1] and [F3]. *)
Lemma bulk_insert_documents_stores_all_witness :
  ∃ st',
    bulk_insert_documents (rt := runtime) (pg := permissive)
      [enriched_document; enriched_minutes; enriched_document] one_row
    = (Ret 3, st')
    ∧ "F3" ∈ stored_keys st'.
Proof.
  destruct (bulk_insert_documents_stores_all (rt := runtime) (pg := permissive)
              [enriched_document; enriched_minutes; enriched_document]
              one_row one_row_well_keyed eq_refl both_storable)
    as (st' & Hrun & Hkeys).
  exists st'. split; [exact Hrun|]. apply Hkeys. right.
  exists enriched_minutes. split; [|reflexivity]. right. left.
Defined.

(** A server that comes up for the fourth attempt: four attempts, three
    pauses of two seconds. *)
Lemma wait_for_database_first_success_witness :
  startup.wait_for_database up_at_fourth startup.default_max_attempts
    startup.default_delay not_waited
  = (Ret true, {| startup.attempts_made := 4; startup.pauses := [2; 2; 2] |}).
Proof.
  apply (wait_for_database_first_success up_at_fourth
           startup.default_max_attempts startup.default_delay 3 not_waited).
  - by compute.
  - by vm_compute; lia.
  - intros j Hj. destruct j as [|[|[|j]]]; [reflexivity..|lia].
  - reflexivity.
Defined.

(** A server that never comes up, with three attempts allowed: three
    attempts, two pauses. *)
Lemma wait_for_database_gives_up_witness :
  startup.wait_for_database never_up 3 startup.default_delay not_waited
  = (Ret false, {| startup.attempts_made := 3; startup.pauses := [2; 2] |}).
Proof.
  apply (wait_for_database_gives_up never_up 3 startup.default_delay
           not_waited).
  - left. by compute.
  - intros j Hj. reflexivity.
Defined.

(** A delay of minus one second: the first failed attempt ends the wait
    with a [ValueError]. *)
Lemma wait_for_database_negative_delay_witness :
  startup.wait_for_database never_up 3 (-1) not_waited
  = (Raise (ValueError "sleep length must be non-negative"),
     {| startup.attempts_made := 1; startup.pauses := [] |}).
Proof.
  apply (wait_for_database_negative_delay never_up 3 (-1) not_waited).
  - reflexivity.
  - by compute.
  - reflexivity.
Defined.

(** Two messages with three attachments, one of which cannot be fetched:
    the two records downloaded go through extraction, enrichment and
    storage, and two documents come out. *)
Lemma downloaded_records_reach_the_store_witness :
  ∃ downloaded w1 extracted d' enriched ew' n st',
    download_all_pdfs (rt := runtime) (host := all_writable)
      (net := one_unreachable) slack two_messages "pdfs" empty_disk
    = (Ret downloaded, w1)
    ∧ process_pdfs (rt := runtime) (host := all_writable)
        {| max_workers := 4 |} downloaded [1; 0]%nat (on_disk w1)
      = Some (Ret extracted, d')
    ∧ process_files (rt := runtime) (svc := one_malformed) extracted
        enricher_start = (Ret enriched, ew')
    ∧ bulk_insert_documents (rt := runtime) (pg := permissive) enriched
        empty_store = (Ret n, st')
    ∧ length enriched = 2%nat.
Proof.
  destruct (download_messages_attempted (rt := runtime) (host := all_writable)
              (net := one_unreachable) slack two_messages "pdfs" []
              empty_disk two_messages_fetched)
    as (results & w1 & Hrun & _).
  assert (Hlen :
    match (download_all_pdfs (rt := runtime) (host := all_writable)
             (net := one_unreachable) slack two_messages "pdfs"
             empty_disk).1 with
    | Ret out => length out
    | Raise _ => 0%nat
    end = 2%nat) by evaluated.
  change (download_messages slack two_messages "pdfs" [] empty_disk)
    with (download_all_pdfs (rt := runtime) (host := all_writable)
            (net := one_unreachable) slack two_messages "pdfs" empty_disk)
    in Hrun.
  rewrite Hrun in Hlen. simpl in Hlen, Hrun.
  destruct (downloaded_records_reach_the_store (rt := runtime)
              (host := all_writable) (net := one_unreachable)
              (svc := one_malformed) (pg := permissive)
              slack two_messages "pdfs" empty_disk _ w1
              {| max_workers := 4 |} [1; 0]%nat enricher_start empty_store
              two_messages_fetched Hrun)
    as (extracted & d' & enriched & ew' & n & st' & Hextract & Henrich
        & Hstore & Hlength & _).
  - simpl. lia.
  - rewrite Hlen. apply perm_swap.
  - eexists _, w1, extracted, d', enriched, ew', n, st'.
    split; [exact Hrun|]. split; [exact Hextract|]. split; [exact Henrich|].
    split; [exact Hstore|]. by rewrite Hlength.
Defined.

(** A disk that fills up while the body is written: [OSError], and the
    chunk that was written stays under the name of the file. *)
Example download_pdf_disk_full :
  download_pdf (rt := runtime) (host := all_writable) (net := disk_full)
    slack (attachment "F1") "pdfs" empty_disk
  = (Raise OSError,
     {| on_disk := {[ "pdfs/F1_report.pdf" := "%PDF-1.7 " ]};
        requests := [VStr "https://files.example/F1"] |}).
Proof. evaluated. Qed.

(** A text that is a list is submitted as its [str]; a text that is a
    number makes [len] raise, outside every [try]. *)
Example process_files_list_text :
  process_files (rt := runtime) (svc := one_malformed) [paged_text]
    enricher_start
  = (Ret [ {[ "title" := VStr "Annual Review";
              "publication_date" := VStr "2024-01-01" ]} ∪ paged_text ],
     {| api_calls := 1;
        log := [ApiCall (prompt_of
                           (py_str (Runtime := runtime)
                              (VList [VStr "page one"; VStr "page two"])))] |}).
Proof. evaluated. Qed.

Example process_files_numeric_text :
  process_files (rt := runtime) (svc := one_malformed) [numeric_text]
    enricher_start
  = (Raise TypeError, enricher_start).
Proof. evaluated. Qed.

(** Characters are code points: an accented letter is one character in
    two bytes. *)
Example py_len_cafe : py_len cafe = 4%nat ∧ String.length cafe = 5%nat.
Proof. split; reflexivity. Qed.

Example py_take_cafe : py_take 4 (cafe +:+ "s") = cafe.
Proof. reflexivity. Qed.


End further_instances.
